(** * chgpasswd: batch update of group passwords

    A shallow embedding of [src/chgpasswd.c] (shadow utilities): the loop of
    [main] that reads [name:password] lines, together with [open_files],
    [close_files] and [fail_exit].

    The program is single-threaded; its state is threaded explicitly.  The
    group and gshadow access layer ([groupio.h], [sgroupio.h]), the password
    encoder ([pw_encrypt], [crypt_make_salt]) and [BUFSIZ] are not part of
    the file: the encoder and [BUFSIZ] are parameters carried by [env], the
    access layer is modelled from the specification's Database Handle.  The
    embedding is that of a build with SHADOWGRP defined; a build without it
    behaves as one where [sgr_file_present ()] returns false. *)

From Stdlib Require Import ZArith Ascii.
From stdpp Require Import gmap strings list fin_maps.

(** ** Characters and C strings *)

(** A C string is a list of characters; inside a buffer it extends up to,
    and excluding, the first NUL (or the end of what was written). *)

Definition NUL : ascii := "000"%char.
Definition newline : ascii := "010"%char.
Definition colon : ascii := ":"%char.

(** [INT_MAX] of a 32-bit [int] (the type of [errors] and [line]). *)
Definition INT_MAX : Z := 2147483647.

Definition str_NONE : list ascii := String.list_ascii_of_string "NONE".
Definition str_MD5 : list ascii := String.list_ascii_of_string "MD5".

Fixpoint strlen (s : list ascii) : nat :=
  match s with
  | [] => 0
  | c :: s' => if decide (c = NUL) then 0 else S (strlen s')
  end.

(** The C string stored at offset [off] of buffer [buf]. *)
Definition string_at (off : nat) (buf : list ascii) : list ascii :=
  take (strlen (drop off buf)) (drop off buf).

(** [strchr s c]: offset of the first [c] in the C string [s] ([c] is not
    NUL at either call site). *)
Fixpoint strchr (s : list ascii) (c : ascii) : option nat :=
  match s with
  | [] => None
  | x :: s' =>
      if decide (x = NUL) then None
      else if decide (x = c) then Some 0
      else S <$> strchr s' c
  end.

(** [strrchr s c]: offset of the last [c] in the C string [s]. *)
Fixpoint strrchr (s : list ascii) (c : ascii) : option nat :=
  match s with
  | [] => None
  | x :: s' =>
      if decide (x = NUL) then None
      else match strrchr s' c with
           | Some i => Some (S i)
           | None => if decide (x = c) then Some 0 else None
           end
  end.

(** [fgets (buf, n, stdin)]: reads at most [n - 1] characters, stopping
    after a newline or at end of stream.  The result is [None] (NULL) when
    the stream is at its end; otherwise the characters stored in [buf]
    and the rest of the stream. *)
Fixpoint fgets_chars (k : nat) (s : list ascii) : list ascii * list ascii :=
  match k, s with
  | 0, _ => ([], s)
  | _, [] => ([], [])
  | S k', c :: s' =>
      if decide (c = newline) then ([c], s')
      else let '(b, r) := fgets_chars k' s' in (c :: b, r)
  end.

Definition fgets (n : nat) (s : list ascii) : option (list ascii * list ascii) :=
  match s with
  | [] => None
  | _ => Some (fgets_chars (n - 1) s)
  end.

(** Lines 403-434 of [main]: the newline is looked up with [strrchr] and
    overwritten with NUL, then the first colon is looked up with [strchr]
    and overwritten with NUL; [name] is the string at the start of the
    buffer and [newpwd] the string after the colon. *)
Inductive fields :=
| TooLong
| MissingPassword
| Fields (name newpwd : list ascii).

Definition split_line (buf : list ascii) : fields :=
  match strrchr buf newline with
  | None => TooLong
  | Some i =>
      let buf := <[i := NUL]> buf in
      match strchr buf colon with
      | None => MissingPassword
      | Some j =>
          let buf := <[j := NUL]> buf in
          Fields (string_at 0 buf) (string_at (S j) buf)
      end
  end.

(** ** Records of the two databases *)

Record group := Group {
  gr_name : list ascii;
  gr_passwd : list ascii;
  gr_gid : Z;
  gr_mem : list (list ascii) }.

Record sgrp := Sgrp {
  sg_name : list ascii;
  sg_passwd : list ascii;
  sg_adm : list (list ascii);
  sg_mem : list (list ascii) }.

(** The tables are keyed by name; an entry holds the other fields. *)
Record gr_ent := GrEnt {
  ge_passwd : list ascii;
  ge_gid : Z;
  ge_mem : list (list ascii) }.

Record sg_ent := SgEnt {
  se_passwd : list ascii;
  se_adm : list (list ascii);
  se_mem : list (list ascii) }.

Definition group_of (name : list ascii) (e : gr_ent) : group :=
  Group name (ge_passwd e) (ge_gid e) (ge_mem e).
Definition ent_of_group (g : group) : gr_ent :=
  GrEnt (gr_passwd g) (gr_gid g) (gr_mem g).
Definition sgrp_of (name : list ascii) (e : sg_ent) : sgrp :=
  Sgrp name (se_passwd e) (se_adm e) (se_mem e).
Definition ent_of_sgrp (g : sgrp) : sg_ent :=
  SgEnt (sg_passwd g) (sg_adm g) (sg_mem g).

(** [newgr.gr_passwd = cp] and [newsg.sg_passwd = cp]. *)
Definition set_gr_passwd (cp : list ascii) (g : group) : group :=
  Group (gr_name g) cp (gr_gid g) (gr_mem g).
Definition set_sg_passwd (cp : list ascii) (g : sgrp) : sgrp :=
  Sgrp (sg_name g) cp (sg_adm g) (sg_mem g).

(** ** Database Handle *)

(** Modelled from the spec: the group and gshadow access layer
    ([gr_lock], [gr_open], [gr_locate], [gr_update], [gr_close],
    [gr_unlock] and their [sgr_] counterparts) is declared in [groupio.h]
    and [sgroupio.h] and defined outside this file.  Following section 3 of
    the specification a handle wraps the file it represents, an exclusive
    lock (held or not), an open/closed state, an in-memory table keyed by
    name and a dirty flag. *)
Record handle (D : Type) := Handle {
  storage : gmap (list ascii) D;
  table : gmap (list ascii) D;
  locked : bool;
  isopen : bool;
  dirty : bool }.
Arguments Handle {D}.
Arguments storage {D}.
Arguments table {D}.
Arguments locked {D}.
Arguments isopen {D}.
Arguments dirty {D}.

Section DatabaseHandle.
Context {D : Type}.

(** Modelled from the spec: [lock()] acquires the exclusive lock and
    fails, without waiting, when another process holds it ([free] is
    false). *)
Definition db_lock (free : bool) (h : handle D) : bool * handle D :=
  if free
  then (true, Handle (storage h) (table h) true (isopen h) (dirty h))
  else (false, h).

(** Modelled from the spec: [open(forWrite)] loads the full record table
    into memory and fails when the file is unreadable or malformed
    ([readable] is false). *)
Definition db_open (readable : bool) (h : handle D) : bool * handle D :=
  if readable
  then (true, Handle (storage h) (storage h) (locked h) true false)
  else (false, h).

(** Modelled from the spec: [locate(name)] is a pure lookup by key. *)
Definition db_locate (h : handle D) (name : list ascii) : option D :=
  table h !! name.

(** Modelled from the spec: [stageUpdate(record)] replaces the in-memory
    entry whose key matches the record's key, marks the handle dirty, and
    fails when no prior entry with that key exists. *)
Definition db_update (h : handle D) (name : list ascii) (d : D)
  : bool * handle D :=
  match table h !! name with
  | Some _ =>
      (true, Handle (storage h) (<[name := d]> (table h))
                    (locked h) (isopen h) true)
  | None => (false, h)
  end.

(** Modelled from the spec: the commit half of [commitAndUnlock()]: if
    dirty, the storage is replaced by the in-memory table; it fails when
    the durable write fails ([durable] is false). *)
Definition db_close (durable : bool) (h : handle D) : bool * handle D :=
  if dirty h
  then if durable
       then (true, Handle (table h) (table h) (locked h) false false)
       else (false, h)
  else (true, Handle (storage h) (table h) (locked h) false false).

(** Modelled from the spec: [abortAndUnlock()], and the unlock half of
    [commitAndUnlock()]: releases the lock without writing, regardless of
    the dirty state.  The call reports failure when there is no lock to
    release. *)
Definition db_unlock (h : handle D) : bool * handle D :=
  if locked h
  then (true, Handle (storage h) (table h) false (isopen h) (dirty h))
  else (false, h).
End DatabaseHandle.

(** ** Environment, flags and program state *)

(** What the program prints on standard error. *)
Inductive dbname := group_db | gshadow_db.

Inductive diag :=
| line_too_long (n : Z)
| missing_new_password (n : Z)
| group_does_not_exist (n : Z) (name : list ascii)
| failed_to_prepare (n : Z) (db : dbname) (name : list ascii)
| error_detected
| cannot_lock (db : dbname)
| cannot_open (db : dbname)
| failure_while_writing (db : dbname)
| failed_to_unlock (db : dbname).

(** The calls the program makes to its collaborators, in order. *)
Inductive dbop :=
| Lock | Open | Locate (name : list ascii) | Update (name : list ascii)
| Close | Unlock.

Inductive call :=
| Db (db : dbname) (op : dbop)
| MakeSalt
| Encrypt (clear : list ascii)
| FlushCache.

(** The parts of the platform the file leaves open: [BUFSIZ] from
    [<stdio.h>], the encoder of [prototypes.h] (the salt generator is
    randomised; its first argument counts the salts drawn before), the
    answer of [sgr_file_present ()], the contents of the two files when the
    run starts, and whether locking, reading and the durable write
    succeed. *)
Record env := Env {
  BUFSIZ : nat;
  pw_encrypt : list ascii -> list ascii -> list ascii;
  crypt_make_salt : nat -> option (list ascii) -> option Z -> list ascii;
  sgr_file_present : bool;
  gr_file : gmap (list ascii) gr_ent;
  sgr_file : gmap (list ascii) sg_ent;
  gr_lock_free : bool;
  gr_readable : bool;
  gr_durable : bool;
  sgr_lock_free : bool;
  sgr_readable : bool;
  sgr_durable : bool }.

(** The option globals as [process_flags] leaves them. *)
Record flags := Flags {
  cflg : bool;
  eflg : bool;
  md5flg : bool;
  sflg : bool;
  crypt_method0 : option (list ascii);
  sha_rounds : Z }.

Record state := State {
  gr_db : handle gr_ent;
  sgr_db : handle sg_ent;
  is_shadow_grp : bool;
  sgr_locked : bool;
  gr_locked : bool;
  crypt_method : option (list ascii);
  salts : nat;
  errors : Z;
  line : Z;
  stderr : list diag;
  calls : list call }.

Definition set_gr_db (h : handle gr_ent) (s : state) : state :=
  State h (sgr_db s) (is_shadow_grp s) (sgr_locked s) (gr_locked s)
        (crypt_method s) (salts s) (errors s) (line s) (stderr s) (calls s).
Definition set_sgr_db (h : handle sg_ent) (s : state) : state :=
  State (gr_db s) h (is_shadow_grp s) (sgr_locked s) (gr_locked s)
        (crypt_method s) (salts s) (errors s) (line s) (stderr s) (calls s).
Definition set_sgr_locked (b : bool) (s : state) : state :=
  State (gr_db s) (sgr_db s) (is_shadow_grp s) b (gr_locked s)
        (crypt_method s) (salts s) (errors s) (line s) (stderr s) (calls s).
Definition set_gr_locked (b : bool) (s : state) : state :=
  State (gr_db s) (sgr_db s) (is_shadow_grp s) (sgr_locked s) b
        (crypt_method s) (salts s) (errors s) (line s) (stderr s) (calls s).
Definition set_crypt_method (m : option (list ascii)) (s : state) : state :=
  State (gr_db s) (sgr_db s) (is_shadow_grp s) (sgr_locked s) (gr_locked s)
        m (salts s) (errors s) (line s) (stderr s) (calls s).
Definition set_salts (n : nat) (s : state) : state :=
  State (gr_db s) (sgr_db s) (is_shadow_grp s) (sgr_locked s) (gr_locked s)
        (crypt_method s) n (errors s) (line s) (stderr s) (calls s).
Definition set_errors (n : Z) (s : state) : state :=
  State (gr_db s) (sgr_db s) (is_shadow_grp s) (sgr_locked s) (gr_locked s)
        (crypt_method s) (salts s) n (line s) (stderr s) (calls s).
Definition set_line (n : Z) (s : state) : state :=
  State (gr_db s) (sgr_db s) (is_shadow_grp s) (sgr_locked s) (gr_locked s)
        (crypt_method s) (salts s) (errors s) n (stderr s) (calls s).
(** [fprintf (stderr, ...)] *)
Definition say (d : diag) (s : state) : state :=
  State (gr_db s) (sgr_db s) (is_shadow_grp s) (sgr_locked s) (gr_locked s)
        (crypt_method s) (salts s) (errors s) (line s) (stderr s ++ [d])
        (calls s).
Definition note (c : call) (s : state) : state :=
  State (gr_db s) (sgr_db s) (is_shadow_grp s) (sgr_locked s) (gr_locked s)
        (crypt_method s) (salts s) (errors s) (line s) (stderr s)
        (calls s ++ [c]).

(** ** Control: a small monad for [exit] and undefined behaviour *)

(** [Done a]: control goes on with [a].  [Exit code s]: the process has
    terminated with status [code] in state [s].  [Undefined]: an [int]
    counter was incremented at [INT_MAX], which C leaves undefined.
    [OutOfFuel]: the loop was cut off by its fuel. *)
Inductive run (A : Type) :=
| Done (a : A)
| Exit (code : Z) (s : state)
| Undefined
| OutOfFuel.
Arguments Done {A}.
Arguments Exit {A}.
Arguments Undefined {A}.
Arguments OutOfFuel {A}.

Definition bind {A B : Type} (m : run A) (k : A -> run B) : run B :=
  match m with
  | Done a => k a
  | Exit c s => Exit c s
  | Undefined => Undefined
  | OutOfFuel => OutOfFuel
  end.

Notation "'do' x <- m ; k" := (bind m (fun x => k))
  (at level 10, x name, m at level 100, k at level 200).

(** [x++] on an [int]. *)
Definition int_incr (x : Z) : run Z :=
  if (x <? INT_MAX)%Z then Done (x + 1)%Z else Undefined.

(** [errors++; continue;] *)
Definition count_error (s : state) : run state :=
  do e <- int_incr (errors s); Done (set_errors e s).

(** ** The access layer as the program calls it *)

Definition gr_lock (E : env) (s : state) : bool * state :=
  let '(ok, h) := db_lock (gr_lock_free E) (gr_db s) in
  (ok, note (Db group_db Lock) (set_gr_db h s)).
Definition gr_open (E : env) (s : state) : bool * state :=
  let '(ok, h) := db_open (gr_readable E) (gr_db s) in
  (ok, note (Db group_db Open) (set_gr_db h s)).
Definition gr_locate (name : list ascii) (s : state) : option group * state :=
  (group_of name <$> db_locate (gr_db s) name,
   note (Db group_db (Locate name)) s).
Definition gr_update (g : group) (s : state) : bool * state :=
  let '(ok, h) := db_update (gr_db s) (gr_name g) (ent_of_group g) in
  (ok, note (Db group_db (Update (gr_name g))) (set_gr_db h s)).
Definition gr_close (E : env) (s : state) : bool * state :=
  let '(ok, h) := db_close (gr_durable E) (gr_db s) in
  (ok, note (Db group_db Close) (set_gr_db h s)).
Definition gr_unlock (s : state) : bool * state :=
  let '(ok, h) := db_unlock (gr_db s) in
  (ok, note (Db group_db Unlock) (set_gr_db h s)).

Definition sgr_lock (E : env) (s : state) : bool * state :=
  let '(ok, h) := db_lock (sgr_lock_free E) (sgr_db s) in
  (ok, note (Db gshadow_db Lock) (set_sgr_db h s)).
Definition sgr_open (E : env) (s : state) : bool * state :=
  let '(ok, h) := db_open (sgr_readable E) (sgr_db s) in
  (ok, note (Db gshadow_db Open) (set_sgr_db h s)).
Definition sgr_locate (name : list ascii) (s : state) : option sgrp * state :=
  (sgrp_of name <$> db_locate (sgr_db s) name,
   note (Db gshadow_db (Locate name)) s).
Definition sgr_update (g : sgrp) (s : state) : bool * state :=
  let '(ok, h) := db_update (sgr_db s) (sg_name g) (ent_of_sgrp g) in
  (ok, note (Db gshadow_db (Update (sg_name g))) (set_sgr_db h s)).
Definition sgr_close (E : env) (s : state) : bool * state :=
  let '(ok, h) := db_close (sgr_durable E) (sgr_db s) in
  (ok, note (Db gshadow_db Close) (set_sgr_db h s)).
Definition sgr_unlock (s : state) : bool * state :=
  let '(ok, h) := db_unlock (sgr_db s) in
  (ok, note (Db gshadow_db Unlock) (set_sgr_db h s)).

(** ** The program *)

(** [fail_exit]: exit with a failure code after unlocking the files. *)
Definition fail_exit {A : Type} (code : Z) (s : state) : run A :=
  let s :=
    if gr_locked s then
      let '(ok, s) := gr_unlock s in
      if ok then s else say (failed_to_unlock group_db) s
    else s in
  let s :=
    if sgr_locked s then
      let '(ok, s) := sgr_unlock s in
      if ok then s else say (failed_to_unlock gshadow_db) s
    else s in
  Exit code s.

(** [open_files]: lock and open the group databases. *)
Definition open_files (E : env) (s : state) : run state :=
  let '(ok, s) := gr_lock E s in
  if negb ok then fail_exit 1 (say (cannot_lock group_db) s) else
  let s := set_gr_locked true s in
  let '(ok, s) := gr_open E s in
  if negb ok then fail_exit 1 (say (cannot_open group_db) s) else
  if is_shadow_grp s then
    let '(ok, s) := sgr_lock E s in
    if negb ok then fail_exit 1 (say (cannot_lock gshadow_db) s) else
    let s := set_sgr_locked true s in
    let '(ok, s) := sgr_open E s in
    if negb ok then fail_exit 1 (say (cannot_open gshadow_db) s) else
    Done s
  else Done s.

(** [close_files]: close and unlock the group databases. *)
Definition close_files (E : env) (s : state) : run state :=
  do s <- (if is_shadow_grp s then
             let '(ok, s) := sgr_close E s in
             if negb ok
             then fail_exit 1 (say (failure_while_writing gshadow_db) s)
             else
               let '(ok, s) := sgr_unlock s in
               let s := if ok then s
                        else say (failed_to_unlock gshadow_db) s in
               Done (set_sgr_locked false s)
           else Done s);
  let '(ok, s) := gr_close E s in
  if negb ok then fail_exit 1 (say (failure_while_writing group_db) s) else
  let '(ok, s) := gr_unlock s in
  let s := if ok then s else say (failed_to_unlock group_db) s in
  Done (set_gr_locked false s).

(** The test of lines 435-437: the new password is encrypted unless [-e]
    was given or the crypt method is "NONE". *)
Definition encrypts (F : flags) (s : state) : bool :=
  negb (eflg F) &&
  match crypt_method s with
  | None => true
  | Some m => negb (bool_decide (m = str_NONE))
  end.

(** Lines 438-449: the choice of method and argument, the salt and the
    call to [pw_encrypt]; the result is the new value of [cp]. *)
Definition encrypt_password (E : env) (F : flags) (newpwd : list ascii)
    (s : state) : list ascii * state :=
  let s := if md5flg F then set_crypt_method (Some str_MD5) s else s in
  let arg :=
    if md5flg F then None
    else match crypt_method s with
         | Some _ => if sflg F then Some (sha_rounds F) else None
         | None => None
         end in
  let salt := crypt_make_salt E (salts s) (crypt_method s) arg in
  let s := note MakeSalt (set_salts (S (salts s)) s) in
  (pw_encrypt E newpwd salt, note (Encrypt newpwd) s).

(** Lines 456-511: the group is looked up, the new password is merged into
    a copy of the gshadow entry when there is one and of the group entry
    otherwise, and the copy is put back. *)
Definition merge_password (name cp : list ascii) (s : state) : run state :=
  let '(gr, s) := gr_locate name s in
  match gr with
  | None =>
      count_error (say (group_does_not_exist (line s) name) s)
  | Some gr =>
      let '(sg, s) :=
        if is_shadow_grp s then sgr_locate name s else (None, s) in
      match sg with
      | Some sg =>
          let newsg := set_sg_passwd cp sg in
          let '(ok, s) := sgr_update newsg s in
          if negb ok
          then count_error
                 (say (failed_to_prepare (line s) gshadow_db (sg_name newsg)) s)
          else Done s
      | None =>
          let newgr := set_gr_passwd cp gr in
          let '(ok, s) := gr_update newgr s in
          if negb ok
          then count_error
                 (say (failed_to_prepare (line s) group_db (gr_name newgr)) s)
          else Done s
      end
  end.

(** The body of the [while] loop, for the buffer [fgets] has filled. *)
Definition process_line (E : env) (F : flags) (buf : list ascii) (s : state)
    : run state :=
  do n <- int_incr (line s);
  let s := set_line n s in
  match split_line buf with
  | TooLong => count_error (say (line_too_long (line s)) s)
  | MissingPassword => count_error (say (missing_new_password (line s)) s)
  | Fields name newpwd =>
      let '(cp, s) :=
        if encrypts F s then encrypt_password E F newpwd s else (newpwd, s) in
      merge_password name cp s
  end.

(** [while (fgets (buf, sizeof buf, stdin) != NULL) { ... }] *)
Fixpoint read_lines (E : env) (F : flags) (fuel : nat) (stdin : list ascii)
    (s : state) : run state :=
  match fuel with
  | 0 => OutOfFuel
  | S fuel =>
      match fgets (BUFSIZ E) stdin with
      | None => Done s
      | Some (buf, stdin) =>
          do s <- process_line E F buf s;
          read_lines E F fuel stdin s
      end
  end.

(** The state in which [open_files] is entered: nothing is locked or
    opened, [is_shadow_grp = sgr_file_present ()], [errors = 0] and
    [line = 0]. *)
Definition initial (E : env) (F : flags) : state :=
  State (Handle (gr_file E) ∅ false false false)
        (Handle (sgr_file E) ∅ false false false)
        (sgr_file_present E) false false (crypt_method0 F) 0 0 0 [] [].

(** [main], from [open_files ()] on.  Each call of [fgets] consumes at
    least one character when [BUFSIZ] is at least 2, so the length of the
    input bounds the number of iterations. *)
Definition main (E : env) (F : flags) (stdin : list ascii) : run state :=
  do s <- open_files E (initial E F);
  do s <- read_lines E F (S (length stdin)) stdin s;
  if negb (errors s =? 0)%Z then fail_exit 1 (say error_detected s) else
  do s <- close_files E s;
  Exit 0 (note FlushCache s).

(** ** Lines of the input, as the loop sees them *)

(** The buffers [fgets] delivers, one per iteration of the loop. *)
Fixpoint records (fuel : nat) (n : nat) (stdin : list ascii)
    : list (list ascii) :=
  match fuel with
  | 0 => []
  | S fuel =>
      match fgets n stdin with
      | None => []
      | Some (buf, stdin) => buf :: records fuel n stdin
      end
  end.

Definition input_records (E : env) (stdin : list ascii) : list (list ascii) :=
  records (S (length stdin)) (BUFSIZ E) stdin.

(** A line that the loop rejects on its contents: no newline was found in
    the buffer, no colon was found, or the name is not a key of the group
    table. *)
Definition rejects (E : env) (buf : list ascii) : bool :=
  match split_line buf with
  | TooLong => true
  | MissingPassword => true
  | Fields name _ => bool_decide (gr_file E !! name = None)
  end.

(** The diagnostics that go with [errors++]. *)
Definition line_diag (d : diag) : bool :=
  match d with
  | line_too_long _ | missing_new_password _
  | group_does_not_exist _ _ | failed_to_prepare _ _ _ => true
  | _ => false
  end.

(** The calls made from inside the loop. *)
Definition loop_call (c : call) : bool :=
  match c with
  | Db _ (Locate _) | Db _ (Update _) | MakeSalt | Encrypt _ => true
  | _ => false
  end.

Definition encoder_call (c : call) : bool :=
  match c with
  | MakeSalt | Encrypt _ => true
  | _ => false
  end.

Definition commit_call (c : call) : bool :=
  match c with
  | Db _ Close => true
  | _ => false
  end.

(** Locking, opening and (when shadowed) the same for gshadow all succeed,
    so that the run reaches the loop. *)
Definition opens (E : env) : bool :=
  gr_lock_free E && gr_readable E &&
  (negb (sgr_file_present E) || (sgr_lock_free E && sgr_readable E)).

(** ** Auxiliary notions used by the statements *)

(** The loop over the buffers of [records]. *)
Fixpoint process_all (E : env) (F : flags) (rs : list (list ascii))
    (s : state) : run state :=
  match rs with
  | [] => Done s
  | r :: rs => do s <- process_line E F r s; process_all E F rs s
  end.

(** What [k] iterations of the loop may change: they stage entries under
    existing keys, append calls of the loop and per-line diagnostics, count
    one error per diagnostic and advance [line] by [k]. *)
Record extends (k : nat) (s s' : state) : Prop := Extends {
  ext_line : line s' = (line s + Z.of_nat k)%Z;
  ext_gr_storage : storage (gr_db s') = storage (gr_db s);
  ext_sgr_storage : storage (sgr_db s') = storage (sgr_db s);
  ext_gr_dom : dom (table (gr_db s')) = dom (table (gr_db s));
  ext_sgr_dom : dom (table (sgr_db s')) = dom (table (sgr_db s));
  ext_gr_lock : locked (gr_db s') = locked (gr_db s);
  ext_sgr_lock : locked (sgr_db s') = locked (sgr_db s);
  ext_shadow : is_shadow_grp s' = is_shadow_grp s;
  ext_gr_locked : gr_locked s' = gr_locked s;
  ext_sgr_locked : sgr_locked s' = sgr_locked s;
  ext_calls : exists cs,
    calls s' = calls s ++ cs /\ forallb loop_call cs = true;
  ext_stderr : exists ds,
    stderr s' = stderr s ++ ds /\ forallb line_diag ds = true /\
    errors s' = (errors s + Z.of_nat (length ds))%Z }.

(** The encoder is bypassed: [-e], or crypt method "NONE". *)
Definition bypass (F : flags) : bool :=
  eflg F || bool_decide (crypt_method0 F = Some str_NONE).

(** The credential derived from the password field [newpwd] when [k] salts
    were drawn before. *)
Definition credential (E : env) (F : flags) (k : nat) (newpwd : list ascii)
    : list ascii :=
  if bypass F then newpwd
  else
    pw_encrypt E newpwd
      (crypt_make_salt E k
         (if md5flg F then Some str_MD5 else crypt_method0 F)
         (if md5flg F then None
          else match crypt_method0 F with
               | Some _ => if sflg F then Some (sha_rounds F) else None
               | None => None
               end)).

(** The password of group [name]: that of its gshadow entry when the
    shadowed database is in use and has one, that of its group entry
    otherwise. *)
Definition password_of (shadow : bool) (gr : gmap (list ascii) gr_ent)
    (sgr : gmap (list ascii) sg_ent) (name : list ascii)
    : option (list ascii) :=
  match (if shadow then sgr !! name else None) with
  | Some e => Some (se_passwd e)
  | None => ge_passwd <$> gr !! name
  end.

Definition staged_password (s : state) (name : list ascii) :=
  password_of (is_shadow_grp s) (table (gr_db s)) (table (sgr_db s)) name.
Definition committed_password (s : state) (name : list ascii) :=
  password_of (is_shadow_grp s) (storage (gr_db s)) (storage (sgr_db s)) name.

(** The value of [cp] after lines 434-450, for the password field
    [newpwd] read in state [s]. *)
Definition new_credential (E : env) (F : flags) (newpwd : list ascii)
    (s : state) : list ascii :=
  if encrypts F s then fst (encrypt_password E F newpwd s) else newpwd.

(** The calls of [open_files] when it succeeds, and the state in which
    the loop is then entered. *)
Definition opening (shadow : bool) : list call :=
  [Db group_db Lock; Db group_db Open] ++
  (if shadow then [Db gshadow_db Lock; Db gshadow_db Open] else []).

Definition opened (E : env) (F : flags) : state :=
  State (Handle (gr_file E) (gr_file E) true true false)
        (if sgr_file_present E
         then Handle (sgr_file E) (sgr_file E) true true false
         else Handle (sgr_file E) ∅ false false false)
        (sgr_file_present E) (sgr_file_present E) true (crypt_method0 F)
        0 0 0 [] (opening (sgr_file_present E)).

(** The calls of [close_files] when both commits succeed, and those of
    [fail_exit] when the loop has run. *)
Definition closing (shadow : bool) : list call :=
  (if shadow then [Db gshadow_db Close; Db gshadow_db Unlock] else []) ++
  [Db group_db Close; Db group_db Unlock].

Definition unlocking (shadow : bool) : list call :=
  [Db group_db Unlock] ++ (if shadow then [Db gshadow_db Unlock] else []).

(** What lines 435-450 leave behind, besides [cp]. *)
Definition encoder_calls (F : flags) (newpwd : list ascii) (s : state)
    : list call :=
  if encrypts F s then [MakeSalt; Encrypt newpwd] else [].
Definition salts_after (F : flags) (s : state) : nat :=
  if encrypts F s then S (salts s) else salts s.
Definition method_after (F : flags) (s : state) : option (list ascii) :=
  if encrypts F s && md5flg F then Some str_MD5 else crypt_method s.

(** [crypt_method] is the method given on the command line, or "MD5" once
    [-m] has put it there. *)
Definition method_inv (F : flags) (s : state) : Prop :=
  crypt_method s = crypt_method0 F \/
  (md5flg F = true /\ bypass F = false /\ crypt_method s = Some str_MD5).

(** A handle that is not dirty holds the contents of its file. *)
Definition consistent {D : Type} (h : handle D) : Prop :=
  dirty h = false -> table h = storage h.

(** Both durable writes succeed. *)
Definition commits (E : env) : bool :=
  gr_durable E && (negb (sgr_file_present E) || sgr_durable E).

(** The calls that make up the lifecycle: everything but the unlocks and
    the cache flush; and the two commits in the order of [close_files]. *)
Definition lifecycle_call (c : call) : bool :=
  match c with
  | Db _ Unlock | FlushCache => false
  | _ => true
  end.

Definition committing (shadow : bool) : list call :=
  (if shadow then [Db gshadow_db Close] else []) ++ [Db group_db Close].

(** The order claimed for the abort path: gshadow is unlocked first (when
    it is locked), the group file second. *)
Definition unlocks_gshadow_first (E : env) (F : flags) (stdin : list ascii)
    : Prop :=
  forall s,
    read_lines E F (S (length stdin)) stdin (opened E F) = Done s ->
    errors s <> 0%Z ->
    exists final,
      main E F stdin = Exit 1 final /\
      calls final =
        calls s ++ (if sgr_locked s then [Db gshadow_db Unlock] else [])
                ++ [Db group_db Unlock].

(** ** A concrete platform, for examples *)

Definition txt (s : string) : list ascii := String.list_ascii_of_string s.
Definition ln (s : string) : list ascii := txt s ++ [newline].

Definition demo_encrypt (clear salt : list ascii) : list ascii :=
  salt ++ txt "$" ++ clear.
Definition demo_salt (k : nat) (m : option (list ascii)) (arg : option Z)
    : list ascii :=
  default (txt "DES") m ++ repeat "."%char k.

Definition demo_env (shadow : bool) : env :=
  Env (Z.to_nat 8192) demo_encrypt demo_salt shadow
      (<[txt "g1" := GrEnt (txt "x") 100 [txt "alice"]]>
         (<[txt "staff" := GrEnt (txt "old") 50 []]> ∅))
      (<[txt "g1" := SgEnt (txt "!") [txt "root"] [txt "alice"]]> ∅)
      true true true true true true.

Definition plain_flags : flags := Flags false false false false None 5000.
Definition e_flags : flags := Flags false true false false None 5000.
Definition none_flags : flags :=
  Flags true false false false (Some str_NONE) 5000.

(** Inputs and states of the examples: [g1] is in both files, [staff] in
    the group file only, [zz] in neither. *)
Definition twice_g1 : list ascii := ln "g1:pass1" ++ ln "g1:pass2".
Definition mixed_input : list ascii :=
  ln "g1:pass1" ++ ln "nocolon" ++ ln "zz:pass2" ++ ln "staff:a:b".
Definition unterminated_input : list ascii := ln "g1:pass1" ++ txt "staff:x".

(** The state in which the loop leaves [stdin]. *)
Definition after_loop (E : env) (F : flags) (stdin : list ascii) : state :=
  match read_lines E F (S (length stdin)) stdin (opened E F) with
  | Done s => s
  | _ => opened E F
  end.

Definition shadowed : env := demo_env true.
Definition loop_entry : state := opened shadowed plain_flags.
Definition g1_entry : gr_ent := GrEnt (txt "x") 100 [txt "alice"].
Definition staff_entry : gr_ent := GrEnt (txt "old") 50 [].

(** The text of a list of lines, each followed by its newline. *)
Definition unlines (lines : list (list ascii)) : list ascii :=
  concat ((fun l => l ++ [newline]) <$> lines).

(** ** Command line and authorisation *)

(** What [process_flags], [check_flags] and [check_perms] take from
    outside the file: whether the build has USE_SHA_CRYPT and USE_PAM,
    [E_USAGE] of [exitcodes.h], [getlong] of [prototypes.h] (given the
    string and the old value of [*result], it yields its return value and
    the new [*result]), the two PAM codes the file names, the entry
    [getpwuid (getuid ())] finds (its [pw_name], or NULL) and the answers
    of the three PAM calls. *)
Record platform := Platform {
  USE_SHA_CRYPT : bool;
  USE_PAM : bool;
  E_USAGE : Z;
  getlong : list ascii -> Z -> Z * Z;
  PAM_SUCCESS : Z;
  PAM_USER_UNKNOWN : Z;
  getpwuid : option (list ascii);
  pam_start : list ascii -> Z;
  pam_authenticate : Z;
  pam_acct_mgmt : Z }.

(** What is printed before the databases are opened. *)
Inductive msg :=
| usage_text (sha : bool)
| invalid_numeric_argument (arg : list ascii)
| s_only_with_c
| flags_exclusive
| unsupported_crypt_method (m : list ascii)
| pam_authentication_failed.

(** Messages and PAM calls, in order. *)
Inductive event :=
| Print (m : msg)
| Getpwuid
| PamStart (user : list ascii)
| PamAuthenticate
| PamAcctMgmt
| PamEnd (retval : Z).

(** [Go a log]: the function returns.  [Stop code log]: it has called
    [exit (code)].  [Wild]: it has passed NULL to [strcmp] or read
    [pampw->pw_name] through NULL. *)
Inductive front (A : Type) :=
| Go (a : A) (log : list event)
| Stop (code : Z) (log : list event)
| Wild.
Arguments Go {A}.
Arguments Stop {A}.
Arguments Wild {A}.

(** [usage]: display usage message and exit. *)
Definition usage {A : Type} (B : platform) (log : list event) : front A :=
  Stop (E_USAGE B) (log ++ [Print (usage_text (USE_SHA_CRYPT B))]).

Definition chr (c : ascii) : Z := Z.of_nat (nat_of_ascii c).

Definition str_DES : list ascii := String.list_ascii_of_string "DES".
Definition str_SHA256 : list ascii := String.list_ascii_of_string "SHA256".
Definition str_SHA512 : list ascii := String.list_ascii_of_string "SHA512".

(** The methods [check_flags] lets through. *)
Definition supported_method (B : platform) (m : list ascii) : bool :=
  bool_decide (m = str_DES) || bool_decide (m = str_MD5)
  || bool_decide (m = str_NONE)
  || (USE_SHA_CRYPT B
      && (bool_decide (m = str_SHA256) || bool_decide (m = str_SHA512))).

(** [check_flags]: check flags and parameters consistency. *)
Definition check_flags (B : platform) (F : flags) (log : list event)
    : front flags :=
  if sflg F && negb (cflg F)
  then usage B (log ++ [Print s_only_with_c])
  else if (eflg F && (md5flg F || cflg F)) || (md5flg F && cflg F)
  then usage B (log ++ [Print flags_exclusive])
  else if cflg F then
    match crypt_method0 F with
    | None => Wild
    | Some m =>
        if negb (bool_decide (m = str_DES))
           && negb (bool_decide (m = str_MD5))
           && negb (bool_decide (m = str_NONE))
           && (negb (USE_SHA_CRYPT B)
               || (negb (bool_decide (m = str_SHA256))
                   && negb (bool_decide (m = str_SHA512))))
        then usage B (log ++ [Print (unsupported_crypt_method m)])
        else Go F log
    end
  else Go F log.

(** The globals before [process_flags]. *)
Definition no_flags : flags := Flags false false false false None 5000.

(** The [while] loop of [process_flags], over the values [getopt_long]
    returns before -1, each with its [optarg]. *)
Fixpoint read_options (B : platform) (opts : list (Z * list ascii))
    (F : flags) (log : list event) : front flags :=
  match opts with
  | [] => Go F log
  | (c, optarg) :: opts =>
      if (c =? chr "c")%Z then
        read_options B opts
          (Flags true (eflg F) (md5flg F) (sflg F) (Some optarg)
                 (sha_rounds F)) log
      else if (c =? chr "e")%Z then
        read_options B opts
          (Flags (cflg F) true (md5flg F) (sflg F) (crypt_method0 F)
                 (sha_rounds F)) log
      else if (c =? chr "h")%Z then usage B log
      else if (c =? chr "m")%Z then
        read_options B opts
          (Flags (cflg F) (eflg F) true (sflg F) (crypt_method0 F)
                 (sha_rounds F)) log
      else if USE_SHA_CRYPT B && (c =? chr "s")%Z then
        let '(ret, rounds) := getlong B optarg (sha_rounds F) in
        let F := Flags (cflg F) (eflg F) (md5flg F) true (crypt_method0 F)
                       rounds in
        if negb (ret =? 0)%Z
        then usage B (log ++ [Print (invalid_numeric_argument optarg)])
        else read_options B opts F log
      else if (c =? 0)%Z then read_options B opts F log
      else usage B log
  end.

(** [process_flags]: parse the command line options. *)
Definition process_flags (B : platform) (opts : list (Z * list ascii))
    : front flags :=
  match read_options B opts no_flags [] with
  | Go F log => check_flags B F log
  | r => r
  end.

(** [check_perms]: check if the caller is allowed; without PAM support it
    does nothing. *)
Definition check_perms (B : platform) (log : list event) : front unit :=
  if negb (USE_PAM B) then Go tt log else
  let retval := PAM_SUCCESS B in
  let log := log ++ [Getpwuid] in
  let pampw := getpwuid B in
  let retval :=
    match pampw with None => PAM_USER_UNKNOWN B | Some _ => retval end in
  match
    (if (PAM_SUCCESS B =? retval)%Z
     then match pampw with
          | Some pw_name => Some (pam_start B pw_name, log ++ [PamStart pw_name])
          | None => None
          end
     else Some (retval, log))
  with
  | None => Wild
  | Some (retval, log) =>
      let '(retval, log) :=
        if (PAM_SUCCESS B =? retval)%Z
        then (pam_authenticate B, log ++ [PamAuthenticate])
        else (retval, log) in
      let '(retval, log) :=
        if (PAM_SUCCESS B =? retval)%Z
        then (pam_acct_mgmt B, log ++ [PamAcctMgmt])
        else (retval, log) in
      if negb (PAM_SUCCESS B =? retval)%Z
      then Stop 1 (log ++ [PamEnd retval; Print pam_authentication_failed])
      else Go tt log
  end.

(** The whole of [main]: the options, the authorisation, then the part
    from [open_files] on; with PAM support [pam_end (pamh, PAM_SUCCESS)]
    is the last call before [return (0)].  [Refused]: the process has
    exited before [open_files].  [Ran]: it went on with the flags [F]; [r]
    is the outcome of the rest and [last] what [main] logs after it. *)
Inductive ending :=
| Refused (code : Z) (log : list event)
| Ran (log : list event) (F : flags) (r : run state) (last : list event)
| Astray.

Definition chgpasswd (B : platform) (E : env) (opts : list (Z * list ascii))
    (stdin : list ascii) : ending :=
  match process_flags B opts with
  | Stop code log => Refused code log
  | Wild => Astray
  | Go F log =>
      match check_perms B log with
      | Stop code log => Refused code log
      | Wild => Astray
      | Go _ log =>
          let r := main E F stdin in
          Ran log F r
              (match r with
               | Exit 0 _ =>
                   if USE_PAM B then [PamEnd (PAM_SUCCESS B)] else []
               | _ => []
               end)
      end
  end.

(** ** Notions used by the further properties *)

(** The fields of an entry that the program has no business with. *)
Definition gr_rest (e : gr_ent) : Z * list (list ascii) :=
  (ge_gid e, ge_mem e).
Definition sg_rest (e : sg_ent) : list (list ascii) * list (list ascii) :=
  (se_adm e, se_mem e).

(** The number of lines rejected on their contents. *)
Definition rejected_count (E : env) (rs : list (list ascii)) : nat :=
  length (List.filter (rejects E) rs).

(** The calls on the gshadow handle. *)
Definition gshadow_call (c : call) : bool :=
  match c with
  | Db gshadow_db _ => true
  | _ => false
  end.

(** The password fields of the buffers that parse, in order. *)
Definition cleartexts (rs : list (list ascii)) : list (list ascii) :=
  omap (fun r => match split_line r with
                 | Fields _ newpwd => Some newpwd
                 | _ => None
                 end) rs.

(** Option [ch] occurs on the command line; the argument of its last
    occurrence. *)
Definition is_opt (ch : ascii) (o : Z * list ascii) : bool :=
  (fst o =? chr ch)%Z.
Definition given (ch : ascii) (opts : list (Z * list ascii)) : bool :=
  existsb (is_opt ch) opts.
Definition last_arg (ch : ascii) (opts : list (Z * list ascii))
    : option (list ascii) :=
  last (snd <$> List.filter (is_opt ch) opts).

(** The values of [c] that [process_flags] has a case for, [-h] apart. *)
Definition recognised (B : platform) (c : Z) : bool :=
  (c =? chr "c")%Z || (c =? chr "e")%Z || (c =? chr "m")%Z
  || (USE_SHA_CRYPT B && (c =? chr "s")%Z) || (c =? 0)%Z.

(** [sha_rounds] after one option. *)
Definition rounds_step (B : platform) (rounds : Z) (o : Z * list ascii) : Z :=
  if USE_SHA_CRYPT B && is_opt "s" o then snd (getlong B (snd o) rounds)
  else rounds.

Definition is_print (e : event) : bool :=
  match e with
  | Print _ => true
  | _ => false
  end.

(** The PAM calls of [check_perms] with their answers, for user [u]. *)
Definition pam_steps (B : platform) (u : list ascii) : list (event * Z) :=
  [(PamStart u, pam_start B u); (PamAuthenticate, pam_authenticate B);
   (PamAcctMgmt, pam_acct_mgmt B)].

(** The calls one iteration of the loop makes for the buffer [r], told
    from the files as they are when the run starts. *)
Definition line_calls (E : env) (F : flags) (r : list ascii) : list call :=
  match split_line r with
  | Fields name newpwd =>
      (if bypass F then [] else [MakeSalt; Encrypt newpwd]) ++
      Db group_db (Locate name) ::
      match gr_file E !! name with
      | None => []
      | Some _ =>
          if sgr_file_present E then
            [Db gshadow_db (Locate name);
             match sgr_file E !! name with
             | Some _ => Db gshadow_db (Update name)
             | None => Db group_db (Update name)
             end]
          else [Db group_db (Update name)]
      end
  | _ => []
  end.

(** What the loop keeps true from one line to the next. *)
Definition loop_inv (E : env) (F : flags) (s : state) : Prop :=
  (errors s <= line s)%Z /\ method_inv F s /\
  dom (table (gr_db s)) = dom (gr_file E) /\
  is_shadow_grp s = sgr_file_present E /\
  (sgr_file_present E = true ->
   dom (table (sgr_db s)) = dom (sgr_file E)).

(** The salts one buffer costs. *)
Definition salts_drawn (F : flags) (r : list ascii) : nat :=
  match split_line r with
  | Fields _ _ => if bypass F then 0 else 1
  | _ => 0
  end.

(** ** Further examples *)

(** An environment with a buffer of 8 bytes, one without gshadow, and
    three in which a step on a file fails. *)
Definition small_buffer : env :=
  Env 8 demo_encrypt demo_salt true (gr_file shadowed) (sgr_file shadowed)
      true true true true true true.
Definition shadowless : env := demo_env false.
Definition gshadow_unwritable : env :=
  Env (Z.to_nat 8192) demo_encrypt demo_salt true
      (gr_file shadowed) (sgr_file shadowed) true true true true true false.
Definition group_unwritable : env :=
  Env (Z.to_nat 8192) demo_encrypt demo_salt true
      (gr_file shadowed) (sgr_file shadowed) true true false true true true.
Definition gshadow_lock_held : env :=
  Env (Z.to_nat 8192) demo_encrypt demo_salt true
      (gr_file shadowed) (sgr_file shadowed) true true true false true true.

(** A stand-in for [getlong] that reads decimal digits. *)
Fixpoint decimal (acc : Z) (l : list ascii) : option Z :=
  match l with
  | [] => Some acc
  | c :: l =>
      let d := (chr c - 48)%Z in
      if (0 <=? d)%Z && (d <=? 9)%Z then decimal (10 * acc + d) l else None
  end.
Definition demo_getlong (numstr : list ascii) (old : Z) : Z * Z :=
  match numstr with
  | [] => (-1, old)%Z
  | _ => match decimal 0 numstr with
         | Some n => (0, n)%Z
         | None => (-1, old)%Z
         end
  end.

(** A build with SHA support, with or without PAM; the caller is root,
    and [pam_acct_mgmt] answers [acct]. *)
Definition demo_platform (pam : bool) (acct : Z) : platform :=
  Platform true pam 2 demo_getlong 0 10 (Some (txt "root")) (fun _ => 0%Z)
           0 acct.

Definition sha_opts : list (Z * list ascii) :=
  [(chr "c", txt "SHA512"); (chr "s", txt "10000")].
Definition sha_flags : flags :=
  Flags true false false true (Some str_SHA512) 10000.
Definition help_opts : list (Z * list ascii) :=
  [(chr "e", []); (chr "h", [])].

(** ** The parser and the lines of the input *)



(** * Properties *)

(** ** C strings *)

Lemma strlen_clean (l rest : list ascii) :
  NUL ∉ l -> strlen (l ++ NUL :: rest) = length l.
Proof.
  induction l as [|c l IH]; intros H; simpl.
  - done.
  - apply not_elem_of_cons in H as [Hc Hl].
    rewrite decide_False by congruence. by rewrite IH.
Qed.

Lemma strlen_clean_end (l : list ascii) : NUL ∉ l -> strlen l = length l.
Proof.
  induction l as [|c l IH]; intros H; simpl; [done|].
  apply not_elem_of_cons in H as [Hc Hl].
  rewrite decide_False by congruence. by rewrite IH.
Qed.

Lemma string_at_0 (l rest : list ascii) :
  NUL ∉ l -> string_at 0 (l ++ NUL :: rest) = l.
Proof.
  intros H. unfold string_at. rewrite drop_0, strlen_clean by done.
  by rewrite take_app_length.
Qed.

Lemma string_at_after (a l rest : list ascii) :
  NUL ∉ l -> string_at (S (length a)) (a ++ NUL :: l ++ NUL :: rest) = l.
Proof.
  intros H. unfold string_at.
  replace (a ++ NUL :: l ++ NUL :: rest)
    with ((a ++ [NUL]) ++ l ++ NUL :: rest) by by rewrite <- app_assoc.
  rewrite drop_app_length' by (rewrite length_app; simpl; lia).
  rewrite strlen_clean by done. by rewrite take_app_length.
Qed.

Lemma strrchr_absent (s : list ascii) (c : ascii) :
  c ∉ s -> strrchr s c = None.
Proof.
  induction s as [|x s IH]; intros H; simpl; [done|].
  apply not_elem_of_cons in H as [Hx Hs].
  case_decide; [done|]. rewrite IH by done.
  by rewrite decide_False by congruence.
Qed.

Lemma strrchr_final (l : list ascii) (c : ascii) :
  NUL ∉ l -> c <> NUL -> strrchr (l ++ [c]) c = Some (length l).
Proof.
  intros Hl Hc. induction l as [|x l IH]; simpl.
  - rewrite decide_False by done. by rewrite decide_True.
  - apply not_elem_of_cons in Hl as [Hx Hl].
    rewrite decide_False by congruence. by rewrite IH.
Qed.

(** A NUL inside the C string ends it: what follows is not searched. *)
Lemma strrchr_cut (l rest : list ascii) (c : ascii) :
  c ∉ l -> strrchr (l ++ NUL :: rest) c = None.
Proof.
  induction l as [|x l IH]; intros H; simpl.
  - done.
  - apply not_elem_of_cons in H as [Hx Hl].
    case_decide; [done|]. rewrite IH by done.
    by rewrite decide_False by congruence.
Qed.


Lemma strchr_first (a rest : list ascii) (c : ascii) :
  NUL ∉ a -> c ∉ a -> c <> NUL -> strchr (a ++ c :: rest) c = Some (length a).
Proof.
  intros Ha Hc Hn. induction a as [|x a IH]; simpl.
  - rewrite decide_False by done. by rewrite decide_True.
  - apply not_elem_of_cons in Ha as [Hx Ha].
    apply not_elem_of_cons in Hc as [Hxc Hc].
    rewrite decide_False by congruence. rewrite decide_False by congruence.
    by rewrite IH.
Qed.

Lemma poke_at_length (l rest : list ascii) (x y : ascii) :
  <[length l := y]> (l ++ x :: rest) = l ++ y :: rest.
Proof.
  rewrite insert_app_r_alt by lia. by rewrite Nat.sub_diag.
Qed.

(** ** The line parser *)

Lemma split_line_too_long (buf : list ascii) :
  newline ∉ buf -> split_line buf = TooLong.
Proof. intros H. unfold split_line. by rewrite strrchr_absent. Qed.

Lemma split_line_nul (l rest : list ascii) :
  newline ∉ l -> split_line (l ++ NUL :: rest) = TooLong.
Proof. intros H. unfold split_line. by rewrite strrchr_cut. Qed.


Lemma split_line_fields (name newpwd : list ascii) :
  NUL ∉ name -> colon ∉ name -> NUL ∉ newpwd ->
  split_line (name ++ colon :: newpwd ++ [newline]) = Fields name newpwd.
Proof.
  intros Hn Hc Hp. unfold split_line.
  replace (name ++ colon :: newpwd ++ [newline])
    with ((name ++ colon :: newpwd) ++ [newline])
    by (by rewrite <- app_assoc).
  rewrite strrchr_final; [| |done].
  2:{ intros [?|[?|?]%elem_of_cons]%elem_of_app; done. }
  rewrite poke_at_length. rewrite <- app_assoc. simpl.
  rewrite strchr_first by done. rewrite poke_at_length.
  rewrite string_at_0 by done.
  by rewrite string_at_after.
Qed.

(** ** Reading with [fgets] *)

Lemma fgets_chars_app (k : nat) (s b r : list ascii) :
  fgets_chars k s = (b, r) -> s = b ++ r.
Proof.
  revert s b r. induction k as [|k IH]; intros s b r H.
  - destruct s; simpl in H; by inversion H.
  - destruct s as [|c s]; simpl in H; [by inversion H|].
    case_decide.
    + by inversion H.
    + destruct (fgets_chars k s) as [b' r'] eqn:Hk.
      inversion H; subst. simpl. f_equal. by apply IH.
Qed.

Lemma fgets_chars_progress (k : nat) (s b r : list ascii) :
  fgets_chars (S k) s = (b, r) -> s <> [] -> length r < length s.
Proof.
  intros H Hs. destruct s as [|c s]; [done|]. simpl in H.
  case_decide.
  - inversion H; subst. simpl. lia.
  - destruct (fgets_chars k s) as [b' r'] eqn:Hk. inversion H; subst.
    apply fgets_chars_app in Hk. subst. rewrite length_cons, length_app. lia.
Qed.

(** A buffer holds a newline only as its last character. *)
Lemma fgets_chars_newline (k : nat) (s b r : list ascii) :
  fgets_chars k s = (b, r) ->
  newline ∉ b \/ exists l, b = l ++ [newline] /\ newline ∉ l.
Proof.
  revert s b r. induction k as [|k IH]; intros s b r H.
  - destruct s; simpl in H; inversion H; left; apply not_elem_of_nil.
  - destruct s as [|c s]; simpl in H.
    { inversion H. left. apply not_elem_of_nil. }
    case_decide.
    + inversion H; subst. right. exists []. split; [done|].
      apply not_elem_of_nil.
    + destruct (fgets_chars k s) as [b' r'] eqn:Hk. inversion H; subst.
      destruct (IH _ _ _ Hk) as [Hn|(l & -> & Hl)].
      * left. apply not_elem_of_cons. split; [congruence|done].
      * right. exists (c :: l). split; [done|].
        apply not_elem_of_cons. split; [congruence|done].
Qed.

Lemma fgets_chars_line (k : nat) (l rest : list ascii) :
  newline ∉ l -> length l < k ->
  fgets_chars k (l ++ newline :: rest) = (l ++ [newline], rest).
Proof.
  revert l. induction k as [|k IH]; intros l Hl Hk; [lia|].
  destruct l as [|c l]; simpl.
  - done.
  - apply not_elem_of_cons in Hl as [Hc Hl].
    rewrite decide_False by congruence.
    rewrite IH; [done|done|simpl in Hk; lia].
Qed.

Lemma fgets_line (n : nat) (l rest : list ascii) :
  newline ∉ l -> S (length l) < n ->
  fgets n (l ++ newline :: rest) = Some (l ++ [newline], rest).
Proof.
  intros Hl Hn. unfold fgets.
  destruct (l ++ newline :: rest) eqn:Heq.
  { by destruct l. }
  rewrite <- Heq. f_equal. apply fgets_chars_line; [done|lia].
Qed.

Lemma fgets_progress (n : nat) (s b r : list ascii) :
  2 <= n -> fgets n s = Some (b, r) -> s = b ++ r /\ length r < length s.
Proof.
  intros Hn H. unfold fgets in H. destruct s as [|c s]; [done|].
  inversion H as [H']. split; [by eapply fgets_chars_app|].
  destruct n as [|[|n]]; [lia|lia|]. simpl Nat.sub in H'.
  by eapply fgets_chars_progress.
Qed.

(** When the stream does not end in a newline, neither does its last
    buffer: it holds no newline at all. *)
Lemma fgets_unterminated (n : nat) (s b : list ascii) :
  fgets n s = Some (b, []) -> last s <> Some newline -> newline ∉ b.
Proof.
  intros H Hlast. unfold fgets in H. destruct s as [|c s]; [done|].
  inversion H as [H'].
  pose proof (fgets_chars_app _ _ _ _ H') as Happ.
  rewrite app_nil_r in Happ.
  destruct (fgets_chars_newline _ _ _ _ H') as [Hn|(l & -> & Hl)]; [done|].
  rewrite Happ, last_snoc in Hlast. done.
Qed.

Lemma fgets_last (n : nat) (s b r : list ascii) :
  fgets n s = Some (b, r) -> r <> [] -> last r = last s.
Proof.
  intros H Hr. unfold fgets in H. destruct s as [|c s]; [done|].
  inversion H as [H']. apply fgets_chars_app in H'. rewrite H'.
  rewrite last_app. destruct r as [|x r]; [done|].
  by destruct (last_is_Some (x :: r)) as [_ [y ->]].
Qed.

(** When every line fits the buffer, [fgets] delivers the lines of the
    input one by one, each with its newline. *)
Lemma records_of_lines (n : nat) (lines : list (list ascii)) (fuel : nat) :
  Forall (fun l => (newline ∉ l) /\ S (length l) < n) lines ->
  length (unlines lines) < fuel ->
  records fuel n (unlines lines) = (fun l => l ++ [newline]) <$> lines.
Proof.
  unfold unlines. intros Hlines. revert fuel.
  induction Hlines as [|l lines [Hnl Hlen] _ IH]; intros fuel Hfuel.
  - by destruct fuel.
  - destruct fuel as [|fuel]; [lia|].
    rewrite fmap_cons, concat_cons in Hfuel |- *.
    rewrite !length_app in Hfuel. change (length [newline]) with 1 in Hfuel.
    cbn [records]. rewrite <- app_assoc. cbn [app].
    rewrite fgets_line by done. rewrite IH by lia. done.
Qed.

(** ** One iteration of the loop *)

Ltac nothing_logged :=
  exists []; rewrite app_nil_r; simpl; repeat split; try done; lia.

Lemma extends_refl (s : state) : extends 0 s s.
Proof. constructor; try done; try nothing_logged. lia. Qed.

Lemma extends_trans (j k : nat) (s1 s2 s3 : state) :
  extends j s1 s2 -> extends k s2 s3 -> extends (j + k) s1 s3.
Proof.
  intros [? ? ? ? ? ? ? ? ? ? (c1 & Hc1 & Hl1) (d1 & Hd1 & Hf1 & He1)]
         [? ? ? ? ? ? ? ? ? ? (c2 & Hc2 & Hl2) (d2 & Hd2 & Hf2 & He2)].
  constructor; try congruence.
  - lia.
  - exists (c1 ++ c2). rewrite Hc2, Hc1, app_assoc, forallb_app, Hl1, Hl2. done.
  - exists (d1 ++ d2).
    rewrite Hd2, Hd1, app_assoc, forallb_app, Hf1, Hf2, length_app.
    repeat split; try done. lia.
Qed.

Lemma extends_trans0 (k : nat) (s1 s2 s3 : state) :
  extends 0 s1 s2 -> extends k s2 s3 -> extends k s1 s3.
Proof. apply (extends_trans 0 k). Qed.

Lemma int_incr_Done (x y : Z) :
  int_incr x = Done y <-> (x < INT_MAX)%Z /\ y = (x + 1)%Z.
Proof.
  unfold int_incr. destruct (Z.ltb_spec x INT_MAX); split.
  - intros [= <-]. done.
  - intros [_ ->]. done.
  - done.
  - lia.
Qed.

Lemma count_error_Done (s s' : state) :
  count_error s = Done s' <->
  (errors s < INT_MAX)%Z /\ s' = set_errors (errors s + 1) s.
Proof.
  unfold count_error, bind, int_incr.
  destruct (Z.ltb_spec (errors s) INT_MAX); split.
  - intros [= <-]. done.
  - intros [_ ->]. done.
  - done.
  - lia.
Qed.

Lemma extends_note (c : call) (s : state) :
  loop_call c = true -> extends 0 s (note c s).
Proof.
  intros Hc. constructor; simpl; try done; [lia| |nothing_logged].
  exists [c]. simpl. by rewrite Hc.
Qed.

Lemma extends_count_error (d : diag) (s s' : state) :
  line_diag d = true -> count_error (say d s) = Done s' -> extends 0 s s'.
Proof.
  intros Hd [_ ->]%count_error_Done.
  constructor; simpl; try done; [lia|nothing_logged|].
  exists [d]. simpl. by rewrite Hd.
Qed.

Lemma db_update_dom {D} (h h' : handle D) name d ok :
  db_update h name d = (ok, h') ->
  storage h' = storage h /\ locked h' = locked h /\
  dom (table h') = dom (table h).
Proof.
  unfold db_update. destruct (table h !! name) eqn:Hl; intros [= <- <-];
    simpl; repeat split; try done.
  rewrite dom_insert_L. apply subseteq_union_1_L, singleton_subseteq_l.
  by apply elem_of_dom_2 in Hl.
Qed.

Lemma extends_gr_update (g : group) (s s' : state) (ok : bool) :
  gr_update g s = (ok, s') -> extends 0 s s'.
Proof.
  unfold gr_update. destruct (db_update _ _ _) as [ok' h] eqn:Hu.
  apply db_update_dom in Hu as (Hu1 & Hu2 & Hu3). intros [= _ <-].
  constructor; simpl; try done; [lia| |nothing_logged].
  by eexists [_].
Qed.

Lemma extends_sgr_update (g : sgrp) (s s' : state) (ok : bool) :
  sgr_update g s = (ok, s') -> extends 0 s s'.
Proof.
  unfold sgr_update. destruct (db_update _ _ _) as [ok' h] eqn:Hu.
  apply db_update_dom in Hu as (Hu1 & Hu2 & Hu3). intros [= _ <-].
  constructor; simpl; try done; [lia| |nothing_logged].
  by eexists [_].
Qed.

Lemma extends_encrypt_password E F newpwd s cp s' :
  encrypt_password E F newpwd s = (cp, s') -> extends 0 s s'.
Proof.
  unfold encrypt_password. intros [= _ <-].
  destruct (md5flg F); constructor; simpl; try done; try lia;
    try nothing_logged;
    exists [MakeSalt; Encrypt newpwd]; by rewrite <- app_assoc.
Qed.

Lemma extends_merge_password name cp s s' :
  merge_password name cp s = Done s' -> extends 0 s s'.
Proof.
  unfold merge_password, gr_locate, sgr_locate.
  pose proof (extends_note (Db group_db (Locate name)) s eq_refl) as H1.
  destruct (group_of name <$> db_locate (gr_db s) name) as [g|].
  2:{ intros H. apply extends_count_error in H; [|done].
      by eapply extends_trans0. }
  assert (exists sg s1,
    (if is_shadow_grp (note (Db group_db (Locate name)) s)
     then (sgrp_of name <$> db_locate
             (sgr_db (note (Db group_db (Locate name)) s)) name,
           note (Db gshadow_db (Locate name))
             (note (Db group_db (Locate name)) s))
     else (None, note (Db group_db (Locate name)) s)) = (sg, s1)
    /\ extends 0 s s1) as (sg & s1 & -> & H2).
  { destruct (is_shadow_grp _); eexists _, _; split; try done.
    eapply extends_trans0; [exact H1|]. by apply extends_note. }
  destruct sg as [sg|].
  - destruct (sgr_update _ s1) as [ok s2] eqn:Hu.
    apply extends_sgr_update in Hu. destruct ok; simpl.
    + intros [= <-]. by eapply extends_trans0.
    + intros H. apply extends_count_error in H; [|done].
      eapply extends_trans0; [|exact H]. by eapply extends_trans0.
  - destruct (gr_update _ s1) as [ok s2] eqn:Hu.
    apply extends_gr_update in Hu. destruct ok; simpl.
    + intros [= <-]. by eapply extends_trans0.
    + intros H. apply extends_count_error in H; [|done].
      eapply extends_trans0; [|exact H]. by eapply extends_trans0.
Qed.

Lemma extends_set_line (s : state) : extends 1 s (set_line (line s + 1) s).
Proof. constructor; simpl; try done; nothing_logged. Qed.

Lemma process_line_Done E F buf s s' :
  process_line E F buf s = Done s' ->
  (line s < INT_MAX)%Z /\ extends 1 s s'.
Proof.
  unfold process_line, bind.
  destruct (int_incr (line s)) as [n| | |] eqn:Hn; try done.
  apply int_incr_Done in Hn as [Hlt ->]. intros H.
  split; [done|].
  pose proof (extends_set_line s) as H0.
  destruct (split_line buf) as [| |name newpwd].
  - apply extends_count_error in H; [|done].
    apply (extends_trans 1 0 _ _ _ H0 H).
  - apply extends_count_error in H; [|done].
    apply (extends_trans 1 0 _ _ _ H0 H).
  - destruct (encrypts F _).
    + destruct (encrypt_password _ _ _ _) as [cp s1] eqn:He.
      apply extends_encrypt_password in He.
      apply extends_merge_password in H.
      apply (extends_trans 1 0 _ _ _ H0). by eapply extends_trans0.
    + apply extends_merge_password in H.
      apply (extends_trans 1 0 _ _ _ H0 H).
Qed.

Lemma process_all_Done E F rs s s' :
  process_all E F rs s = Done s' -> extends (length rs) s s'.
Proof.
  revert s. induction rs as [|r rs IH]; intros s; simpl.
  - intros [= <-]. apply extends_refl.
  - unfold bind. destruct (process_line E F r s) as [s1| | |] eqn:H1; try done.
    intros H. apply process_line_Done in H1 as [_ H1].
    apply IH in H. apply (extends_trans 1 _ _ _ _ H1 H).
Qed.

Lemma read_lines_process_all E F fuel stdin s s' :
  read_lines E F fuel stdin s = Done s' ->
  process_all E F (records fuel (BUFSIZ E) stdin) s = Done s'.
Proof.
  revert stdin s. induction fuel as [|fuel IH]; intros stdin s; simpl; [done|].
  destruct (fgets (BUFSIZ E) stdin) as [[buf rest]|]; [|done].
  simpl. unfold bind.
  destruct (process_line E F buf s) as [s1| | |]; try done. apply IH.
Qed.

(** ** The loop terminates and stays within [int] *)

Lemma merge_password_total name cp s :
  (errors s < INT_MAX)%Z ->
  exists s', merge_password name cp s = Done s' /\
             (errors s' <= errors s + 1)%Z /\ line s' = line s.
Proof.
  intros He.
  unfold merge_password, gr_locate, sgr_locate, gr_update, sgr_update,
    count_error, int_incr, bind.
  repeat (case_match; simplify_eq/=);
    try (eexists; split; [reflexivity|simpl; split; [lia|done]]);
    lia.
Qed.

Lemma process_line_total E F buf s :
  (line s < INT_MAX)%Z -> (errors s <= line s)%Z ->
  exists s', process_line E F buf s = Done s' /\ (errors s' <= line s')%Z.
Proof.
  intros Hl He. unfold process_line, bind, int_incr.
  destruct (Z.ltb_spec (line s) INT_MAX); [|lia].
  destruct (split_line buf) as [| |name newpwd].
  - unfold count_error, bind, int_incr. simpl.
    destruct (Z.ltb_spec (errors s) INT_MAX); [|lia].
    eexists; split; [done|]. simpl. lia.
  - unfold count_error, bind, int_incr. simpl.
    destruct (Z.ltb_spec (errors s) INT_MAX); [|lia].
    eexists; split; [done|]. simpl. lia.
  - destruct (if encrypts F _ then _ else _) as [cp s1] eqn:Hc.
    assert (errors s1 = errors s /\ line s1 = (line s + 1)%Z) as [He1 Hl1].
    { destruct (encrypts F _).
      - unfold encrypt_password in Hc. inversion Hc; subst.
        by destruct (md5flg F).
      - by inversion Hc. }
    destruct (merge_password_total name cp s1) as (s' & -> & He' & Hl'); [lia|].
    eexists; split; [done|]. lia.
Qed.

Lemma read_lines_total E F fuel stdin s :
  2 <= BUFSIZ E -> length stdin < fuel ->
  (line s + Z.of_nat (length stdin) <= INT_MAX)%Z ->
  (errors s <= line s)%Z ->
  exists s', read_lines E F fuel stdin s = Done s'.
Proof.
  intros HB. revert stdin s.
  induction fuel as [|fuel IH]; intros stdin s Hf Hl He; [lia|]. simpl.
  destruct (fgets (BUFSIZ E) stdin) as [[buf rest]|] eqn:Hg; [|by eexists].
  apply fgets_progress in Hg as [_ Hlen]; [|done].
  destruct (process_line_total E F buf s) as (s1 & H1 & He1); [lia|done|].
  rewrite H1. simpl.
  apply process_line_Done in H1 as [_ H1]. apply ext_line in H1.
  apply IH; [lia|lia|done].
Qed.

(** ** The paths through one iteration *)

Lemma process_line_too_long E F buf s :
  split_line buf = TooLong ->
  (line s < INT_MAX)%Z -> (errors s < INT_MAX)%Z ->
  process_line E F buf s =
  Done (set_errors (errors s + 1)
          (say (line_too_long (line s + 1)) (set_line (line s + 1) s))).
Proof.
  intros Hb Hl He. unfold process_line, count_error, bind, int_incr.
  destruct (Z.ltb_spec (line s) INT_MAX); [|lia]. rewrite Hb. simpl.
  destruct (Z.ltb_spec (errors s) INT_MAX); [|lia]. done.
Qed.

Lemma process_line_missing E F buf s :
  split_line buf = MissingPassword ->
  (line s < INT_MAX)%Z -> (errors s < INT_MAX)%Z ->
  process_line E F buf s =
  Done (set_errors (errors s + 1)
          (say (missing_new_password (line s + 1)) (set_line (line s + 1) s))).
Proof.
  intros Hb Hl He. unfold process_line, count_error, bind, int_incr.
  destruct (Z.ltb_spec (line s) INT_MAX); [|lia]. rewrite Hb. simpl.
  destruct (Z.ltb_spec (errors s) INT_MAX); [|lia]. done.
Qed.

(** The encoder step changes neither database, counter nor diagnostic. *)
Lemma encoder_step E F newpwd s cp s1 :
  (if encrypts F s then encrypt_password E F newpwd s else (newpwd, s))
    = (cp, s1) ->
  cp = new_credential E F newpwd s /\
  gr_db s1 = gr_db s /\ sgr_db s1 = sgr_db s /\
  is_shadow_grp s1 = is_shadow_grp s /\
  errors s1 = errors s /\ line s1 = line s /\ stderr s1 = stderr s /\
  salts s1 = salts_after F s /\
  crypt_method s1 = method_after F s /\
  calls s1 = calls s ++ encoder_calls F newpwd s.
Proof.
  unfold new_credential, salts_after, method_after, encoder_calls.
  destruct (encrypts F s); intros H.
  - rewrite H. unfold encrypt_password in H. inversion H; subst; clear H.
    simpl. rewrite <- app_assoc. by destruct (md5flg F).
  - inversion H; subst. by rewrite app_nil_r.
Qed.

Lemma new_credential_set_line E F newpwd n s :
  new_credential E F newpwd (set_line n s) = new_credential E F newpwd s.
Proof.
  unfold new_credential, encrypts, encrypt_password. simpl.
  by destruct (md5flg F).
Qed.

Ltac enter_fields Hb Hc :=
  unfold process_line, bind, int_incr;
  match goal with
  | |- context [(?x <? INT_MAX)%Z] =>
      destruct (Z.ltb_spec x INT_MAX); [|lia]
  end;
  rewrite Hb;
  match goal with
  | |- context [if encrypts ?F ?s then ?a else ?b] =>
      destruct (if encrypts F s then a else b) as [?cp ?s1] eqn:Hc
  end;
  apply encoder_step in Hc;
  rewrite new_credential_set_line in Hc;
  change (salts_after ?F (set_line ?n ?s)) with (salts_after F s) in Hc;
  change (method_after ?F (set_line ?n ?s)) with (method_after F s) in Hc;
  change (encoder_calls ?F ?p (set_line ?n ?s))
    with (encoder_calls F p s) in Hc;
  simpl in Hc.

Lemma process_line_unknown E F buf s name newpwd :
  split_line buf = Fields name newpwd ->
  table (gr_db s) !! name = None ->
  (line s < INT_MAX)%Z -> (errors s < INT_MAX)%Z ->
  exists s', process_line E F buf s = Done s' /\
    gr_db s' = gr_db s /\ sgr_db s' = sgr_db s /\
    errors s' = (errors s + 1)%Z /\ line s' = (line s + 1)%Z /\
    stderr s' = stderr s ++ [group_does_not_exist (line s + 1) name] /\
    calls s' = calls s ++ encoder_calls F newpwd s
                 ++ [Db group_db (Locate name)] /\
    salts s' = salts_after F s /\ crypt_method s' = method_after F s /\
    is_shadow_grp s' = is_shadow_grp s.
Proof.
  intros Hb Hg Hl He. enter_fields Hb Hc.
  destruct Hc as (_ & Hc1 & Hc2 & Hc3 & Hc4 & Hc5 & Hc6 & Hc7 & Hc8 & Hc9).
  unfold merge_password, gr_locate, db_locate. rewrite Hc1, Hg. simpl.
  unfold count_error, bind, int_incr. simpl. rewrite Hc4.
  destruct (Z.ltb_spec (errors s) INT_MAX); [|lia].
  eexists; split; [done|]. simpl.
  by rewrite Hc1, Hc2, Hc3, Hc5, Hc6, Hc7, Hc8, Hc9, <- app_assoc.
Qed.

Lemma process_line_shadow E F buf s name newpwd g sg :
  split_line buf = Fields name newpwd ->
  table (gr_db s) !! name = Some g ->
  is_shadow_grp s = true ->
  table (sgr_db s) !! name = Some sg ->
  (line s < INT_MAX)%Z ->
  exists s', process_line E F buf s = Done s' /\
    gr_db s' = gr_db s /\
    sgr_db s' =
      Handle (storage (sgr_db s))
        (<[name := SgEnt (new_credential E F newpwd s) (se_adm sg) (se_mem sg)]>
           (table (sgr_db s)))
        (locked (sgr_db s)) (isopen (sgr_db s)) true /\
    errors s' = errors s /\ line s' = (line s + 1)%Z /\
    stderr s' = stderr s /\
    calls s' = calls s ++ encoder_calls F newpwd s
                 ++ [Db group_db (Locate name); Db gshadow_db (Locate name);
                     Db gshadow_db (Update name)] /\
    salts s' = salts_after F s /\ crypt_method s' = method_after F s /\
    is_shadow_grp s' = is_shadow_grp s.
Proof.
  intros Hb Hg Hsh Hsg Hl. enter_fields Hb Hc.
  destruct Hc as (-> & Hc1 & Hc2 & Hc3 & Hc4 & Hc5 & Hc6 & Hc7 & Hc8 & Hc9).
  unfold merge_password, gr_locate, sgr_locate, sgr_update, db_update,
    db_locate.
  simpl. rewrite Hc1, Hc3, Hg, Hsh. simpl. rewrite Hc2, Hsg. simpl.
  rewrite Hsg.
  eexists; split; [done|]. simpl.
  by rewrite Hc1, Hc3, Hc4, Hc5, Hc6, Hc7, Hc8, Hc9, <- !app_assoc.
Qed.

Lemma process_line_group E F buf s name newpwd g :
  split_line buf = Fields name newpwd ->
  table (gr_db s) !! name = Some g ->
  (is_shadow_grp s = false \/ table (sgr_db s) !! name = None) ->
  (line s < INT_MAX)%Z ->
  exists s', process_line E F buf s = Done s' /\
    sgr_db s' = sgr_db s /\
    gr_db s' =
      Handle (storage (gr_db s))
        (<[name := GrEnt (new_credential E F newpwd s) (ge_gid g) (ge_mem g)]>
           (table (gr_db s)))
        (locked (gr_db s)) (isopen (gr_db s)) true /\
    errors s' = errors s /\ line s' = (line s + 1)%Z /\
    stderr s' = stderr s /\
    calls s' = calls s ++ encoder_calls F newpwd s
                 ++ [Db group_db (Locate name)]
                 ++ (if is_shadow_grp s then [Db gshadow_db (Locate name)]
                     else [])
                 ++ [Db group_db (Update name)] /\
    salts s' = salts_after F s /\ crypt_method s' = method_after F s /\
    is_shadow_grp s' = is_shadow_grp s.
Proof.
  intros Hb Hg Hsh Hl. enter_fields Hb Hc.
  destruct Hc as (-> & Hc1 & Hc2 & Hc3 & Hc4 & Hc5 & Hc6 & Hc7 & Hc8 & Hc9).
  unfold merge_password, gr_locate, sgr_locate, gr_update, db_update,
    db_locate.
  simpl. rewrite Hc1, Hc3, Hg. simpl.
  destruct (is_shadow_grp s) eqn:Hs; simpl.
  - destruct Hsh as [?|Hsg]; [done|]. rewrite Hc2, Hsg. simpl. rewrite Hc1, Hg.
    eexists; split; [done|]. simpl.
    by rewrite Hc2, Hc3, Hc4, Hc5, Hc6, Hc7, Hc8, Hc9, <- !app_assoc.
  - rewrite Hc1, Hg.
    eexists; split; [done|]. simpl.
    by rewrite Hc2, Hc3, Hc4, Hc5, Hc6, Hc7, Hc8, Hc9, <- !app_assoc.
Qed.

(** ** Opening, closing and failing *)

Lemma open_files_opens E F :
  opens E = true -> open_files E (initial E F) = Done (opened E F).
Proof.
  unfold opens, open_files, initial, opened, opening, gr_lock, gr_open,
    sgr_lock, sgr_open, db_lock, db_open.
  destruct E as [n enc salt sh gf sf gl go gd sl so sd]; simpl.
  destruct gl, go, sh, sl, so; simpl; try done.
Qed.

Lemma open_files_fails E F :
  opens E = false ->
  exists s', open_files E (initial E F) = Exit 1 s' /\
    storage (gr_db s') = gr_file E /\ storage (sgr_db s') = sgr_file E /\
    locked (gr_db s') = false /\ locked (sgr_db s') = false /\
    existsb loop_call (calls s') = false /\
    existsb commit_call (calls s') = false /\
    existsb line_diag (stderr s') = false /\
    errors s' = 0%Z /\
    List.filter lifecycle_call (calls s')
      `prefix_of` opening (sgr_file_present E).
Proof.
  unfold opens, open_files, fail_exit, initial, opening, gr_lock, gr_open,
    sgr_lock, sgr_open, gr_unlock, sgr_unlock, db_lock, db_open, db_unlock.
  destruct E as [n enc salt sh gf sf gl go gd sl so sd]; simpl.
  destruct gl, go, sh, sl, so; simpl; try done; intros _;
    (eexists; split; [reflexivity|]; simpl; repeat split; try done;
     by eexists).
Qed.

Lemma fail_exit_spec (code : Z) (s : state) :
  exists s', @fail_exit state code s = Exit code s' /\
    storage (gr_db s') = storage (gr_db s) /\
    storage (sgr_db s') = storage (sgr_db s) /\
    errors s' = errors s /\
    calls s' = calls s
      ++ (if gr_locked s then [Db group_db Unlock] else [])
      ++ (if sgr_locked s then [Db gshadow_db Unlock] else []) /\
    locked (gr_db s') = locked (gr_db s) && negb (gr_locked s) /\
    locked (sgr_db s') = locked (sgr_db s) && negb (sgr_locked s) /\
    exists ds, stderr s' = stderr s ++ ds /\ existsb line_diag ds = false.
Proof.
  unfold fail_exit, gr_unlock, sgr_unlock, db_unlock.
  destruct s as [[gs gt gl go gd] [ss st sl so sd] sh sL gL cm sa er li se ca].
  simpl.
  destruct gL, sL, gl, sl; simpl;
    (eexists; split; [reflexivity|]; simpl;
     rewrite <- ?app_assoc, ?app_nil_r; simpl;
     repeat split; try done);
    try (by exists []; rewrite app_nil_r);
    try (by eexists [_]);
    try (by eexists [_; _]).
Qed.

Lemma sgr_close_ok E s :
  consistent (sgr_db s) -> sgr_durable E = true ->
  exists h, sgr_close E s = (true, note (Db gshadow_db Close) (set_sgr_db h s))
    /\ storage h = table (sgr_db s) /\ locked h = locked (sgr_db s).
Proof.
  unfold consistent, sgr_close, db_close. intros Hc ->.
  destruct (dirty (sgr_db s)).
  - eexists; split; [reflexivity|]. done.
  - eexists; split; [reflexivity|]. simpl. split; [|done].
    symmetry. by apply Hc.
Qed.

Lemma gr_close_ok E s :
  consistent (gr_db s) -> gr_durable E = true ->
  exists h, gr_close E s = (true, note (Db group_db Close) (set_gr_db h s))
    /\ storage h = table (gr_db s) /\ locked h = locked (gr_db s).
Proof.
  unfold consistent, gr_close, db_close. intros Hc ->.
  destruct (dirty (gr_db s)).
  - eexists; split; [reflexivity|]. done.
  - eexists; split; [reflexivity|]. simpl. split; [|done].
    symmetry. by apply Hc.
Qed.

Lemma gr_unlock_spec s :
  exists ok h, gr_unlock s = (ok, note (Db group_db Unlock) (set_gr_db h s))
    /\ storage h = storage (gr_db s).
Proof.
  unfold gr_unlock, db_unlock. destruct (locked (gr_db s)); by eexists _, _.
Qed.

Lemma sgr_unlock_spec s :
  exists ok h,
    sgr_unlock s = (ok, note (Db gshadow_db Unlock) (set_sgr_db h s))
    /\ storage h = storage (sgr_db s).
Proof.
  unfold sgr_unlock, db_unlock. destruct (locked (sgr_db s)); by eexists _, _.
Qed.

Lemma close_files_commits E s :
  consistent (gr_db s) ->
  (is_shadow_grp s = true -> consistent (sgr_db s)) ->
  gr_durable E = true ->
  (is_shadow_grp s = true -> sgr_durable E = true) ->
  exists s', close_files E s = Done s' /\
    storage (gr_db s') = table (gr_db s) /\
    (is_shadow_grp s = true -> storage (sgr_db s') = table (sgr_db s)) /\
    is_shadow_grp s' = is_shadow_grp s /\
    errors s' = errors s /\
    calls s' = calls s ++ closing (is_shadow_grp s).
Proof.
  intros Hg Hs Hgd Hsd. unfold close_files, closing.
  destruct (is_shadow_grp s) eqn:Hsh.
  - destruct (sgr_close_ok E s (Hs eq_refl) (Hsd eq_refl))
      as (h1 & -> & Hh1 & _).
    simpl negb. cbv iota.
    destruct (sgr_unlock_spec (note (Db gshadow_db Close) (set_sgr_db h1 s)))
      as (ok & h2 & -> & Hh2).
    simpl bind.
    match goal with |- context [gr_close E ?s1] =>
      destruct (gr_close_ok E s1) as (h3 & -> & Hh3 & _); [by destruct ok|done|]
    end.
    simpl negb. cbv iota.
    match goal with |- context [gr_unlock ?s1] =>
      destruct (gr_unlock_spec s1) as (ok' & h4 & -> & Hh4)
    end.
    eexists; split; [reflexivity|].
    destruct ok, ok'; simpl in *; rewrite <- ?app_assoc; simpl;
      (split; [congruence|]; split; [intros _; congruence|]; done).
  - simpl bind.
    destruct (gr_close_ok E s Hg Hgd) as (h3 & -> & Hh3 & _).
    simpl negb. cbv iota.
    match goal with |- context [gr_unlock ?s1] =>
      destruct (gr_unlock_spec s1) as (ok' & h4 & -> & Hh4)
    end.
    eexists; split; [reflexivity|].
    destruct ok'; simpl in *; rewrite <- ?app_assoc; simpl;
      (split; [congruence|]; split; [done|]; done).
Qed.

Lemma close_files_calls E s :
  match close_files E s with
  | Done s' =>
      calls s' = calls s ++ closing (is_shadow_grp s) /\
      exists ds, stderr s' = stderr s ++ ds /\ existsb line_diag ds = false
  | Exit code s' =>
      code = 1%Z /\
      (exists p, List.filter lifecycle_call (calls s')
                 = List.filter lifecycle_call (calls s) ++ p /\
                 p `prefix_of` committing (is_shadow_grp s)) /\
      exists ds, stderr s' = stderr s ++ ds /\ existsb line_diag ds = false
  | _ => False
  end.
Proof.
  unfold close_files, closing, committing, bind, fail_exit, sgr_close,
    sgr_unlock, gr_close, gr_unlock, db_close, db_unlock.
  destruct s as [[gs gt gl go gd] [ss st sl so sd] sh sL gL cm sa er li se ca].
  simpl.
  destruct sh, sd, (sgr_durable E), gd, (gr_durable E), sl, gl, gL, sL;
    simpl; rewrite <- ?app_assoc; simpl;
    (split; [try reflexivity|]);
    try (split; [rewrite !List.filter_app; simpl;
                 rewrite <- ?app_assoc, ?app_nil_r; simpl;
                 eexists; split; [reflexivity|]; by eexists|]);
    first [by exists []; rewrite app_nil_r | by eexists [_]
          | by eexists [_; _] | by eexists [_; _; _]].
Qed.

(** ** The loop as a whole *)

Lemma process_line_bounds E F buf s s1 :
  process_line E F buf s = Done s1 -> (errors s <= line s)%Z ->
  (line s < INT_MAX)%Z /\ (errors s < INT_MAX)%Z /\
  (errors s1 <= line s1)%Z /\ extends 1 s s1.
Proof.
  intros H He. pose proof (process_line_Done _ _ _ _ _ H) as [Hl Hx].
  destruct (process_line_total E F buf s Hl He) as (s' & H' & He').
  rewrite H in H'. inversion H'; subst.
  split; [done|]. split; [lia|]. by split.
Qed.

Lemma process_all_app E F rs1 rs2 s s' :
  process_all E F (rs1 ++ rs2) s = Done s' <->
  exists sa, process_all E F rs1 s = Done sa /\
             process_all E F rs2 sa = Done s'.
Proof.
  revert s. induction rs1 as [|r rs1 IH]; intros s; simpl.
  - split; [by eexists|]. by intros (sa & [= <-] & H).
  - unfold bind. destruct (process_line E F r s) as [s1| | |]; try apply IH;
      split; try done; by intros (? & ? & ?).
Qed.

Lemma process_all_bounds E F rs s s' :
  process_all E F rs s = Done s' -> (errors s <= line s)%Z ->
  (errors s' <= line s')%Z /\ extends (length rs) s s'.
Proof.
  intros H He. split; [|by eapply process_all_Done].
  revert s H He. induction rs as [|r rs IH]; intros s; simpl.
  - by intros [= <-].
  - unfold bind. destruct (process_line E F r s) as [s1| | |] eqn:H1; try done.
    intros H He. apply process_line_bounds in H1 as (_ & _ & He1 & _); [|done].
    by eapply IH.
Qed.

(** A line rejected on its contents costs exactly one error. *)
Lemma rejected_step E F r s s1 :
  dom (table (gr_db s)) = dom (gr_file E) ->
  rejects E r = true -> (errors s <= line s)%Z ->
  process_line E F r s = Done s1 ->
  errors s1 = (errors s + 1)%Z.
Proof.
  intros Hdom Hr He H.
  pose proof (process_line_bounds _ _ _ _ _ H He) as (Hl & He' & _ & _).
  unfold rejects in Hr. destruct (split_line r) as [| |name newpwd] eqn:Hs.
  - rewrite process_line_too_long in H by done. by inversion H.
  - rewrite process_line_missing in H by done. by inversion H.
  - apply bool_decide_eq_true in Hr.
    assert (table (gr_db s) !! name = None) as Hn.
    { apply not_elem_of_dom. rewrite Hdom. by apply not_elem_of_dom. }
    destruct (process_line_unknown E F r s name newpwd Hs Hn Hl He')
      as (s' & H' & _ & _ & He1 & _).
    rewrite H in H'. by inversion H'; subst.
Qed.

Lemma rejected_run E F rs s s' :
  dom (table (gr_db s)) = dom (gr_file E) ->
  existsb (rejects E) rs = true -> (errors s <= line s)%Z ->
  process_all E F rs s = Done s' ->
  (errors s < errors s')%Z.
Proof.
  revert s. induction rs as [|r rs IH]; intros s Hdom Hr He; simpl; [done|].
  unfold bind. destruct (process_line E F r s) as [s1| | |] eqn:H1; try done.
  intros H.
  pose proof (process_line_bounds _ _ _ _ _ H1 He) as (_ & _ & He1 & Hx).
  pose proof (process_all_bounds _ _ _ _ _ H He1) as [_ Hy].
  destruct Hy as [_ _ _ _ _ _ _ _ _ _ _ (ds & _ & _ & Hds)].
  simpl in Hr. apply orb_true_iff in Hr as [Hr|Hr].
  - pose proof (rejected_step _ _ _ _ _ Hdom Hr He H1). lia.
  - assert (errors s <= errors s1)%Z.
    { destruct Hx as [_ _ _ _ _ _ _ _ _ _ _ (ds1 & _ & _ & ->)]. lia. }
    enough (errors s1 < errors s')%Z by lia.
    apply IH; try done. rewrite <- Hdom. apply Hx.
Qed.

(** The method and the credential. *)
Lemma method_inv_encrypts F s :
  method_inv F s -> encrypts F s = negb (bypass F).
Proof.
  unfold method_inv, encrypts, bypass.
  intros [->|(Hm & Hb & ->)].
  - destruct (eflg F); simpl; [done|].
    destruct (crypt_method0 F) as [m|]; simpl; [|done].
    f_equal. apply bool_decide_ext. split; [by intros ->|by intros [= ->]].
  - destruct (eflg F); simpl in *; [done|]. by rewrite Hb.
Qed.

Lemma method_inv_credential E F newpwd s :
  method_inv F s ->
  new_credential E F newpwd s = credential E F (salts s) newpwd.
Proof.
  intros HJ. unfold new_credential, credential.
  rewrite (method_inv_encrypts _ _ HJ).
  destruct (bypass F) eqn:Hb; simpl; [done|].
  unfold encrypt_password. simpl.
  destruct HJ as [HJ|(Hm & _ & HJ)].
  - destruct (md5flg F); simpl; by rewrite ?HJ.
  - by rewrite Hm.
Qed.

Lemma method_inv_after F s s' :
  method_inv F s -> crypt_method s' = method_after F s -> method_inv F s'.
Proof.
  intros HJ H. unfold method_after in H.
  rewrite (method_inv_encrypts _ _ HJ) in H. unfold method_inv in *.
  destruct (bypass F) eqn:Hb; simpl in H.
  - by rewrite H.
  - destruct (md5flg F) eqn:Hm; rewrite H; [by right|done].
Qed.

Lemma salts_after_bypass F s :
  method_inv F s ->
  salts_after F s = if bypass F then salts s else S (salts s).
Proof.
  intros HJ. unfold salts_after. rewrite (method_inv_encrypts _ _ HJ).
  by destruct (bypass F).
Qed.

(** What an accepted line does. *)
Lemma accepted_step E F r s :
  method_inv F s ->
  dom (table (gr_db s)) = dom (gr_file E) ->
  rejects E r = false -> (line s < INT_MAX)%Z ->
  exists name newpwd s',
    split_line r = Fields name newpwd /\
    process_line E F r s = Done s' /\
    errors s' = errors s /\ stderr s' = stderr s /\
    method_inv F s' /\
    salts s' = (if bypass F then salts s else S (salts s)) /\
    staged_password s' name = Some (credential E F (salts s) newpwd) /\
    (forall n, n <> name -> staged_password s' n = staged_password s n) /\
    (consistent (gr_db s) -> consistent (gr_db s')) /\
    (consistent (sgr_db s) -> consistent (sgr_db s')).
Proof.
  intros HJ Hdom Hr Hl. unfold rejects in Hr.
  destruct (split_line r) as [| |name newpwd] eqn:Hs; try done.
  apply bool_decide_eq_false in Hr.
  assert (is_Some (table (gr_db s) !! name)) as [g Hg].
  { apply elem_of_dom. rewrite Hdom. apply elem_of_dom.
    by apply not_eq_None_Some. }
  exists name, newpwd.
  destruct (is_shadow_grp s) eqn:Hsh;
    [destruct (table (sgr_db s) !! name) as [sg|] eqn:Hsg|].
  - destruct (process_line_shadow E F r s name newpwd g sg)
      as (s' & H & Hgr & Hsgr & He & _ & Herr & _ & Hsalt & Hm & Hsh');
      try done.
    exists s'. repeat split; try done.
    + by eapply method_inv_after.
    + by rewrite Hsalt, salts_after_bypass.
    + unfold staged_password, password_of. rewrite Hsh', Hsh, Hsgr. simpl.
      rewrite lookup_insert_eq. simpl. by rewrite method_inv_credential.
    + intros n Hn. unfold staged_password, password_of.
      rewrite Hsh', Hsh, Hsgr, Hgr. simpl. by rewrite lookup_insert_ne.
    + by rewrite Hgr.
    + unfold consistent. by rewrite Hsgr.
  - destruct (process_line_group E F r s name newpwd g)
      as (s' & H & Hsgr & Hgr & He & _ & Herr & _ & Hsalt & Hm & Hsh');
      try done; [by right|].
    exists s'. repeat split; try done.
    + by eapply method_inv_after.
    + by rewrite Hsalt, salts_after_bypass.
    + unfold staged_password, password_of. rewrite Hsh', Hsh, Hsgr, Hgr, Hsg.
      simpl. rewrite lookup_insert_eq. simpl.
      by rewrite method_inv_credential.
    + intros n Hn. unfold staged_password, password_of.
      rewrite Hsh', Hsh, Hsgr, Hgr. simpl. by rewrite lookup_insert_ne.
    + unfold consistent. by rewrite Hgr.
    + by rewrite Hsgr.
  - destruct (process_line_group E F r s name newpwd g)
      as (s' & H & Hsgr & Hgr & He & _ & Herr & _ & Hsalt & Hm & Hsh');
      try done; [by left|].
    exists s'. repeat split; try done.
    + by eapply method_inv_after.
    + by rewrite Hsalt, salts_after_bypass.
    + unfold staged_password, password_of. rewrite Hsh', Hsh, Hgr.
      simpl. rewrite lookup_insert_eq. simpl.
      by rewrite method_inv_credential.
    + intros n Hn. unfold staged_password, password_of.
      rewrite Hsh', Hsh, Hgr. simpl. by rewrite lookup_insert_ne.
    + unfold consistent. by rewrite Hgr.
    + by rewrite Hsgr.
Qed.

Lemma accepted_run E F rs s s' :
  process_all E F rs s = Done s' ->
  method_inv F s ->
  dom (table (gr_db s)) = dom (gr_file E) ->
  existsb (rejects E) rs = false ->
  errors s' = errors s /\ stderr s' = stderr s /\
  method_inv F s' /\
  salts s' = (if bypass F then salts s else salts s + length rs) /\
  (consistent (gr_db s) -> consistent (gr_db s')) /\
  (consistent (sgr_db s) -> consistent (sgr_db s')) /\
  (forall name,
     (forall r pwd, r ∈ rs -> split_line r <> Fields name pwd) ->
     staged_password s' name = staged_password s name).
Proof.
  revert s. induction rs as [|r rs IH]; intros s; simpl.
  - intros [= <-] HJ Hdom _. repeat split; try done.
    destruct (bypass F); lia.
  - unfold bind. destruct (process_line E F r s) as [s1| | |] eqn:H1; try done.
    intros H HJ Hdom Hr. apply orb_false_iff in Hr as [Hr Hrs].
    pose proof (process_line_Done _ _ _ _ _ H1) as [Hl Hx].
    destruct (accepted_step E F r s HJ Hdom Hr Hl)
      as (name & newpwd & s1' & Hs & H1' & He & Hse & HJ1 & Hsa & _ & Hfr
          & Hc1 & Hc2).
    rewrite H1 in H1'. inversion H1'; subst s1'; clear H1'.
    destruct (IH s1 H HJ1) as (He' & Hse' & HJ' & Hsa' & Hc1' & Hc2' & Hfr');
      [by rewrite (ext_gr_dom _ _ _ Hx)|done|].
    repeat split; try congruence; try tauto.
    + rewrite Hsa', Hsa. destruct (bypass F); lia.
    + intros n Hn. rewrite Hfr'.
      * apply Hfr. intros ->. eapply Hn; [|exact Hs]. apply elem_of_cons.
        by left.
      * intros r' pwd' Hin. apply Hn. apply elem_of_cons. by right.
Qed.

Lemma credential_bypass E F k k' newpwd :
  bypass F = true -> credential E F k newpwd = credential E F k' newpwd.
Proof. unfold credential. by intros ->. Qed.

(** The last line that names a group decides its staged password. *)
Lemma last_staged E F rs1 r rs2 s s' name newpwd :
  process_all E F (rs1 ++ r :: rs2) s = Done s' ->
  method_inv F s ->
  dom (table (gr_db s)) = dom (gr_file E) ->
  existsb (rejects E) (rs1 ++ r :: rs2) = false ->
  split_line r = Fields name newpwd ->
  (forall r' pwd', r' ∈ rs2 -> split_line r' <> Fields name pwd') ->
  staged_password s' name
  = Some (credential E F (salts s + length rs1) newpwd).
Proof.
  intros H HJ Hdom Hr Hs Hlast.
  apply process_all_app in H as (sa & Ha & H).
  rewrite existsb_app in Hr. apply orb_false_iff in Hr as [Hr1 Hr2].
  destruct (accepted_run _ _ _ _ _ Ha HJ Hdom Hr1)
    as (_ & _ & HJa & Hsa & _ & _ & _).
  pose proof (process_all_Done _ _ _ _ _ Ha) as Hxa.
  assert (dom (table (gr_db sa)) = dom (gr_file E)) as Hdoma
    by (by rewrite (ext_gr_dom _ _ _ Hxa)).
  simpl in H. unfold bind in H.
  destruct (process_line E F r sa) as [sb| | |] eqn:Hb; try done.
  simpl in Hr2. apply orb_false_iff in Hr2 as [Hr Hr2].
  pose proof (process_line_Done _ _ _ _ _ Hb) as [Hl Hxb].
  destruct (accepted_step E F r sa HJa Hdoma Hr Hl)
    as (name' & newpwd' & sb' & Hs' & Hb' & _ & _ & HJb & _ & Hst & _).
  rewrite Hb in Hb'. inversion Hb'; subst sb'; clear Hb'.
  rewrite Hs in Hs'. inversion Hs'; subst name' newpwd'; clear Hs'.
  destruct (accepted_run _ _ _ _ _ H HJb) as (_ & _ & _ & _ & _ & _ & Hfr);
    [by rewrite (ext_gr_dom _ _ _ Hxb)|done|].
  rewrite Hfr by done. rewrite Hst. f_equal.
  destruct (bypass F) eqn:Hby; [by apply credential_bypass|by rewrite Hsa].
Qed.

(** When the stream does not end in a newline, the last thing the loop
    prints is "line too long", for its last line. *)
Lemma unterminated_run E F fuel stdin s s' :
  read_lines E F fuel stdin s = Done s' ->
  (errors s <= line s)%Z ->
  stdin <> [] -> last stdin <> Some newline ->
  (exists ds, stderr s' = ds ++ [line_too_long (line s')]) /\
  (errors s < errors s')%Z.
Proof.
  revert stdin s. induction fuel as [|fuel IH]; intros stdin s; simpl; [done|].
  destruct (fgets (BUFSIZ E) stdin) as [[buf rest]|] eqn:Hg.
  2:{ by destruct stdin. }
  unfold bind. destruct (process_line E F buf s) as [s1| | |] eqn:H1; try done.
  intros H He Hne Hlast.
  pose proof (process_line_bounds _ _ _ _ _ H1 He) as (Hl & He0 & He1 & Hx).
  destruct rest as [|c rest].
  - pose proof (fgets_unterminated _ _ _ Hg Hlast) as Hnl.
    rewrite process_line_too_long in H1
      by (by try apply split_line_too_long).
    inversion H1; subst s1; clear H1.
    destruct fuel; simpl in H; [done|]. inversion H; subst s'; clear H.
    simpl. split; [by eexists|lia].
  - assert (errors s <= errors s1)%Z.
    { destruct Hx as [_ _ _ _ _ _ _ _ _ _ _ (ds1 & _ & _ & ->)]. lia. }
    destruct (IH (c :: rest) s1 H He1) as [Hd He']; [done| |].
    + by rewrite (fgets_last _ _ _ _ Hg).
    + split; [done|lia].
Qed.

Lemma opened_extends E F s k :
  extends k (opened E F) s ->
  storage (gr_db s) = gr_file E /\ storage (sgr_db s) = sgr_file E /\
  dom (table (gr_db s)) = dom (gr_file E) /\
  is_shadow_grp s = sgr_file_present E /\
  gr_locked s = true /\ sgr_locked s = sgr_file_present E /\
  locked (gr_db s) = true /\ locked (sgr_db s) = sgr_file_present E /\
  line s = Z.of_nat k /\
  exists cs ds,
    calls s = opening (sgr_file_present E) ++ cs /\
    forallb loop_call cs = true /\
    stderr s = ds /\ forallb line_diag ds = true /\
    errors s = Z.of_nat (length ds).
Proof.
  intros [H0 H1 H2 H3 H4 H5 H6 H7 H8 H9 (cs & Hc & Hl) (ds & Hd & Hf & He)].
  simpl in *. repeat split; try done.
  - rewrite H2. by destruct (sgr_file_present E).
  - rewrite H6. by destruct (sgr_file_present E).
  - exists cs, ds. done.
Qed.

(** [main], once [open_files] has succeeded. *)
Lemma main_opens E F stdin :
  2 <= BUFSIZ E -> (Z.of_nat (length stdin) <= INT_MAX)%Z ->
  opens E = true ->
  exists s,
    read_lines E F (S (length stdin)) stdin (opened E F) = Done s /\
    process_all E F (input_records E stdin) (opened E F) = Done s /\
    main E F stdin =
      (if negb (errors s =? 0)%Z then fail_exit 1 (say error_detected s)
       else do s' <- close_files E s; Exit 0 (note FlushCache s')).
Proof.
  intros HB Hlen Hop.
  destruct (read_lines_total E F (S (length stdin)) stdin (opened E F))
    as (s & Hs); try done; simpl; try lia.
  exists s. split; [done|]. split; [by apply read_lines_process_all|].
  unfold main. rewrite open_files_opens by done.
  cbv beta iota delta [bind]. by rewrite Hs.
Qed.

(** ** Calls and diagnostics of a whole run *)

Lemma loop_calls_no_commit (cs : list call) :
  forallb loop_call cs = true -> existsb commit_call cs = false.
Proof.
  induction cs as [|c cs IH]; simpl; [done|].
  intros [Hc Hcs]%andb_true_iff. rewrite IH by done.
  by destruct c as [db []| | |].
Qed.

Lemma loop_calls_lifecycle (cs : list call) :
  forallb loop_call cs = true -> List.filter lifecycle_call cs = cs.
Proof.
  induction cs as [|c cs IH]; simpl; [done|].
  intros [Hc Hcs]%andb_true_iff. rewrite IH by done.
  by destruct c as [db []| | |].
Qed.

Lemma no_line_diag_nil (ds : list diag) :
  forallb line_diag ds = true -> existsb line_diag ds = false -> ds = [].
Proof.
  destruct ds as [|d ds]; simpl; [done|].
  intros [Hd _]%andb_true_iff. by rewrite Hd.
Qed.

Lemma opening_no_commit (sh : bool) : existsb commit_call (opening sh) = false.
Proof. by destruct sh. Qed.

Lemma opening_lifecycle (sh : bool) :
  List.filter lifecycle_call (opening sh) = opening sh.
Proof. by destruct sh. Qed.

(** The run once the loop has ended with errors. *)
Lemma main_aborts E F stdin s :
  opens E = true ->
  read_lines E F (S (length stdin)) stdin (opened E F) = Done s ->
  errors s <> 0%Z ->
  exists final,
    main E F stdin = Exit 1 final /\
    calls final = calls s ++ unlocking (sgr_file_present E) /\
    errors final = errors s /\
    existsb commit_call (calls final) = false /\
    locked (gr_db final) = false /\ locked (sgr_db final) = false /\
    storage (gr_db final) = gr_file E /\
    storage (sgr_db final) = sgr_file E.
Proof.
  intros Hop Hs He.
  pose proof (read_lines_process_all _ _ _ _ _ _ Hs) as Hp.
  apply process_all_Done, opened_extends in Hp
    as (Hgs & Hss & _ & _ & HgL & HsL & Hgl & Hsl & _ & cs & ds & Hc & Hl & _).
  unfold main. rewrite open_files_opens by done.
  cbv beta iota delta [bind]. rewrite Hs.
  destruct (Z.eqb_spec (errors s) 0); [done|]. simpl negb. cbv iota.
  destruct (fail_exit_spec 1 (say error_detected s))
    as (final & -> & H1 & H2 & H3 & H4 & H5 & H6 & _).
  simpl in H1, H2, H3, H4, H5, H6.
  rewrite HgL, HsL in H4. rewrite HgL, Hgl in H5.
  rewrite HsL, Hsl in H6.
  exists final. split; [done|]. split; [done|]. split; [done|].
  split.
  { rewrite H4, Hc, !existsb_app, opening_no_commit,
      loop_calls_no_commit by done. by destruct (sgr_file_present E). }
  split; [done|]. split; [by destruct (sgr_file_present E)|].
  split; congruence.
Qed.

(** * The claims *)

(** Statements about whole runs take [BUFSIZ] to be at least 2 (the C
    standard asks for 256), so that every read makes progress, and the
    input to have at most [INT_MAX] characters, so that [line++] and
    [errors++] stay within [int]; past that C leaves the increments
    undefined.  Statements about one iteration ask the same of the counter
    they increment. *)

(** C1.  For every input stream in which at least one line is rejected
    (its buffer holds no newline, it has no colon, it names a group that
    the group file does not have, or, as any per-line diagnostic on
    standard error shows, its staging was refused), the error counter is
    not zero when the input ends and the run aborts without writing:
    neither [gr_close] nor [sgr_close] is called, the contents of both
    files are those the run started with, and the process exits with
    status 1.  The run is one that reached the loop ([opens]); the bound on
    the length of the input keeps [line++] and [errors++] within [int]. *)
Theorem rejected_line_aborts_run E F stdin :
  2 <= BUFSIZ E -> (Z.of_nat (length stdin) <= INT_MAX)%Z ->
  opens E = true ->
  (existsb (rejects E) (input_records E stdin) = true \/
   exists code f, main E F stdin = Exit code f /\
                  existsb line_diag (stderr f) = true) ->
  exists final,
    main E F stdin = Exit 1 final /\
    errors final <> 0%Z /\
    existsb commit_call (calls final) = false /\
    storage (gr_db final) = gr_file E /\
    storage (sgr_db final) = sgr_file E.
Proof.
  intros HB Hlen Hop Hrej.
  destruct (main_opens E F stdin HB Hlen Hop) as (s & Hs & Hp & Hmain).
  destruct (Z.eqb_spec (errors s) 0) as [He|He].
  - exfalso. destruct Hrej as [Hrej|(code & f & Hf & Hd)].
    + assert (errors (opened E F) < errors s)%Z as Hlt
        by (by apply (rejected_run E F (input_records E stdin))).
      simpl in Hlt. lia.
    + pose proof (process_all_Done _ _ _ _ _ Hp) as Hx.
      apply opened_extends
        in Hx as (_ & _ & _ & _ & _ & _ & _ & _ & _ & cs & ds & _ & _
                  & Hds & Hfd & Hed).
      assert (ds = []) as -> by (destruct ds; [done|simpl in Hed; lia]).
      rewrite Hmain in Hf. simpl in Hf. unfold bind in Hf.
      pose proof (close_files_calls E s) as Hc.
      destruct (close_files E s) as [s'|c s'| |]; try done.
      * destruct Hc as (_ & ds' & Hs' & Hn). inversion Hf; subst.
        simpl in Hd. rewrite Hs', Hds in Hd. simpl in Hd. congruence.
      * destruct Hc as (_ & _ & ds' & Hs' & Hn). inversion Hf; subst.
        rewrite Hs', Hds in Hd. simpl in Hd. congruence.
  - destruct (main_aborts E F stdin s Hop Hs He)
      as (final & Hf & _ & Hef & Hcc & _ & _ & Hg & Hsg).
    exists final. repeat split; try done. congruence.
Qed.

Lemma password_of_shadowless gr sgr sgr' name :
  password_of false gr sgr name = password_of false gr sgr' name.
Proof. done. Qed.

(** C2.  For every input stream all of whose lines are accepted, in a run
    that obtains its locks and whose commits succeed, the run exits with
    status 0 and the committed password of a group is the credential
    derived from the last line that names it: when the input is
    [rs1 ++ r :: rs2], [r] reads [name:newpwd] and no line of [rs2] names
    [name], it is [credential E F (length rs1) newpwd], the password field
    of [r] as is or encrypted with the salt drawn for [r].  Each staging
    call replaces the entry of its key, so earlier lines for the same name
    leave no trace. *)
Theorem last_occurrence_wins E F stdin :
  2 <= BUFSIZ E -> (Z.of_nat (length stdin) <= INT_MAX)%Z ->
  opens E = true -> commits E = true ->
  existsb (rejects E) (input_records E stdin) = false ->
  exists final,
    main E F stdin = Exit 0 final /\
    forall rs1 r rs2 name newpwd,
      input_records E stdin = rs1 ++ r :: rs2 ->
      split_line r = Fields name newpwd ->
      (forall r' pwd', r' ∈ rs2 -> split_line r' <> Fields name pwd') ->
      committed_password final name
      = Some (credential E F (length rs1) newpwd).
Proof.
  intros HB Hlen Hop Hcm Hacc.
  destruct (main_opens E F stdin HB Hlen Hop) as (s & Hs & Hp & Hmain).
  assert (method_inv F (opened E F)) as HJ by (by left).
  destruct (accepted_run E F _ _ _ Hp HJ eq_refl Hacc)
    as (He & _ & _ & _ & Hcg & Hcs & _).
  pose proof (process_all_Done _ _ _ _ _ Hp) as Hx.
  apply opened_extends in Hx as (_ & _ & _ & Hsh & _).
  unfold commits in Hcm. apply andb_true_iff in Hcm as [Hgd Hsd].
  destruct (close_files_commits E s) as (s' & Hc & Hg' & Hs' & Hsh' & _).
  { by apply Hcg. }
  { intros Hshs. apply Hcs. rewrite Hsh in Hshs. simpl. by rewrite Hshs. }
  { done. }
  { intros Hshs. rewrite Hsh in Hshs. rewrite Hshs in Hsd. done. }
  exists (note FlushCache s'). split.
  { rewrite Hmain, He. simpl. by rewrite Hc. }
  intros rs1 r rs2 name newpwd Hrs Hr Hlast.
  rewrite Hrs in Hp, Hacc.
  pose proof (last_staged E F rs1 r rs2 _ _ name newpwd Hp HJ eq_refl
                Hacc Hr Hlast) as Hst.
  simpl in Hst. rewrite <- Hst.
  unfold committed_password, staged_password. simpl.
  rewrite Hsh', Hg'. destruct (is_shadow_grp s) eqn:Hshs.
  - by rewrite Hs'.
  - apply password_of_shadowless.
Qed.

(** C3.  For every accepted line that names a group with an entry in the
    group table, when the shadowed database is in use: if gshadow has an
    entry for the name, the new credential goes into the password field of
    that entry alone (its administrators and members are kept, no other
    entry changes) and the whole group handle, so also the password of the
    group entry, is what it was; if gshadow has no entry for the name, the
    credential goes into the group entry, gshadow is what it was, and in
    both cases no error is counted and nothing is printed. *)
Theorem shadow_entry_takes_the_password E F buf s name newpwd g :
  split_line buf = Fields name newpwd ->
  table (gr_db s) !! name = Some g ->
  is_shadow_grp s = true ->
  (line s < INT_MAX)%Z ->
  exists s',
    process_line E F buf s = Done s' /\
    errors s' = errors s /\ stderr s' = stderr s /\
    match table (sgr_db s) !! name with
    | Some sg =>
        gr_db s' = gr_db s /\
        storage (sgr_db s') = storage (sgr_db s) /\
        table (sgr_db s') =
          <[name := SgEnt (new_credential E F newpwd s)
                          (se_adm sg) (se_mem sg)]> (table (sgr_db s))
    | None =>
        sgr_db s' = sgr_db s /\
        storage (gr_db s') = storage (gr_db s) /\
        table (gr_db s') =
          <[name := GrEnt (new_credential E F newpwd s)
                          (ge_gid g) (ge_mem g)]> (table (gr_db s))
    end.
Proof.
  intros Hb Hg Hsh Hl.
  destruct (table (sgr_db s) !! name) as [sg|] eqn:Hsg.
  - destruct (process_line_shadow E F buf s name newpwd g sg)
      as (s' & H & Hgr & Hsgr & He & _ & Hse & _); try done.
    exists s'. rewrite Hsgr. done.
  - destruct (process_line_group E F buf s name newpwd g)
      as (s' & H & Hsgr & Hgr & He & _ & Hse & _); try done; [by right|].
    exists s'. rewrite Hgr. done.
Qed.

(** An accepted line, whichever table takes it. *)
Lemma accepted_line E F buf s name newpwd g :
  split_line buf = Fields name newpwd ->
  table (gr_db s) !! name = Some g ->
  (line s < INT_MAX)%Z ->
  exists s',
    process_line E F buf s = Done s' /\
    staged_password s' name = Some (new_credential E F newpwd s) /\
    errors s' = errors s /\
    salts s' = salts_after F s /\
    crypt_method s' = method_after F s /\
    exists cs, calls s' = calls s ++ encoder_calls F newpwd s ++ cs /\
               existsb encoder_call cs = false.
Proof.
  intros Hb Hg Hl.
  destruct (is_shadow_grp s) eqn:Hsh;
    [destruct (table (sgr_db s) !! name) as [sg|] eqn:Hsg|].
  - destruct (process_line_shadow E F buf s name newpwd g sg)
      as (s' & H & Hgr & Hsgr & He & _ & _ & Hc & Hsa & Hm & Hsh'); try done.
    exists s'. repeat split; try done; [|by eexists].
    unfold staged_password, password_of. rewrite Hsh', Hsh, Hsgr. simpl.
    by rewrite lookup_insert_eq.
  - destruct (process_line_group E F buf s name newpwd g)
      as (s' & H & Hsgr & Hgr & He & _ & _ & Hc & Hsa & Hm & Hsh');
      try done; [by right|].
    exists s'. repeat split; try done.
    + unfold staged_password, password_of. rewrite Hsh', Hsh, Hsgr, Hgr, Hsg.
      simpl. by rewrite lookup_insert_eq.
    + rewrite Hsh in Hc. by eexists.
  - destruct (process_line_group E F buf s name newpwd g)
      as (s' & H & Hsgr & Hgr & He & _ & _ & Hc & Hsa & Hm & Hsh');
      try done; [by left|].
    exists s'. repeat split; try done.
    + unfold staged_password, password_of. rewrite Hsh', Hsh, Hgr.
      simpl. by rewrite lookup_insert_eq.
    + rewrite Hsh in Hc. by eexists.
Qed.

(** C4.  With [-e] ([eflg]), for every accepted line [name:newpwd]: the
    encoder is not called (neither [crypt_make_salt] nor [pw_encrypt]
    appears among the calls of the iteration, and no salt is drawn) and the
    staged password of [name] is [newpwd], the characters between the
    first colon and the newline, as they are. *)
Theorem encrypted_flag_bypasses_encoder E F s name newpwd g :
  eflg F = true ->
  NUL ∉ name -> colon ∉ name -> NUL ∉ newpwd ->
  table (gr_db s) !! name = Some g ->
  (line s < INT_MAX)%Z ->
  exists s',
    process_line E F (name ++ colon :: newpwd ++ [newline]) s = Done s' /\
    staged_password s' name = Some newpwd /\
    errors s' = errors s /\
    salts s' = salts s /\
    exists cs, calls s' = calls s ++ cs /\ existsb encoder_call cs = false.
Proof.
  intros He Hn Hc Hp Hg Hl.
  destruct (accepted_line E F _ s name newpwd g
              (split_line_fields name newpwd Hn Hc Hp) Hg Hl)
    as (s' & H & Hst & Herr & Hsa & _ & cs & Hcs & Hno).
  assert (encrypts F s = false) as Henc by (unfold encrypts; by rewrite He).
  unfold new_credential in Hst. unfold salts_after in Hsa.
  unfold encoder_calls in Hcs. rewrite Henc in Hst, Hsa, Hcs.
  exists s'. repeat split; try done. by exists cs.
Qed.

(** C10.  When the crypt method is "NONE" and [-e] was not given, the
    encoder is bypassed in the same way: for every accepted line
    [name:newpwd] no salt is drawn, [pw_encrypt] is not called, the staged
    password of [name] is the clear text [newpwd] as it is, and the method
    is still "NONE" for the next line. *)
Theorem none_method_stores_cleartext E F s name newpwd g :
  eflg F = false ->
  crypt_method s = Some str_NONE ->
  NUL ∉ name -> colon ∉ name -> NUL ∉ newpwd ->
  table (gr_db s) !! name = Some g ->
  (line s < INT_MAX)%Z ->
  exists s',
    process_line E F (name ++ colon :: newpwd ++ [newline]) s = Done s' /\
    staged_password s' name = Some newpwd /\
    errors s' = errors s /\
    salts s' = salts s /\
    crypt_method s' = Some str_NONE /\
    exists cs, calls s' = calls s ++ cs /\ existsb encoder_call cs = false.
Proof.
  intros He Hm Hn Hc Hp Hg Hl.
  destruct (accepted_line E F _ s name newpwd g
              (split_line_fields name newpwd Hn Hc Hp) Hg Hl)
    as (s' & H & Hst & Herr & Hsa & Hma & cs & Hcs & Hno).
  assert (encrypts F s = false) as Henc.
  { unfold encrypts. by rewrite He, Hm. }
  unfold new_credential in Hst. unfold salts_after in Hsa.
  unfold method_after in Hma. unfold encoder_calls in Hcs.
  rewrite Henc in Hst, Hsa, Hma, Hcs. simpl in Hma.
  exists s'. repeat split; try done; [congruence|]. by exists cs.
Qed.


(** C7, as the code has it.  On the abort path (the loop has ended and
    [errors] is not zero) the run unlocks the group file first and gshadow
    second (the latter when the shadowed database is present, hence
    locked): these unlocks are all it calls after the loop, it never calls
    [gr_close] or [sgr_close], both files keep their contents, neither is
    left locked, and the process exits with status 1. *)
Theorem abort_unlocks_group_then_gshadow E F stdin s :
  opens E = true ->
  read_lines E F (S (length stdin)) stdin (opened E F) = Done s ->
  errors s <> 0%Z ->
  exists final,
    main E F stdin = Exit 1 final /\
    calls final =
      calls s ++ [Db group_db Unlock]
              ++ (if sgr_file_present E then [Db gshadow_db Unlock] else []) /\
    existsb commit_call (calls final) = false /\
    locked (gr_db final) = false /\ locked (sgr_db final) = false /\
    storage (gr_db final) = gr_file E /\
    storage (sgr_db final) = sgr_file E.
Proof.
  intros Hop Hs He.
  destruct (main_aborts E F stdin s Hop Hs He)
    as (final & Hf & Hc & _ & Hcc & Hgl & Hsl & Hg & Hsg).
  by exists final.
Qed.

(** C9.  For every input stream that does not end in a newline, the run
    exits with status 1 without a commit: no [gr_close] or [sgr_close] is
    called and both files keep their contents.  When the run reached the
    loop, the last line is reported as "line too long" under its number,
    the count of the lines read, whatever its length, and [errors] is not
    zero at the end. *)
Theorem unterminated_last_line_aborts E F stdin :
  2 <= BUFSIZ E -> (Z.of_nat (length stdin) <= INT_MAX)%Z ->
  stdin <> [] -> last stdin <> Some newline ->
  exists final,
    main E F stdin = Exit 1 final /\
    existsb commit_call (calls final) = false /\
    storage (gr_db final) = gr_file E /\
    storage (sgr_db final) = sgr_file E /\
    (opens E = true ->
     errors final <> 0%Z /\
     line_too_long (Z.of_nat (length (input_records E stdin)))
       ∈ stderr final).
Proof.
  intros HB Hlen Hne Hlast.
  destruct (opens E) eqn:Hop.
  - destruct (main_opens E F stdin HB Hlen Hop) as (s & Hs & Hp & _).
    destruct (unterminated_run E F _ _ _ _ Hs) as [(ds & Hds) He];
      try done.
    simpl in He.
    destruct (main_aborts E F stdin s Hop Hs)
      as (final & Hf & _ & Hef & Hcc & _ & _ & Hg & Hsg); [lia|].
    exists final. repeat split; try done; [lia|].
    pose proof (process_all_Done _ _ _ _ _ Hp) as Hx.
    assert (line s = Z.of_nat (length (input_records E stdin))) as Hline
      by (rewrite (ext_line _ _ _ Hx); simpl; lia).
    rewrite <- Hline.
    unfold main in Hf. rewrite open_files_opens in Hf by done.
    cbv beta iota delta [bind] in Hf. rewrite Hs in Hf.
    destruct (Z.eqb_spec (errors s) 0); [lia|]. simpl negb in Hf.
    cbv iota in Hf.
    destruct (fail_exit_spec 1 (say error_detected s))
      as (final' & Hf' & _ & _ & _ & _ & _ & _ & ds' & Hd' & _).
    rewrite Hf' in Hf. inversion Hf; subst final'; clear Hf.
    rewrite Hd'. simpl. rewrite Hds.
    apply elem_of_app. left. apply elem_of_app. left. apply elem_of_app.
    right. apply elem_of_cons. by left.
  - destruct (open_files_fails E F Hop)
      as (s' & H & Hg & Hsg & _ & _ & _ & Hcc & _).
    exists s'. unfold main. rewrite H. done.
Qed.

(** * The claims on concrete runs *)

(** C7 as claimed (gshadow unlocked first, the group file second) fails on
    the one-line input [nocolon] with gshadow present: the run aborts and
    calls [gr_unlock] before [sgr_unlock]. *)
Lemma gshadow_is_unlocked_second :
  ~ unlocks_gshadow_first shadowed plain_flags (ln "nocolon").
Proof.
  intros H. unfold unlocks_gshadow_first in H.
  destruct (read_lines shadowed plain_flags
              (S (length (ln "nocolon"))) (ln "nocolon")
              (opened shadowed plain_flags)) as [s| | |] eqn:Hs;
    try (vm_compute in Hs; discriminate).
  pose proof Hs as Hs0. vm_compute in Hs0. inversion Hs0; subst s; clear Hs0.
  destruct (H _ Hs) as (final & Hf & Hc); [vm_compute; discriminate|].
  vm_compute in Hf. inversion Hf; subst final; clear Hf.
  vm_compute in Hc. discriminate.
Qed.

Lemma rejected_line_aborts_run_witness :
  2 <= BUFSIZ shadowed /\
  (Z.of_nat (length mixed_input) <= INT_MAX)%Z /\
  opens shadowed = true /\
  existsb (rejects shadowed)
    (input_records shadowed mixed_input) = true /\
  exists final,
    main shadowed plain_flags mixed_input = Exit 1 final /\
    errors final <> 0%Z /\
    existsb commit_call (calls final) = false /\
    storage (gr_db final) = gr_file shadowed /\
    storage (sgr_db final) = sgr_file shadowed.
Proof.
  assert (2 <= BUFSIZ shadowed) as HB by (simpl; lia).
  assert (Z.of_nat (length mixed_input) <= INT_MAX)%Z as Hlen
    by (vm_compute; discriminate).
  assert (existsb (rejects shadowed)
            (input_records shadowed mixed_input) = true) as Hrej
    by (vm_compute; reflexivity).
  repeat (split; [done|]).
  apply (rejected_line_aborts_run shadowed plain_flags mixed_input
           HB Hlen eq_refl (or_introl Hrej)).
Defined.

Lemma last_occurrence_wins_witness :
  2 <= BUFSIZ shadowed /\
  (Z.of_nat (length twice_g1) <= INT_MAX)%Z /\
  opens shadowed = true /\ commits shadowed = true /\
  existsb (rejects shadowed) (input_records shadowed twice_g1) = false /\
  exists final,
    main shadowed plain_flags twice_g1 = Exit 0 final /\
    committed_password final (txt "g1")
    = Some (credential shadowed plain_flags 1 (txt "pass2")).
Proof.
  assert (2 <= BUFSIZ shadowed) as HB by (simpl; lia).
  assert (Z.of_nat (length twice_g1) <= INT_MAX)%Z as Hlen
    by (vm_compute; discriminate).
  assert (existsb (rejects shadowed) (input_records shadowed twice_g1)
          = false) as Hacc by (vm_compute; reflexivity).
  repeat (split; [done|]).
  destruct (last_occurrence_wins shadowed plain_flags twice_g1
              HB Hlen eq_refl eq_refl Hacc) as (final & Hf & Hlast).
  exists final. split; [exact Hf|].
  apply (Hlast [ln "g1:pass1"] (ln "g1:pass2") [] (txt "g1") (txt "pass2")).
  - vm_compute; reflexivity.
  - vm_compute; reflexivity.
  - intros r' pwd' Hin. apply elem_of_nil in Hin. destruct Hin.
Defined.

Lemma shadow_entry_takes_the_password_witness :
  split_line (ln "g1:pass1") = Fields (txt "g1") (txt "pass1") /\
  table (gr_db loop_entry) !! txt "g1" = Some g1_entry /\
  is_shadow_grp loop_entry = true /\
  (line loop_entry < INT_MAX)%Z /\
  exists s',
    process_line shadowed plain_flags (ln "g1:pass1") loop_entry = Done s' /\
    errors s' = errors loop_entry /\ stderr s' = stderr loop_entry /\
    match table (sgr_db loop_entry) !! txt "g1" with
    | Some sg =>
        gr_db s' = gr_db loop_entry /\
        storage (sgr_db s') = storage (sgr_db loop_entry) /\
        table (sgr_db s') =
          <[txt "g1" :=
              SgEnt (new_credential shadowed plain_flags (txt "pass1")
                       loop_entry) (se_adm sg) (se_mem sg)]>
            (table (sgr_db loop_entry))
    | None =>
        sgr_db s' = sgr_db loop_entry /\
        storage (gr_db s') = storage (gr_db loop_entry) /\
        table (gr_db s') =
          <[txt "g1" :=
              GrEnt (new_credential shadowed plain_flags (txt "pass1")
                       loop_entry) (ge_gid g1_entry) (ge_mem g1_entry)]>
            (table (gr_db loop_entry))
    end.
Proof.
  assert (split_line (ln "g1:pass1") = Fields (txt "g1") (txt "pass1"))
    as Hb by (vm_compute; reflexivity).
  assert (table (gr_db loop_entry) !! txt "g1" = Some g1_entry) as Hg
    by (vm_compute; reflexivity).
  assert (line loop_entry < INT_MAX)%Z as Hl by (vm_compute; reflexivity).
  repeat (split; [done|]).
  apply (shadow_entry_takes_the_password shadowed plain_flags
           (ln "g1:pass1") loop_entry (txt "g1") (txt "pass1") g1_entry
           Hb Hg eq_refl Hl).
Defined.

Lemma encrypted_flag_bypasses_encoder_witness :
  eflg e_flags = true /\
  (NUL ∉ txt "staff") /\ (colon ∉ txt "staff") /\ (NUL ∉ txt "$1$ab:cd") /\
  table (gr_db loop_entry) !! txt "staff" = Some staff_entry /\
  (line loop_entry < INT_MAX)%Z /\
  exists s',
    process_line shadowed e_flags
      (txt "staff" ++ colon :: txt "$1$ab:cd" ++ [newline]) loop_entry
    = Done s' /\
    staged_password s' (txt "staff") = Some (txt "$1$ab:cd") /\
    errors s' = errors loop_entry /\
    salts s' = salts loop_entry /\
    exists cs, calls s' = calls loop_entry ++ cs /\
               existsb encoder_call cs = false.
Proof.
  assert (NUL ∉ txt "staff") as Hn
    by compute_done.
  assert (colon ∉ txt "staff") as Hc
    by compute_done.
  assert (NUL ∉ txt "$1$ab:cd") as Hp
    by compute_done.
  assert (table (gr_db loop_entry) !! txt "staff" = Some staff_entry) as Hg
    by (vm_compute; reflexivity).
  assert (line loop_entry < INT_MAX)%Z as Hl by (vm_compute; reflexivity).
  repeat (split; [done|]).
  apply (encrypted_flag_bypasses_encoder shadowed e_flags loop_entry
           (txt "staff") (txt "$1$ab:cd") staff_entry eq_refl Hn Hc Hp Hg Hl).
Defined.

Lemma none_method_stores_cleartext_witness :
  eflg none_flags = false /\
  crypt_method (opened shadowed none_flags) = Some str_NONE /\
  (NUL ∉ txt "staff") /\ (colon ∉ txt "staff") /\ (NUL ∉ txt "secret") /\
  table (gr_db (opened shadowed none_flags)) !! txt "staff"
  = Some staff_entry /\
  (line (opened shadowed none_flags) < INT_MAX)%Z /\
  exists s',
    process_line shadowed none_flags
      (txt "staff" ++ colon :: txt "secret" ++ [newline])
      (opened shadowed none_flags)
    = Done s' /\
    staged_password s' (txt "staff") = Some (txt "secret") /\
    errors s' = errors (opened shadowed none_flags) /\
    salts s' = salts (opened shadowed none_flags) /\
    crypt_method s' = Some str_NONE /\
    exists cs, calls s' = calls (opened shadowed none_flags) ++ cs /\
               existsb encoder_call cs = false.
Proof.
  assert (NUL ∉ txt "staff") as Hn
    by compute_done.
  assert (colon ∉ txt "staff") as Hc
    by compute_done.
  assert (NUL ∉ txt "secret") as Hp
    by compute_done.
  assert (table (gr_db (opened shadowed none_flags)) !! txt "staff"
          = Some staff_entry) as Hg by (vm_compute; reflexivity).
  assert (line (opened shadowed none_flags) < INT_MAX)%Z as Hl
    by (vm_compute; reflexivity).
  repeat (split; [done|]).
  apply (none_method_stores_cleartext shadowed none_flags
           (opened shadowed none_flags) (txt "staff") (txt "secret")
           staff_entry eq_refl eq_refl Hn Hc Hp Hg Hl).
Defined.


Lemma abort_unlocks_group_then_gshadow_witness :
  opens shadowed = true /\
  read_lines shadowed plain_flags (S (length mixed_input)) mixed_input
    (opened shadowed plain_flags)
  = Done (after_loop shadowed plain_flags mixed_input) /\
  errors (after_loop shadowed plain_flags mixed_input) <> 0%Z /\
  exists final,
    main shadowed plain_flags mixed_input = Exit 1 final /\
    calls final =
      calls (after_loop shadowed plain_flags mixed_input)
        ++ [Db group_db Unlock]
        ++ (if sgr_file_present shadowed then [Db gshadow_db Unlock]
            else []) /\
    existsb commit_call (calls final) = false /\
    locked (gr_db final) = false /\ locked (sgr_db final) = false /\
    storage (gr_db final) = gr_file shadowed /\
    storage (sgr_db final) = sgr_file shadowed.
Proof.
  assert (read_lines shadowed plain_flags (S (length mixed_input))
            mixed_input (opened shadowed plain_flags)
          = Done (after_loop shadowed plain_flags mixed_input)) as Hs
    by (vm_compute; reflexivity).
  assert (errors (after_loop shadowed plain_flags mixed_input) <> 0%Z) as He
    by (vm_compute; discriminate).
  repeat (split; [done|]).
  apply (abort_unlocks_group_then_gshadow shadowed plain_flags mixed_input
           (after_loop shadowed plain_flags mixed_input) eq_refl Hs He).
Defined.

Lemma unterminated_last_line_aborts_witness :
  2 <= BUFSIZ shadowed /\
  (Z.of_nat (length unterminated_input) <= INT_MAX)%Z /\
  unterminated_input <> [] /\
  last unterminated_input <> Some newline /\
  exists final,
    main shadowed plain_flags unterminated_input = Exit 1 final /\
    existsb commit_call (calls final) = false /\
    storage (gr_db final) = gr_file shadowed /\
    storage (sgr_db final) = sgr_file shadowed /\
    (opens shadowed = true ->
     errors final <> 0%Z /\
     line_too_long
       (Z.of_nat (length (input_records shadowed unterminated_input)))
       ∈ stderr final).
Proof.
  assert (2 <= BUFSIZ shadowed) as HB by (simpl; lia).
  assert (Z.of_nat (length unterminated_input) <= INT_MAX)%Z as Hlen
    by (vm_compute; discriminate).
  assert (unterminated_input <> []) as Hne by (vm_compute; discriminate).
  assert (last unterminated_input <> Some newline) as Hlast
    by (vm_compute; discriminate).
  repeat (split; [done|]).
  apply (unterminated_last_line_aborts shadowed plain_flags
           unterminated_input HB Hlen Hne Hlast).
Defined.

(** ** Runs evaluated *)

(** [g1:pass1], [g1:pass2] with [g1] in both files: status 0, and gshadow
    holds the credential derived from [pass2]; the group file keeps its
    [x]. *)
Example twice_g1_keeps_pass2 :
  match main shadowed plain_flags twice_g1 with
  | Exit code final =>
      code = 0%Z /\
      committed_password final (txt "g1") = Some (txt "DES.$pass2") /\
      ge_passwd <$> storage (gr_db final) !! txt "g1" = Some (txt "x")
  | _ => False
  end.
Proof. vm_compute. repeat split. Qed.

(** A lock held by another process: status 1, one call, nothing locked. *)
Example contended_group_lock :
  match main (Env 8 demo_encrypt demo_salt true ∅ ∅
                  false true true true true true) plain_flags twice_g1 with
  | Exit code final =>
      code = 1%Z /\ calls final = [Db group_db Lock] /\
      stderr final = [cannot_lock group_db] /\
      locked (gr_db final) = false
  | _ => False
  end.
Proof. vm_compute. repeat split. Qed.

(** Colons after the first belong to the password. *)
Example embedded_colons :
  split_line (ln "staff:a:b") = Fields (txt "staff") (txt "a:b").
Proof. reflexivity. Qed.

(** A line with a NUL before its newline is "too long". *)
Example nul_in_line :
  split_line (txt "g1:pa" ++ NUL :: txt "ss" ++ [newline]) = TooLong.
Proof. reflexivity. Qed.

(** With a buffer of 8, the 9 characters of [g1:pass1] and its newline
    arrive in two pieces, the first without a newline. *)
Example long_line_is_cut :
  records 10 8 (ln "g1:pass1") = [txt "g1:pass"; ln "1"].
Proof. reflexivity. Qed.

(** * Further properties *)

(** ** What the parser accepts, read backwards *)

Lemma strrchr_Some_inv (s : list ascii) (c : ascii) (i : nat) :
  c <> NUL -> strrchr s c = Some i ->
  exists l rest, s = l ++ c :: rest /\ length l = i /\ (NUL ∉ l).
Proof.
  intros Hc. revert i. induction s as [|x s IH]; intros i; simpl; [done|].
  case_decide as Hx; [done|].
  destruct (strrchr s c) as [i'|] eqn:Hs.
  - intros [= <-]. destruct (IH i' eq_refl) as (l & rest & -> & Hl & Hn).
    exists (x :: l), rest. simpl. repeat split; [by rewrite Hl|].
    apply not_elem_of_cons. split; [congruence|done].
  - case_decide as Hxc; [|done]. intros [= <-]. subst x.
    exists [], s. repeat split. apply not_elem_of_nil.
Qed.

Lemma strrchr_None_inv (s : list ascii) (c : ascii) :
  strrchr s c = None -> (c ∉ s) \/ (NUL ∈ s).
Proof.
  induction s as [|x s IH]; simpl.
  - intros _. left. apply not_elem_of_nil.
  - case_decide as Hx.
    + intros _. right. subst x. apply elem_of_cons. by left.
    + destruct (strrchr s c) as [i'|] eqn:Hs; [done|].
      case_decide as Hxc; [done|]. intros _.
      destruct (IH eq_refl) as [Hn|Hn].
      * left. apply not_elem_of_cons. split; [congruence|done].
      * right. apply elem_of_cons. by right.
Qed.

Lemma strchr_clean_Some (l rest : list ascii) (c : ascii) (j : nat) :
  NUL ∉ l -> strchr (l ++ NUL :: rest) c = Some j ->
  exists a b, l = a ++ c :: b /\ length a = j /\ (c ∉ a).
Proof.
  revert j. induction l as [|x l IH]; intros j Hn; simpl; [done|].
  apply not_elem_of_cons in Hn as [Hx Hn].
  rewrite decide_False by congruence.
  case_decide as Hxc.
  - intros [= <-]. subst x. exists [], l. repeat split. apply not_elem_of_nil.
  - destruct (strchr (l ++ NUL :: rest) c) as [j'|] eqn:Hs; [|done].
    simpl. intros [= <-].
    destruct (IH j' Hn eq_refl) as (a & b & -> & Ha & Hc).
    exists (x :: a), b. simpl. repeat split; [by rewrite Ha|].
    apply not_elem_of_cons. split; [congruence|done].
Qed.

Lemma strchr_clean_None (l rest : list ascii) (c : ascii) :
  NUL ∉ l -> strchr (l ++ NUL :: rest) c = None -> c ∉ l.
Proof.
  induction l as [|x l IH]; intros Hn; simpl.
  - intros _. apply not_elem_of_nil.
  - apply not_elem_of_cons in Hn as [Hx Hn].
    rewrite decide_False by congruence.
    case_decide as Hxc; [done|].
    destruct (strchr (l ++ NUL :: rest) c) as [j'|] eqn:Hs; [done|].
    intros _. apply not_elem_of_cons. split; [congruence|by apply IH].
Qed.

Lemma snoc_unique (a b r : list ascii) (x : ascii) :
  a ++ x :: r = b ++ [x] -> x ∉ b -> r = [] /\ a = b.
Proof.
  revert b. induction a as [|y a IH]; intros b; simpl.
  - destruct b as [|z b]; simpl.
    + by intros [= ->].
    + intros [= <- _] Hx. exfalso. apply Hx. apply elem_of_cons. by left.
  - destruct b as [|z b]; simpl.
    + intros [= -> H]. by destruct a.
    + intros [= <- H] Hx. apply not_elem_of_cons in Hx as [_ Hx].
      destruct (IH b H Hx) as [-> ->]. done.
Qed.

Lemma split_line_Fields_inv (buf name newpwd : list ascii) :
  split_line buf = Fields name newpwd ->
  exists rest,
    buf = name ++ colon :: newpwd ++ newline :: rest /\
    (NUL ∉ name) /\ (colon ∉ name) /\ (NUL ∉ newpwd).
Proof.
  unfold split_line.
  destruct (strrchr buf newline) as [i|] eqn:Hi; [|done].
  apply strrchr_Some_inv in Hi as (l & rest & -> & <- & Hn); [|done].
  rewrite poke_at_length.
  destruct (strchr (l ++ NUL :: rest) colon) as [j|] eqn:Hj; [|done].
  apply strchr_clean_Some in Hj as (a & b & -> & <- & Hc); [|done].
  apply not_elem_of_app in Hn as [Ha Hb].
  apply not_elem_of_cons in Hb as [_ Hb].
  rewrite <- app_assoc. simpl. rewrite poke_at_length.
  rewrite string_at_0 by done. rewrite string_at_after by done.
  intros [= <- <-]. exists rest. by rewrite <- app_assoc.
Qed.

Lemma split_line_Missing_inv (buf : list ascii) :
  split_line buf = MissingPassword ->
  exists l rest, buf = l ++ newline :: rest /\ (NUL ∉ l) /\ (colon ∉ l).
Proof.
  unfold split_line.
  destruct (strrchr buf newline) as [i|] eqn:Hi; [|done].
  apply strrchr_Some_inv in Hi as (l & rest & -> & <- & Hn); [|done].
  rewrite poke_at_length.
  destruct (strchr (l ++ NUL :: rest) colon) as [j|] eqn:Hj; [done|].
  intros _. exists l, rest. repeat split; [done|].
  by eapply strchr_clean_None.
Qed.

Lemma split_line_TooLong_inv (buf : list ascii) :
  split_line buf = TooLong -> (newline ∉ buf) \/ (NUL ∈ buf).
Proof.
  unfold split_line.
  destruct (strrchr buf newline) as [i|] eqn:Hi.
  - by destruct (strchr _ colon).
  - intros _. by apply strrchr_None_inv.
Qed.

Lemma fgets_buffer_shape (n : nat) (stdin buf rest : list ascii) :
  fgets n stdin = Some (buf, rest) ->
  (newline ∉ buf) \/ exists l, buf = l ++ [newline] /\ (newline ∉ l).
Proof.
  unfold fgets. destruct stdin as [|c stdin]; [done|]. intros [= H].
  by eapply fgets_chars_newline.
Qed.

(** X1.  The parser neither trims nor drops anything: for every buffer
    that [fgets] delivers, if the parser yields [name] and [newpwd] the
    buffer is exactly [name], a colon, [newpwd] and the newline, with no
    colon and no NUL in [name] and no NUL in [newpwd]; if it reports a
    missing password the buffer is a line without NUL and without colon;
    if it reports the line as too long the buffer has no newline or has a
    NUL. *)
Theorem parser_is_exact (n : nat) (stdin buf rest : list ascii) :
  fgets n stdin = Some (buf, rest) ->
  match split_line buf with
  | Fields name newpwd =>
      buf = name ++ colon :: newpwd ++ [newline] /\
      (NUL ∉ name) /\ (colon ∉ name) /\ (NUL ∉ newpwd)
  | MissingPassword =>
      exists l, buf = l ++ [newline] /\ (NUL ∉ l) /\ (colon ∉ l)
  | TooLong => (newline ∉ buf) \/ (NUL ∈ buf)
  end.
Proof.
  intros Hg. apply fgets_buffer_shape in Hg.
  destruct (split_line buf) as [| |name newpwd] eqn:Hs.
  - by apply split_line_TooLong_inv.
  - apply split_line_Missing_inv in Hs as (l & r & -> & Hn & Hc).
    destruct Hg as [Hg|(l0 & Hg & Hl0)].
    + exfalso. apply Hg. apply elem_of_app. right. apply elem_of_cons.
      by left.
    + apply snoc_unique in Hg as [-> ->]; [|done]. by exists l0.
  - apply split_line_Fields_inv in Hs as (r & -> & Hn & Hc & Hp).
    destruct Hg as [Hg|(l0 & Hg & Hl0)].
    + exfalso. apply Hg. apply elem_of_app. right. apply elem_of_cons.
      right. apply elem_of_app. right. apply elem_of_cons. by left.
    + replace (name ++ colon :: newpwd ++ newline :: r)
        with ((name ++ colon :: newpwd) ++ newline :: r) in Hg
        by (by rewrite <- app_assoc).
      apply snoc_unique in Hg as [-> _]; [|done]. done.
Qed.

(** ** Lines that do not fit, lines with a NUL *)

Lemma fgets_chars_long (k : nat) (l rest : list ascii) :
  newline ∉ l -> k <= length l ->
  fgets_chars k (l ++ rest) = (take k l, drop k l ++ rest).
Proof.
  revert l. induction k as [|k IH]; intros l Hl Hk.
  - rewrite take_0, drop_0. by destruct (l ++ rest).
  - destruct l as [|c l]; simpl in Hk; [lia|].
    apply not_elem_of_cons in Hl as [Hc Hl]. simpl.
    rewrite decide_False by congruence.
    rewrite IH by (done || lia). done.
Qed.

(** X2.  A line of the input with [BUFSIZ - 1] characters or more before
    its newline is not read as one line: the loop takes its first
    [BUFSIZ - 1] characters, reports them as "line too long" under the
    next line number and counts an error, then goes on reading where it
    stopped, so that the remainder of the same line, with its newline, is
    taken as the line after it. *)
Theorem overlong_line_is_cut E F (l rest : list ascii) s fuel :
  2 <= BUFSIZ E ->
  newline ∉ l -> BUFSIZ E - 1 <= length l ->
  (line s < INT_MAX)%Z -> (errors s < INT_MAX)%Z ->
  fgets (BUFSIZ E) (l ++ newline :: rest)
  = Some (take (BUFSIZ E - 1) l, drop (BUFSIZ E - 1) l ++ newline :: rest) /\
  read_lines E F (S fuel) (l ++ newline :: rest) s
  = read_lines E F fuel (drop (BUFSIZ E - 1) l ++ newline :: rest)
      (set_errors (errors s + 1)
         (say (line_too_long (line s + 1)) (set_line (line s + 1) s))).
Proof.
  intros HB Hnl Hlen Hl He.
  assert (fgets (BUFSIZ E) (l ++ newline :: rest)
          = Some (take (BUFSIZ E - 1) l,
                  drop (BUFSIZ E - 1) l ++ newline :: rest)) as Hg.
  { unfold fgets. destruct (l ++ newline :: rest) eqn:Heq.
    { by destruct l. }
    rewrite <- Heq. by rewrite fgets_chars_long. }
  split; [done|]. simpl. rewrite Hg.
  rewrite process_line_too_long; [done| |done|done].
  apply split_line_too_long. intros Hin. apply Hnl.
  rewrite <- (take_drop (BUFSIZ E - 1) l). apply elem_of_app. by left.
Qed.

(** X3.  A NUL ends the string that [strrchr] searches: a buffer with a
    NUL before its first newline is reported as "line too long", whatever
    follows the NUL, and costs one error; neither handle is touched and the
    encoder is not called. *)
Theorem nul_makes_line_too_long E F (l rest : list ascii) s :
  newline ∉ l ->
  (line s < INT_MAX)%Z -> (errors s < INT_MAX)%Z ->
  exists s',
    process_line E F (l ++ NUL :: rest) s = Done s' /\
    stderr s' = stderr s ++ [line_too_long (line s + 1)] /\
    errors s' = (errors s + 1)%Z /\
    gr_db s' = gr_db s /\ sgr_db s' = sgr_db s /\
    calls s' = calls s.
Proof.
  intros Hnl Hl He. eexists. split.
  - apply process_line_too_long; [|done|done]. by apply split_line_nul.
  - done.
Qed.

(** ** Every path through one iteration *)

Lemma process_line_cases E F r s s' :
  process_line E F r s = Done s' -> (errors s <= line s)%Z ->
  (gr_db s' = gr_db s /\ sgr_db s' = sgr_db s /\
   errors s' = (errors s + 1)%Z /\
   (split_line r = TooLong \/ split_line r = MissingPassword \/
    exists name newpwd,
      split_line r = Fields name newpwd /\ table (gr_db s) !! name = None))
  \/
  (exists name newpwd g,
     split_line r = Fields name newpwd /\
     table (gr_db s) !! name = Some g /\
     errors s' = errors s /\ stderr s' = stderr s /\
     ((exists sg,
         is_shadow_grp s = true /\ table (sgr_db s) !! name = Some sg /\
         gr_db s' = gr_db s /\
         sgr_db s' =
           Handle (storage (sgr_db s))
             (<[name := SgEnt (new_credential E F newpwd s)
                              (se_adm sg) (se_mem sg)]> (table (sgr_db s)))
             (locked (sgr_db s)) (isopen (sgr_db s)) true)
      \/
      ((is_shadow_grp s = false \/ table (sgr_db s) !! name = None) /\
       sgr_db s' = sgr_db s /\
       gr_db s' =
         Handle (storage (gr_db s))
           (<[name := GrEnt (new_credential E F newpwd s)
                            (ge_gid g) (ge_mem g)]> (table (gr_db s)))
           (locked (gr_db s)) (isopen (gr_db s)) true))).
Proof.
  intros H He.
  pose proof (process_line_bounds _ _ _ _ _ H He) as (Hl & He' & _ & _).
  destruct (split_line r) as [| |name newpwd] eqn:Hs.
  - rewrite process_line_too_long in H by done. inversion H; subst s'.
    left. simpl. tauto.
  - rewrite process_line_missing in H by done. inversion H; subst s'.
    left. simpl. tauto.
  - destruct (table (gr_db s) !! name) as [g|] eqn:Hg.
    + right. exists name, newpwd, g.
      destruct (is_shadow_grp s) eqn:Hsh;
        [destruct (table (sgr_db s) !! name) as [sg|] eqn:Hsg|].
      * destruct (process_line_shadow E F r s name newpwd g sg)
          as (s1 & H1 & Hgr & Hsgr & Herr & _ & Hse & _); try done.
        rewrite H in H1. inversion H1; subst s1.
        repeat split; try done. left. by exists sg.
      * destruct (process_line_group E F r s name newpwd g)
          as (s1 & H1 & Hsgr & Hgr & Herr & _ & Hse & _);
          try done; [by right|].
        rewrite H in H1. inversion H1; subst s1.
        repeat split; try done. right. split; [by right|done].
      * destruct (process_line_group E F r s name newpwd g)
          as (s1 & H1 & Hsgr & Hgr & Herr & _ & Hse & _);
          try done; [by left|].
        rewrite H in H1. inversion H1; subst s1.
        repeat split; try done. right. split; [by left|done].
    + destruct (process_line_unknown E F r s name newpwd Hs Hg Hl He')
        as (s1 & H1 & Hgr & Hsgr & Herr & _).
      rewrite H in H1. inversion H1; subst s1.
      left. repeat split; try done. right. right. by exists name, newpwd.
Qed.

(** Whether a line costs an error is decided by [rejects]. *)
Lemma process_line_errors E F r s s' :
  process_line E F r s = Done s' -> (errors s <= line s)%Z ->
  dom (table (gr_db s)) = dom (gr_file E) ->
  errors s' = (errors s + (if rejects E r then 1 else 0))%Z.
Proof.
  intros H He Hdom.
  destruct (process_line_cases _ _ _ _ _ H He)
    as [(_ & _ & Herr & Hr)|(name & newpwd & g & Hs & Hg & Herr & _)].
  - unfold rejects.
    destruct Hr as [->|[->|(name & newpwd & -> & Hn)]]; try done.
    rewrite bool_decide_eq_true_2; [done|].
    apply not_elem_of_dom. rewrite <- Hdom. by apply not_elem_of_dom.
  - unfold rejects. rewrite Hs. rewrite bool_decide_eq_false_2; [lia|].
    intros Hn. apply not_elem_of_dom in Hn. rewrite <- Hdom in Hn.
    apply not_elem_of_dom in Hn. congruence.
Qed.

Lemma process_all_errors E F rs s s' :
  process_all E F rs s = Done s' -> (errors s <= line s)%Z ->
  dom (table (gr_db s)) = dom (gr_file E) ->
  errors s' = (errors s + Z.of_nat (rejected_count E rs))%Z.
Proof.
  unfold rejected_count.
  revert s. induction rs as [|r rs IH]; intros s; simpl.
  - intros [= <-] _ _. simpl. lia.
  - unfold bind. destruct (process_line E F r s) as [s1| | |] eqn:H1; try done.
    intros H He Hdom.
    pose proof (process_line_bounds _ _ _ _ _ H1 He) as (_ & _ & He1 & Hx).
    rewrite (IH s1 H He1) by (by rewrite (ext_gr_dom _ _ _ Hx)).
    rewrite (process_line_errors _ _ _ _ _ H1 He Hdom).
    destruct (rejects E r); simpl; lia.
Qed.

(** X4.  In a run that reaches the loop, when the input ends [errors] is
    exactly the number of lines rejected on their contents, standard error
    holds exactly that many diagnostics, all of them per-line ones, and
    [line] is the number of lines read. *)
Theorem errors_counts_rejected_lines E F stdin :
  2 <= BUFSIZ E -> (Z.of_nat (length stdin) <= INT_MAX)%Z ->
  opens E = true ->
  exists s,
    read_lines E F (S (length stdin)) stdin (opened E F) = Done s /\
    errors s = Z.of_nat (rejected_count E (input_records E stdin)) /\
    length (stderr s) = rejected_count E (input_records E stdin) /\
    forallb line_diag (stderr s) = true /\
    line s = Z.of_nat (length (input_records E stdin)).
Proof.
  intros HB Hlen Hop.
  destruct (main_opens E F stdin HB Hlen Hop) as (s & Hs & Hp & _).
  exists s. split; [done|].
  pose proof (process_all_errors _ _ _ _ _ Hp) as He.
  simpl in He. specialize (He ltac:(lia) eq_refl).
  apply process_all_Done, opened_extends in Hp
    as (_ & _ & _ & _ & _ & _ & _ & _ & Hline & cs & ds & _ & _ & Hds
        & Hfd & Hed).
  subst ds. repeat split; try done; lia.
Qed.

(** ** What a run leaves alone *)

Lemma process_line_keeps_rest E F r s s' :
  process_line E F r s = Done s' -> (errors s <= line s)%Z ->
  (consistent (gr_db s) -> consistent (gr_db s')) /\
  (consistent (sgr_db s) -> consistent (sgr_db s')) /\
  forall name,
    gr_rest <$> table (gr_db s') !! name
    = gr_rest <$> table (gr_db s) !! name /\
    sg_rest <$> table (sgr_db s') !! name
    = sg_rest <$> table (sgr_db s) !! name /\
    ((forall pwd, split_line r <> Fields name pwd) ->
     table (gr_db s') !! name = table (gr_db s) !! name /\
     table (sgr_db s') !! name = table (sgr_db s) !! name).
Proof.
  intros H He.
  destruct (process_line_cases _ _ _ _ _ H He)
    as [(Hgr & Hsgr & _)|(n0 & newpwd & g & Hs & Hg & _ & _ & Hcase)].
  - rewrite Hgr, Hsgr. repeat split; done.
  - destruct Hcase as [(sg & _ & Hsg & Hgr & Hsgr)|(_ & Hsgr & Hgr)].
    + rewrite Hgr, Hsgr. split; [done|]. split; [done|].
      intros name. simpl. destruct (decide (n0 = name)) as [->|Hne].
      * rewrite lookup_insert_eq, Hsg. split; [done|]. split; [done|].
        intros Hno. by destruct (Hno newpwd).
      * by rewrite lookup_insert_ne.
    + rewrite Hgr, Hsgr. split; [done|]. split; [done|].
      intros name. simpl. destruct (decide (n0 = name)) as [->|Hne].
      * rewrite lookup_insert_eq, Hg. split; [done|]. split; [done|].
        intros Hno. by destruct (Hno newpwd).
      * by rewrite lookup_insert_ne.
Qed.

Lemma process_all_keeps_rest E F rs s s' :
  process_all E F rs s = Done s' -> (errors s <= line s)%Z ->
  (consistent (gr_db s) -> consistent (gr_db s')) /\
  (consistent (sgr_db s) -> consistent (sgr_db s')) /\
  forall name,
    gr_rest <$> table (gr_db s') !! name
    = gr_rest <$> table (gr_db s) !! name /\
    sg_rest <$> table (sgr_db s') !! name
    = sg_rest <$> table (sgr_db s) !! name /\
    ((forall r pwd, r ∈ rs -> split_line r <> Fields name pwd) ->
     table (gr_db s') !! name = table (gr_db s) !! name /\
     table (sgr_db s') !! name = table (sgr_db s) !! name).
Proof.
  revert s. induction rs as [|r rs IH]; intros s; simpl.
  - intros [= <-] _. repeat split; done.
  - unfold bind. destruct (process_line E F r s) as [s1| | |] eqn:H1; try done.
    intros H He.
    pose proof (process_line_bounds _ _ _ _ _ H1 He) as (_ & _ & He1 & _).
    destruct (process_line_keeps_rest _ _ _ _ _ H1 He) as (Hc1 & Hc2 & Hk1).
    destruct (IH s1 H He1) as (Hc1' & Hc2' & Hk).
    split; [tauto|]. split; [tauto|].
    intros name. destruct (Hk name) as (Hg & Hsg & Hun).
    destruct (Hk1 name) as (Hg1 & Hsg1 & Hun1).
    split; [congruence|]. split; [congruence|].
    intros Hno.
    destruct Hun as [Hu1 Hu2].
    { intros r' pwd Hin. apply Hno. apply elem_of_cons. by right. }
    destruct Hun1 as [Hu3 Hu4].
    { intros pwd. apply Hno. apply elem_of_cons. by left. }
    split; congruence.
Qed.

(** The loop itself never calls [exit]. *)
Lemma process_line_no_exit E F r s c s' :
  process_line E F r s <> Exit c s'.
Proof.
  unfold process_line, merge_password, gr_locate, sgr_locate, gr_update,
    sgr_update, count_error, int_incr, bind.
  repeat (case_match; simplify_eq/=); done.
Qed.

Lemma read_lines_no_exit E F fuel stdin s c s' :
  read_lines E F fuel stdin s <> Exit c s'.
Proof.
  revert stdin s. induction fuel as [|fuel IH]; intros stdin s; simpl; [done|].
  destruct (fgets (BUFSIZ E) stdin) as [[buf rest]|]; [|done].
  unfold bind. pose proof (process_line_no_exit E F buf s) as Hn.
  destruct (process_line E F buf s) as [s1|c1 s1| |]; first [apply IH|done].
Qed.

(** [main] exits with status 0 only at its end. *)
Lemma main_exit_zero_inv E F stdin final :
  main E F stdin = Exit 0 final ->
  opens E = true /\
  exists s s',
    read_lines E F (S (length stdin)) stdin (opened E F) = Done s /\
    errors s = 0%Z /\
    close_files E s = Done s' /\
    final = note FlushCache s'.
Proof.
  unfold main. destruct (opens E) eqn:Hop.
  - rewrite open_files_opens by done. cbv beta iota delta [bind].
    destruct (read_lines E F (S (length stdin)) stdin (opened E F))
      as [s|c0 s0| |] eqn:Hs; try done.
    2:{ by destruct (read_lines_no_exit _ _ _ _ _ _ _ Hs). }
    destruct (Z.eqb_spec (errors s) 0) as [He|He]; simpl negb; cbv iota.
    + pose proof (close_files_calls E s) as Hc.
      destruct (close_files E s) as [s'|c s'| |] eqn:Hcl; try done.
      * intros [= <-]. split; [done|]. by exists s, s'.
      * destruct Hc as (-> & _). done.
    + destruct (fail_exit_spec 1 (say error_detected s)) as (f & -> & _).
      done.
  - destruct (open_files_fails E F Hop) as (s' & -> & _). done.
Qed.

Lemma sgr_close_Done E s s' :
  sgr_close E s = (true, s') -> consistent (sgr_db s) ->
  storage (sgr_db s') = table (sgr_db s) /\ gr_db s' = gr_db s /\
  is_shadow_grp s' = is_shadow_grp s /\ stderr s' = stderr s.
Proof.
  unfold sgr_close, db_close, consistent.
  destruct (dirty (sgr_db s)); [destruct (sgr_durable E)|];
    intros [= <-] Hc; simpl; try done.
  repeat split. symmetry. by apply Hc.
Qed.

Lemma gr_close_Done E s s' :
  gr_close E s = (true, s') -> consistent (gr_db s) ->
  storage (gr_db s') = table (gr_db s) /\ sgr_db s' = sgr_db s /\
  is_shadow_grp s' = is_shadow_grp s /\ stderr s' = stderr s.
Proof.
  unfold gr_close, db_close, consistent.
  destruct (dirty (gr_db s)); [destruct (gr_durable E)|];
    intros [= <-] Hc; simpl; try done.
  repeat split. symmetry. by apply Hc.
Qed.

(** What [close_files] has written when it returns. *)
Lemma close_files_Done E s s' :
  close_files E s = Done s' ->
  consistent (gr_db s) ->
  (is_shadow_grp s = true -> consistent (sgr_db s)) ->
  storage (gr_db s') = table (gr_db s) /\
  storage (sgr_db s')
  = (if is_shadow_grp s then table (sgr_db s) else storage (sgr_db s)) /\
  is_shadow_grp s' = is_shadow_grp s.
Proof.
  unfold close_files. intros H Hg Hs.
  destruct (is_shadow_grp s) eqn:Hsh.
  - destruct (sgr_close E s) as [ok1 s1] eqn:H1.
    destruct ok1; simpl in H.
    2:{ done. }
    apply sgr_close_Done in H1 as (Hs1 & Hg1 & Hsh1 & _); [|by apply Hs].
    destruct (sgr_unlock_spec s1) as (ok2 & h2 & H2 & Hh2).
    rewrite H2 in H. simpl in H.
    match type of H with
    | context [gr_close E ?s2] =>
        destruct (gr_close E s2) as [ok3 s3] eqn:H3
    end.
    destruct ok3; simpl in H.
    2:{ done. }
    apply gr_close_Done in H3 as (Hg3 & Hs3 & Hsh3 & _).
    2:{ destruct ok2; simpl; by rewrite Hg1. }
    destruct (gr_unlock_spec s3) as (ok4 & h4 & H4 & Hh4).
    rewrite H4 in H. inversion H; subst s'; clear H.
    destruct ok2, ok4; simpl in *; rewrite ?Hh4, ?Hg3, ?Hs3, ?Hsh3;
      simpl; rewrite ?Hg1, ?Hh2, ?Hs1, ?Hsh1, ?Hsh; done.
  - simpl in H.
    destruct (gr_close E s) as [ok3 s3] eqn:H3.
    destruct ok3; simpl in H.
    2:{ done. }
    apply gr_close_Done in H3 as (Hg3 & Hs3 & Hsh3 & _); [|done].
    destruct (gr_unlock_spec s3) as (ok4 & h4 & H4 & Hh4).
    rewrite H4 in H. inversion H; subst s'; clear H.
    destruct ok4; simpl in *; rewrite ?Hh4, ?Hg3, ?Hs3, ?Hsh3, ?Hsh; done.
Qed.

(** X5.  A run that exits with status 0 has changed passwords and nothing
    else: in both files the names are those it found, every group keeps
    its gid and members and every gshadow entry its administrators and
    members, and a name that no parsed line of the input carries keeps its
    entries whole. *)
Theorem run_changes_passwords_only E F stdin final :
  main E F stdin = Exit 0 final ->
  forall name,
    gr_rest <$> storage (gr_db final) !! name
    = gr_rest <$> gr_file E !! name /\
    sg_rest <$> storage (sgr_db final) !! name
    = sg_rest <$> sgr_file E !! name /\
    ((forall r pwd,
        r ∈ input_records E stdin -> split_line r <> Fields name pwd) ->
     storage (gr_db final) !! name = gr_file E !! name /\
     storage (sgr_db final) !! name = sgr_file E !! name).
Proof.
  intros H name.
  apply main_exit_zero_inv in H as (Hop & s & s' & Hs & He & Hc & ->).
  pose proof (read_lines_process_all _ _ _ _ _ _ Hs) as Hp.
  fold (input_records E stdin) in Hp.
  destruct (process_all_keeps_rest _ _ _ _ _ Hp) as (Hc1 & Hc2 & Hk).
  { simpl. lia. }
  apply process_all_Done in Hp.
  pose proof (ext_sgr_storage _ _ _ Hp) as Hss.
  apply opened_extends in Hp as (_ & _ & _ & Hsh & _).
  destruct (close_files_Done _ _ _ Hc) as (Hg' & Hs' & _).
  { by apply Hc1. }
  { intros Hshs. apply Hc2. rewrite Hsh in Hshs. simpl. by rewrite Hshs. }
  simpl. rewrite Hg', Hs'. destruct (Hk name) as (Hkg & Hks & Hun).
  simpl in Hkg, Hks, Hun, Hss.
  rewrite Hsh. destruct (sgr_file_present E) eqn:Hpres.
  - repeat split; try done; by apply Hun.
  - rewrite Hss. repeat split; try done. by apply Hun.
Qed.

(** ** How a run ends *)

Lemma main_closes E F stdin s :
  opens E = true ->
  read_lines E F (S (length stdin)) stdin (opened E F) = Done s ->
  errors s = 0%Z ->
  main E F stdin = (do s' <- close_files E s; Exit 0 (note FlushCache s')).
Proof.
  intros Hop Hs He. unfold main. rewrite open_files_opens by done.
  cbv beta iota delta [bind]. rewrite Hs, He. done.
Qed.

(** [close_files], entered with the locks held as [open_files] leaves
    them, releases them on each of its ways out, and prints nothing when
    it returns. *)
Lemma close_files_unlocks E s :
  gr_locked s = true -> locked (gr_db s) = true ->
  sgr_locked s = is_shadow_grp s -> locked (sgr_db s) = is_shadow_grp s ->
  match close_files E s with
  | Done s' =>
      locked (gr_db s') = false /\ locked (sgr_db s') = false /\
      stderr s' = stderr s
  | Exit code s' =>
      locked (gr_db s') = false /\ locked (sgr_db s') = false
  | _ => False
  end.
Proof.
  unfold close_files, bind, fail_exit, sgr_close, sgr_unlock, gr_close,
    gr_unlock, db_close, db_unlock.
  destruct s as [[gs gt gl go gd] [ss st sl so sd] sh sL gL cm sa er li se ca].
  simpl. intros -> -> -> ->.
  destruct sh, sd, (sgr_durable E), gd, (gr_durable E); simpl; done.
Qed.

(** [close_files] when the write of gshadow fails, and when that of the
    group file fails after gshadow has been written. *)
Lemma close_files_gshadow_fails E s :
  is_shadow_grp s = true -> dirty (sgr_db s) = true ->
  sgr_durable E = false ->
  gr_locked s = true -> locked (gr_db s) = true ->
  sgr_locked s = true -> locked (sgr_db s) = true ->
  exists s',
    close_files E s = Exit 1 s' /\
    calls s' = calls s ++ [Db gshadow_db Close; Db group_db Unlock;
                           Db gshadow_db Unlock] /\
    stderr s' = stderr s ++ [failure_while_writing gshadow_db] /\
    storage (gr_db s') = storage (gr_db s) /\
    storage (sgr_db s') = storage (sgr_db s) /\
    locked (gr_db s') = false /\ locked (sgr_db s') = false.
Proof.
  unfold close_files, bind, fail_exit, sgr_close, sgr_unlock, gr_close,
    gr_unlock, db_close, db_unlock.
  destruct s as [[gs gt gl go gd] [ss st sl so sd] sh sL gL cm sa er li se ca].
  simpl. intros -> -> -> -> -> -> ->. simpl.
  eexists. split; [reflexivity|]. simpl. by rewrite <- !app_assoc.
Qed.

Lemma close_files_group_fails E s :
  is_shadow_grp s = true -> dirty (sgr_db s) = true ->
  sgr_durable E = true ->
  dirty (gr_db s) = true -> gr_durable E = false ->
  gr_locked s = true -> locked (gr_db s) = true ->
  sgr_locked s = true -> locked (sgr_db s) = true ->
  exists s',
    close_files E s = Exit 1 s' /\
    calls s' = calls s ++ [Db gshadow_db Close; Db gshadow_db Unlock;
                           Db group_db Close; Db group_db Unlock] /\
    stderr s' = stderr s ++ [failure_while_writing group_db] /\
    storage (gr_db s') = storage (gr_db s) /\
    storage (sgr_db s') = table (sgr_db s) /\
    locked (gr_db s') = false /\ locked (sgr_db s') = false.
Proof.
  unfold close_files, bind, fail_exit, sgr_close, sgr_unlock, gr_close,
    gr_unlock, db_close, db_unlock.
  destruct s as [[gs gt gl go gd] [ss st sl so sd] sh sL gL cm sa er li se ca].
  simpl. intros -> -> -> -> -> -> -> -> ->. simpl.
  eexists. split; [reflexivity|]. simpl. by rewrite <- !app_assoc.
Qed.

(** The state in which the loop ends, seen from [opened]. *)
Lemma loop_end_locks E F stdin s :
  read_lines E F (S (length stdin)) stdin (opened E F) = Done s ->
  storage (gr_db s) = gr_file E /\ storage (sgr_db s) = sgr_file E /\
  is_shadow_grp s = sgr_file_present E /\
  gr_locked s = true /\ locked (gr_db s) = true /\
  sgr_locked s = sgr_file_present E /\
  locked (sgr_db s) = sgr_file_present E /\
  exists cs, calls s = opening (sgr_file_present E) ++ cs /\
             forallb loop_call cs = true.
Proof.
  intros Hs. apply read_lines_process_all, process_all_Done in Hs.
  apply opened_extends in Hs
    as (H1 & H2 & _ & H3 & H4 & H5 & H6 & H7 & _ & cs & ds & Hc & Hl & _).
  repeat split; try done. by exists cs.
Qed.

(** X6.  Whatever happens, the process ends with status 0 or 1 and
    leaves neither file locked: a failed lock or open, an aborted batch, a
    failed write of either file and the normal end all release what was
    locked. *)
Theorem every_exit_releases_locks E F stdin :
  2 <= BUFSIZ E -> (Z.of_nat (length stdin) <= INT_MAX)%Z ->
  exists code final,
    main E F stdin = Exit code final /\
    (code = 0%Z \/ code = 1%Z) /\
    locked (gr_db final) = false /\ locked (sgr_db final) = false.
Proof.
  intros HB Hlen. destruct (opens E) eqn:Hop.
  - destruct (main_opens E F stdin HB Hlen Hop) as (s & Hs & _ & _).
    destruct (Z.eq_dec (errors s) 0%Z) as [He|He].
    + rewrite (main_closes E F stdin s Hop Hs He).
      destruct (loop_end_locks E F stdin s Hs)
        as (_ & _ & Hsh & HgL & Hgl & HsL & Hsl & _).
      pose proof (close_files_unlocks E s HgL Hgl) as Hu.
      rewrite HsL, Hsl, Hsh in Hu. specialize (Hu eq_refl eq_refl).
      pose proof (close_files_calls E s) as Hc.
      destruct (close_files E s) as [s'|c s'| |]; try done; simpl.
      * exists 0%Z, (note FlushCache s'). simpl.
        destruct Hu as (? & ? & _). tauto.
      * destruct Hc as (-> & _). exists 1%Z, s'. tauto.
    + destruct (main_aborts E F stdin s Hop Hs He)
        as (final & Hf & _ & _ & _ & Hgl & Hsl & _).
      exists 1%Z, final. tauto.
  - destruct (open_files_fails E F Hop)
      as (s' & H & _ & _ & Hgl & Hsl & _).
    exists 1%Z, s'. unfold main. rewrite H. simpl. tauto.
Qed.

Lemma filter_none_existsb {A} (f : A -> bool) (l : list A) :
  length (List.filter f l) = 0 -> existsb f l = false.
Proof.
  induction l as [|x l IH]; simpl; [done|].
  destruct (f x); simpl; [done|]. exact IH.
Qed.

(** X7.  Status 0 means a clean run: the locks and opens succeeded, no
    line of the input was rejected, [errors] is zero, and nothing at all
    was printed on standard error. *)
Theorem exit_zero_means_clean_run E F stdin final :
  main E F stdin = Exit 0 final ->
  opens E = true /\
  existsb (rejects E) (input_records E stdin) = false /\
  errors final = 0%Z /\
  stderr final = [].
Proof.
  intros H.
  apply main_exit_zero_inv in H as (Hop & s & s' & Hs & He & Hc & ->).
  split; [done|].
  pose proof (read_lines_process_all _ _ _ _ _ _ Hs) as Hp.
  fold (input_records E stdin) in Hp.
  pose proof (process_all_errors _ _ _ _ _ Hp) as Hcount.
  simpl in Hcount. specialize (Hcount ltac:(lia) eq_refl).
  split.
  { apply filter_none_existsb. unfold rejected_count in Hcount. lia. }
  destruct (loop_end_locks E F stdin s Hs)
    as (_ & _ & Hsh & HgL & Hgl & HsL & Hsl & _).
  pose proof (close_files_unlocks E s HgL Hgl) as Hu.
  rewrite HsL, Hsl, Hsh in Hu. specialize (Hu eq_refl eq_refl).
  rewrite Hc in Hu. destruct Hu as (_ & _ & Hse).
  pose proof (close_files_commits E s) as _.
  assert (errors s' = errors s) as He'.
  { clear - Hc. unfold close_files, bind, fail_exit, sgr_close, sgr_unlock,
      gr_close, gr_unlock, db_close, db_unlock in Hc.
    repeat (case_match; simplify_eq/=); done. }
  apply process_all_Done, opened_extends in Hp
    as (_ & _ & _ & _ & _ & _ & _ & _ & _ & cs & ds & _ & _ & Hds & _ & Hed).
  simpl. split; [congruence|].
  rewrite Hse, Hds. destruct ds; [done|]. simpl in Hed. lia.
Qed.

(** X8.  On empty input a run that gets its locks exits with status 0
    after lock, open, close and unlock of each file, prints nothing and
    leaves both files as they were, whether or not they could have been
    written. *)
Theorem empty_input_changes_nothing E F :
  opens E = true ->
  exists final,
    main E F [] = Exit 0 final /\
    storage (gr_db final) = gr_file E /\
    storage (sgr_db final) = sgr_file E /\
    stderr final = [] /\
    calls final = opening (sgr_file_present E)
                    ++ closing (sgr_file_present E) ++ [FlushCache].
Proof.
  intros Hop. rewrite (main_closes E F [] (opened E F) Hop eq_refl eq_refl).
  unfold close_files, opened, opening, closing, bind, sgr_close, sgr_unlock,
    gr_close, gr_unlock, db_close, db_unlock.
  destruct (sgr_file_present E); simpl;
    (eexists; split; [reflexivity|]; done).
Qed.

(** X9.  When the write of gshadow fails, [close_files] stops there: in
    a run whose lines were all accepted and staged a change for gshadow,
    [gr_close] is never called, "failure while writing changes" names
    gshadow, both locks are released, the process exits with status 1 and
    both files are as they were. *)
Theorem failed_gshadow_write_skips_group E F stdin s :
  opens E = true ->
  read_lines E F (S (length stdin)) stdin (opened E F) = Done s ->
  errors s = 0%Z ->
  sgr_file_present E = true -> dirty (sgr_db s) = true ->
  sgr_durable E = false ->
  exists final,
    main E F stdin = Exit 1 final /\
    calls final = calls s ++ [Db gshadow_db Close; Db group_db Unlock;
                              Db gshadow_db Unlock] /\
    stderr final = stderr s ++ [failure_while_writing gshadow_db] /\
    storage (gr_db final) = gr_file E /\
    storage (sgr_db final) = sgr_file E /\
    locked (gr_db final) = false /\ locked (sgr_db final) = false.
Proof.
  intros Hop Hs He Hsh Hd Hw.
  destruct (loop_end_locks E F stdin s Hs)
    as (Hgs & Hss & Hshs & HgL & Hgl & HsL & Hsl & _).
  rewrite Hsh in Hshs, HsL, Hsl.
  destruct (close_files_gshadow_fails E s Hshs Hd Hw HgL Hgl HsL Hsl)
    as (s' & Hc & Hcalls & Hse & Hg' & Hs' & Hl1 & Hl2).
  exists s'. rewrite (main_closes E F stdin s Hop Hs He), Hc. simpl.
  repeat split; try done; congruence.
Qed.

(** X10.  The two commits are not one: when gshadow has been written and
    the write of the group file then fails, the process exits with status
    1 with the staged gshadow table on disk and the group file as it was;
    "failure while writing changes" names the group file and both locks
    are released. *)
Theorem failed_group_write_keeps_gshadow E F stdin s :
  opens E = true ->
  read_lines E F (S (length stdin)) stdin (opened E F) = Done s ->
  errors s = 0%Z ->
  sgr_file_present E = true -> dirty (sgr_db s) = true ->
  sgr_durable E = true ->
  dirty (gr_db s) = true -> gr_durable E = false ->
  exists final,
    main E F stdin = Exit 1 final /\
    calls final = calls s ++ [Db gshadow_db Close; Db gshadow_db Unlock;
                              Db group_db Close; Db group_db Unlock] /\
    stderr final = stderr s ++ [failure_while_writing group_db] /\
    storage (gr_db final) = gr_file E /\
    storage (sgr_db final) = table (sgr_db s) /\
    locked (gr_db final) = false /\ locked (sgr_db final) = false.
Proof.
  intros Hop Hs He Hsh Hd Hw Hdg Hwg.
  destruct (loop_end_locks E F stdin s Hs)
    as (Hgs & Hss & Hshs & HgL & Hgl & HsL & Hsl & _).
  rewrite Hsh in Hshs, HsL, Hsl.
  destruct (close_files_group_fails E s Hshs Hd Hw Hdg Hwg HgL Hgl HsL Hsl)
    as (s' & Hc & Hcalls & Hse & Hg' & Hs' & Hl1 & Hl2).
  exists s'. rewrite (main_closes E F stdin s Hop Hs He), Hc. simpl.
  repeat split; try done; congruence.
Qed.

(** ** The command line *)

Lemma chr_distinct :
  chr "c" <> chr "e" /\ chr "c" <> chr "h" /\ chr "c" <> chr "m" /\
  chr "c" <> chr "s" /\ chr "c" <> 0%Z /\ chr "e" <> chr "h" /\
  chr "e" <> chr "m" /\ chr "e" <> chr "s" /\ chr "e" <> 0%Z /\
  chr "h" <> chr "m" /\ chr "h" <> chr "s" /\ chr "h" <> 0%Z /\
  chr "m" <> chr "s" /\ chr "m" <> 0%Z /\ chr "s" <> 0%Z.
Proof. repeat split; vm_compute; discriminate. Qed.

Lemma last_arg_cons ch o opts :
  last_arg ch (o :: opts) =
  match last_arg ch opts with
  | Some a => Some a
  | None => if is_opt ch o then Some (snd o) else None
  end.
Proof.
  unfold last_arg. simpl. destruct (is_opt ch o); simpl.
  - rewrite last_cons. by destruct (last _).
  - by destruct (last _).
Qed.

Lemma given_last_arg ch opts :
  given ch opts = true <-> is_Some (last_arg ch opts).
Proof.
  induction opts as [|o opts IH].
  - split; [done|]. by intros [? ?].
  - rewrite last_arg_cons. unfold given in *. simpl.
    destruct (last_arg ch opts) eqn:Hl.
    + split; [by eauto|]. intros _. apply orb_true_iff. right.
      apply IH. by eauto.
    + destruct (is_opt ch o); simpl; [by split; eauto|].
      rewrite IH. done.
Qed.

Lemma read_options_cons B c optarg opts F log :
  read_options B ((c, optarg) :: opts) F log =
  if (c =? chr "c")%Z then
    read_options B opts
      (Flags true (eflg F) (md5flg F) (sflg F) (Some optarg) (sha_rounds F))
      log
  else if (c =? chr "e")%Z then
    read_options B opts
      (Flags (cflg F) true (md5flg F) (sflg F) (crypt_method0 F)
             (sha_rounds F)) log
  else if (c =? chr "h")%Z then usage B log
  else if (c =? chr "m")%Z then
    read_options B opts
      (Flags (cflg F) (eflg F) true (sflg F) (crypt_method0 F)
             (sha_rounds F)) log
  else if USE_SHA_CRYPT B && (c =? chr "s")%Z then
    if negb (fst (getlong B optarg (sha_rounds F)) =? 0)%Z
    then usage B (log ++ [Print (invalid_numeric_argument optarg)])
    else read_options B opts
           (Flags (cflg F) (eflg F) (md5flg F) true (crypt_method0 F)
                  (snd (getlong B optarg (sha_rounds F)))) log
  else if (c =? 0)%Z then read_options B opts F log
  else usage B log.
Proof.
  cbn [read_options]. by destruct (getlong B optarg (sha_rounds F)).
Qed.

Ltac split_on_option c :=
  pose proof chr_distinct as Hchr;
  destruct (Z.eqb_spec c (chr "c")), (Z.eqb_spec c (chr "e")),
    (Z.eqb_spec c (chr "h")), (Z.eqb_spec c (chr "m")),
    (Z.eqb_spec c (chr "s")), (Z.eqb_spec c 0%Z);
  try (exfalso; intuition congruence); clear Hchr.

(** What the loop of [process_flags] leaves in the globals when it runs
    to its end. *)
Lemma read_options_Go B opts F log F' log' :
  read_options B opts F log = Go F' log' ->
  log' = log /\
  cflg F' = cflg F || given "c" opts /\
  eflg F' = eflg F || given "e" opts /\
  md5flg F' = md5flg F || given "m" opts /\
  sflg F' = sflg F || (USE_SHA_CRYPT B && given "s" opts) /\
  crypt_method0 F' = match last_arg "c" opts with
                     | Some a => Some a
                     | None => crypt_method0 F
                     end /\
  sha_rounds F' = fold_left (rounds_step B) opts (sha_rounds F) /\
  forallb (fun o => recognised B (fst o)) opts = true.
Proof.
  revert F log. induction opts as [|[c a] opts IH]; intros F log H.
  - simpl in H. inversion H; subst. unfold given, last_arg. simpl.
    rewrite !orb_false_r, andb_false_r, orb_false_r. done.
  - rewrite read_options_cons in H. rewrite last_arg_cons.
    unfold given. cbn [existsb forallb fold_left].
    unfold rounds_step at 2. unfold is_opt at 1 3 5 7 9 10, recognised at 1.
    cbn [fst snd]. fold (given "c" opts) (given "e" opts) (given "m" opts)
      (given "s" opts).
    split_on_option c; destruct (USE_SHA_CRYPT B) eqn:HB;
      cbn [andb orb negb] in H |- *; try done;
      try (destruct (fst (getlong B a (sha_rounds F)) =? 0)%Z; [|done];
           cbn [negb] in H);
      apply IH in H as (-> & -> & -> & -> & -> & -> & -> & ->);
      cbn [cflg eflg md5flg sflg crypt_method0 sha_rounds];
      rewrite ?HB, ?orb_true_r, ?orb_false_r, ?andb_true_r; cbn [andb orb];
      repeat split; try done; by destruct (last_arg "c" opts).
Qed.

Lemma read_options_Stop B opts F log code log' :
  read_options B opts F log = Stop code log' ->
  code = E_USAGE B /\
  exists pre, log' = log ++ pre ++ [Print (usage_text (USE_SHA_CRYPT B))] /\
    (pre = [] \/ exists a, pre = [Print (invalid_numeric_argument a)]).
Proof.
  revert F log. induction opts as [|[c a] opts IH]; intros F log H;
    [done|].
  rewrite read_options_cons in H. unfold usage in H.
  repeat case_match; simplify_eq/=;
    try (by eapply IH);
    try (split; [done|]; exists []; split; [done|by left]).
  split; [done|]. eexists. split; [by rewrite <- app_assoc|].
  right. by eexists.
Qed.

Lemma read_options_not_Wild B opts F log :
  read_options B opts F log <> Wild.
Proof.
  revert F log. induction opts as [|[c a] opts IH]; intros F log H;
    [done|].
  rewrite read_options_cons in H. unfold usage in H.
  repeat case_match; simplify_eq/=; by eapply IH.
Qed.

Lemma check_flags_Go B F log F' log' :
  check_flags B F log = Go F' log' ->
  F' = F /\ log' = log /\
  sflg F && negb (cflg F) = false /\
  eflg F && (md5flg F || cflg F) = false /\
  md5flg F && cflg F = false /\
  (cflg F = true ->
   exists m, crypt_method0 F = Some m /\ supported_method B m = true).
Proof.
  unfold check_flags, usage. intros H.
  destruct (sflg F && negb (cflg F)) eqn:H1; [done|].
  destruct (eflg F && (md5flg F || cflg F)) eqn:H2; [done|].
  destruct (md5flg F && cflg F) eqn:H3; [done|].
  simpl in H. destruct (cflg F) eqn:Hc.
  - destruct (crypt_method0 F) as [m|]; [|done].
    assert (supported_method B m = true /\ F' = F /\ log' = log)
      as (Hsup & -> & ->).
    { unfold supported_method.
      destruct (bool_decide (m = str_DES)), (bool_decide (m = str_MD5)),
        (bool_decide (m = str_NONE)), (USE_SHA_CRYPT B),
        (bool_decide (m = str_SHA256)), (bool_decide (m = str_SHA512));
        simpl in H |- *; by simplify_eq. }
    repeat split; try done. intros _. by exists m.
  - simplify_eq. repeat split; done.
Qed.

Lemma check_flags_Stop B F log code log' :
  check_flags B F log = Stop code log' ->
  code = E_USAGE B /\
  exists m, log' = log ++ [Print m; Print (usage_text (USE_SHA_CRYPT B))].
Proof.
  unfold check_flags, usage. intros H.
  repeat case_match; simplify_eq/=;
    (split; [done|]; eexists; by rewrite <- app_assoc).
Qed.

(** X11.  When [process_flags] returns, it has printed nothing and the
    flags are consistent: [-s] only together with [-c], at most one of
    [-c], [-e] and [-m], and with [-c] a method that is one of DES, MD5,
    NONE or, in a build with SHA support, SHA256 and SHA512; without that
    support [-s] is never set. *)
Theorem accepted_flags_are_consistent B opts F log :
  process_flags B opts = Go F log ->
  log = [] /\
  (sflg F = true -> cflg F = true /\ USE_SHA_CRYPT B = true) /\
  (eflg F = true -> md5flg F = false /\ cflg F = false) /\
  (md5flg F = true -> cflg F = false) /\
  (cflg F = true <-> is_Some (crypt_method0 F)) /\
  (forall m, crypt_method0 F = Some m -> supported_method B m = true).
Proof.
  unfold process_flags. intros H.
  destruct (read_options B opts no_flags []) as [F0 log0| |] eqn:Hr;
    try done.
  apply check_flags_Go in H as (-> & -> & H1 & H2 & H3 & H4).
  apply read_options_Go in Hr
    as (-> & Hc & He & Hm & Hs & Hcm & Hro & Hk).
  simpl in Hc, He, Hm, Hs, Hcm.
  assert (cflg F0 = true <-> is_Some (crypt_method0 F0)) as Hiff.
  { rewrite Hc, Hcm, given_last_arg.
    destruct (last_arg "c" opts); split; try done; by intros [? ?]. }
  split; [done|]. split.
  { intros Hsf. rewrite Hsf in H1, Hs.
    destruct (cflg F0); [|done]. by destruct (USE_SHA_CRYPT B). }
  split.
  { intros Hef. rewrite Hef in H2. by destruct (md5flg F0), (cflg F0). }
  split.
  { intros Hmf. rewrite Hmf in H3. by destruct (cflg F0). }
  split; [done|].
  intros m Hmeth.
  destruct H4 as (m' & Hm' & Hsup); [apply Hiff; by eauto|]. congruence.
Qed.

(** X12.  [process_flags] has two ways out and no third: it returns
    without having printed, or it exits with [E_USAGE] after the usage
    text, preceded by at most one message; it never passes a null
    [crypt_method] to [strcmp]. *)
Theorem process_flags_returns_or_prints_usage B opts :
  match process_flags B opts with
  | Go F log => log = []
  | Stop code log =>
      code = E_USAGE B /\
      exists pre,
        log = pre ++ [Print (usage_text (USE_SHA_CRYPT B))] /\
        (pre = [] \/ exists m, pre = [Print m])
  | Wild => False
  end.
Proof.
  unfold process_flags.
  destruct (read_options B opts no_flags []) as [F0 log0|code log0|] eqn:Hr.
  - pose proof (read_options_Go _ _ _ _ _ _ Hr)
      as (-> & Hc & _ & _ & _ & Hcm & _).
    simpl in Hc, Hcm.
    destruct (check_flags B F0 []) as [F1 log1|code log1|] eqn:Hcf.
    + by apply check_flags_Go in Hcf as (_ & -> & _).
    + apply check_flags_Stop in Hcf as (-> & m & ->).
      split; [done|]. exists [Print m]. split; [done|]. right. by exists m.
    + unfold check_flags, usage in Hcf.
      assert (cflg F0 = true -> is_Some (crypt_method0 F0)) as Hiff.
      { rewrite Hc, Hcm, given_last_arg. by destruct (last_arg "c" opts). }
      repeat case_match; simplify_eq/=.
      destruct Hiff as [? ?]; done.
  - apply read_options_Stop in Hr as (-> & pre & -> & Hpre).
    split; [done|]. exists pre. split; [done|].
    destruct Hpre as [->|(a & ->)]; [by left|right; by eexists].
  - by apply read_options_not_Wild in Hr.
Qed.

(** X13.  [-h], or a value of [getopt_long] the switch has no case for,
    anywhere on the command line ends the process with [E_USAGE], whatever
    the other options are. *)
Theorem unrecognised_option_prints_usage B opts o :
  o ∈ opts -> recognised B (fst o) = false ->
  exists log, process_flags B opts = Stop (E_USAGE B) log.
Proof.
  intros Hin Hrec. unfold process_flags.
  destruct (read_options B opts no_flags []) as [F0 log0|code log0|] eqn:Hr.
  - apply read_options_Go in Hr as (_ & _ & _ & _ & _ & _ & _ & Hk).
    rewrite forallb_forall in Hk. apply list_elem_of_In in Hin.
    specialize (Hk o Hin). congruence.
  - apply read_options_Stop in Hr as (-> & _). by eexists.
  - by apply read_options_not_Wild in Hr.
Qed.

(** X14.  Options may be repeated and come in any order: when
    [process_flags] returns, each flag is set exactly when its option
    occurs, the method is the argument of the last [-c], and [sha_rounds]
    is what the successive [getlong] calls of the [-s] options made of
    5000. *)
Theorem options_are_collected B opts F log :
  process_flags B opts = Go F log ->
  cflg F = given "c" opts /\
  eflg F = given "e" opts /\
  md5flg F = given "m" opts /\
  sflg F = USE_SHA_CRYPT B && given "s" opts /\
  crypt_method0 F = last_arg "c" opts /\
  sha_rounds F = fold_left (rounds_step B) opts 5000%Z.
Proof.
  unfold process_flags. intros H.
  destruct (read_options B opts no_flags []) as [F0 log0| |] eqn:Hr;
    try done.
  apply check_flags_Go in H as (-> & -> & _).
  apply read_options_Go in Hr
    as (_ & Hc & He & Hm & Hs & Hcm & Hro & _).
  simpl in Hc, He, Hm, Hs, Hcm, Hro.
  repeat split; try done. by destruct (last_arg "c" opts).
Qed.

(** ** Authorisation and the program as a whole *)

(** X15.  With PAM support, [check_perms] returns only when the caller
    has a passwd entry and [pam_start], [pam_authenticate] and
    [pam_acct_mgmt] all succeed.  It makes these calls in this order up to
    the first that fails, then calls [pam_end] with the code of that
    failure, prints "PAM authentication failed" and exits with status 1;
    a caller without passwd entry is refused with [PAM_USER_UNKNOWN]
    before any PAM transaction is started. *)
Theorem check_perms_stops_at_first_failure B log :
  USE_PAM B = true -> PAM_USER_UNKNOWN B <> PAM_SUCCESS B ->
  match getpwuid B with
  | None =>
      check_perms B log =
      Stop 1 (log ++ [Getpwuid; PamEnd (PAM_USER_UNKNOWN B);
                      Print pam_authentication_failed])
  | Some u =>
      match list_find (fun step => snd step <> PAM_SUCCESS B)
                      (pam_steps B u) with
      | None =>
          check_perms B log =
          Go tt (log ++ Getpwuid :: (fst <$> pam_steps B u))
      | Some (i, (_, retval)) =>
          check_perms B log =
          Stop 1 (log ++ Getpwuid :: (fst <$> take (S i) (pam_steps B u))
                      ++ [PamEnd retval; Print pam_authentication_failed])
      end
  end.
Proof.
  intros HP Hne. unfold check_perms. rewrite HP. cbn [negb].
  destruct (getpwuid B) as [u|].
  - rewrite Z.eqb_refl. unfold pam_steps. cbn [list_find snd].
    destruct (PAM_SUCCESS B =? pam_start B u)%Z eqn:E1;
      [pose proof (proj1 (Z.eqb_eq _ _) E1) as H1
      |pose proof (proj1 (Z.eqb_neq _ _) E1) as H1].
    + rewrite decide_False by (intros H; by apply H).
      destruct (PAM_SUCCESS B =? pam_authenticate B)%Z eqn:E2;
        [pose proof (proj1 (Z.eqb_eq _ _) E2) as H2
        |pose proof (proj1 (Z.eqb_neq _ _) E2) as H2].
      * rewrite decide_False by (intros H; by apply H).
        destruct (PAM_SUCCESS B =? pam_acct_mgmt B)%Z eqn:E3;
          [pose proof (proj1 (Z.eqb_eq _ _) E3) as H3
          |pose proof (proj1 (Z.eqb_neq _ _) E3) as H3].
        -- rewrite decide_False by (intros H; by apply H).
           simpl. by rewrite <- !app_assoc.
        -- rewrite decide_True by (intros H; by apply H3).
           simpl. by rewrite <- !app_assoc.
      * rewrite decide_True by (intros H; by apply H2).
        simpl. repeat (rewrite E2; simpl). by rewrite <- !app_assoc.
    + rewrite decide_True by (intros H; by apply H1).
      simpl. repeat (rewrite E1; simpl). by rewrite <- !app_assoc.
  - assert ((PAM_SUCCESS B =? PAM_USER_UNKNOWN B)%Z = false) as E0
      by (apply Z.eqb_neq; intros H; by apply Hne).
    repeat (rewrite E0; simpl). by rewrite <- !app_assoc.
Qed.

Lemma check_perms_cases B log :
  PAM_USER_UNKNOWN B <> PAM_SUCCESS B ->
  match check_perms B log with
  | Go _ log' =>
      if USE_PAM B
      then exists u, getpwuid B = Some u /\
             log' = log ++ [Getpwuid; PamStart u; PamAuthenticate;
                            PamAcctMgmt]
      else log' = log
  | Stop code log' =>
      code = 1%Z /\ USE_PAM B = true /\
      exists pre retval,
        log' = log ++ pre ++ [PamEnd retval; Print pam_authentication_failed]
        /\ forallb is_print pre = false /\ retval <> PAM_SUCCESS B
  | Wild => False
  end.
Proof.
  intros Hne. unfold check_perms.
  destruct (USE_PAM B); [|done]. cbn [negb].
  destruct (getpwuid B) as [u|].
  - rewrite Z.eqb_refl.
    destruct (PAM_SUCCESS B =? pam_start B u)%Z eqn:E1.
    2:{ repeat (rewrite E1; simpl). apply Z.eqb_neq in E1.
        split; [done|]. split; [done|].
        exists [Getpwuid; PamStart u], (pam_start B u).
        rewrite <- !app_assoc. split; [done|]. split; [done|].
        intros H; by apply E1. }
    destruct (PAM_SUCCESS B =? pam_authenticate B)%Z eqn:E2.
    2:{ repeat (rewrite E2; simpl). apply Z.eqb_neq in E2.
        split; [done|]. split; [done|].
        exists [Getpwuid; PamStart u; PamAuthenticate], (pam_authenticate B).
        rewrite <- !app_assoc. split; [done|]. split; [done|].
        intros H; by apply E2. }
    destruct (PAM_SUCCESS B =? pam_acct_mgmt B)%Z eqn:E3; simpl.
    + exists u. by rewrite <- !app_assoc.
    + apply Z.eqb_neq in E3. split; [done|]. split; [done|].
      exists [Getpwuid; PamStart u; PamAuthenticate; PamAcctMgmt],
        (pam_acct_mgmt B).
      rewrite <- !app_assoc. split; [done|]. split; [done|].
      intros H; by apply E3.
  - assert ((PAM_SUCCESS B =? PAM_USER_UNKNOWN B)%Z = false) as E0
      by (apply Z.eqb_neq; intros H; by apply Hne).
    repeat (rewrite E0; simpl). split; [done|]. split; [done|].
    exists [Getpwuid], (PAM_USER_UNKNOWN B).
    rewrite <- !app_assoc. split; [done|]. split; done.
Qed.

Lemma process_flags_cases B opts :
  match process_flags B opts with
  | Go F log => log = []
  | Stop code log => code = E_USAGE B /\ forallb is_print log = true
  | Wild => False
  end.
Proof.
  unfold process_flags.
  destruct (read_options B opts no_flags []) as [F0 log0|code log0|] eqn:Hr.
  - pose proof (read_options_Go _ _ _ _ _ _ Hr)
      as (-> & Hc & _ & _ & _ & Hcm & _).
    simpl in Hc, Hcm.
    destruct (check_flags B F0 []) as [F1 log1|code log1|] eqn:Hcf.
    + by apply check_flags_Go in Hcf as (_ & -> & _).
    + by apply check_flags_Stop in Hcf as (-> & m & ->).
    + unfold check_flags, usage in Hcf.
      assert (cflg F0 = true -> is_Some (crypt_method0 F0)) as Hiff.
      { rewrite Hc, Hcm, given_last_arg. by destruct (last_arg "c" opts). }
      repeat case_match; simplify_eq/=.
      destruct Hiff as [? ?]; done.
  - apply read_options_Stop in Hr as (-> & pre & -> & Hpre).
    split; [done|]. by destruct Hpre as [->|(a & ->)].
  - by apply read_options_not_Wild in Hr.
Qed.

Lemma main_status E F stdin :
  2 <= BUFSIZ E -> (Z.of_nat (length stdin) <= INT_MAX)%Z ->
  exists code final,
    main E F stdin = Exit code final /\ (code = 0%Z \/ code = 1%Z).
Proof.
  intros HB Hlen. destruct (opens E) eqn:Hop.
  - destruct (main_opens E F stdin HB Hlen Hop) as (s & Hs & _ & _).
    destruct (Z.eq_dec (errors s) 0%Z) as [He|He].
    + rewrite (main_closes E F stdin s Hop Hs He).
      pose proof (close_files_calls E s) as Hc.
      destruct (close_files E s) as [s'|c s'| |]; try done; simpl.
      * exists 0%Z, (note FlushCache s'). tauto.
      * destruct Hc as (-> & _). exists 1%Z, s'. tauto.
    + destruct (main_aborts E F stdin s Hop Hs He) as (final & Hf & _).
      exists 1%Z, final. tauto.
  - destruct (open_files_fails E F Hop) as (s' & H & _).
    exists 1%Z, s'. unfold main. rewrite H. simpl. tauto.
Qed.

(** X16.  The program as a whole ends in one of three ways.  Before any
    file is locked it may exit with [E_USAGE], having printed only, or,
    in a PAM build, with status 1 after [pam_end] with the code of the
    failed step.  Otherwise it goes on with flags that [check_flags]
    accepted and exits with status 0 or 1; [pam_end (pamh, PAM_SUCCESS)]
    is called exactly when the build has PAM and the status is 0, so a
    batch that is aborted after authentication never ends its PAM
    transaction.  No null pointer is followed on the way. *)
Theorem program_outcomes B E opts stdin :
  2 <= BUFSIZ E -> (Z.of_nat (length stdin) <= INT_MAX)%Z ->
  PAM_USER_UNKNOWN B <> PAM_SUCCESS B ->
  match chgpasswd B E opts stdin with
  | Refused code log =>
      (code = E_USAGE B /\ forallb is_print log = true) \/
      (code = 1%Z /\ USE_PAM B = true /\
       exists pre retval,
         log = pre ++ [PamEnd retval; Print pam_authentication_failed] /\
         forallb is_print pre = false /\ retval <> PAM_SUCCESS B)
  | Ran log F r last =>
      process_flags B opts = Go F [] /\
      (if USE_PAM B
       then exists u, getpwuid B = Some u /\
              log = [Getpwuid; PamStart u; PamAuthenticate; PamAcctMgmt]
       else log = []) /\
      exists code final,
        r = Exit code final /\ main E F stdin = Exit code final /\
        (code = 0%Z \/ code = 1%Z) /\
        last = if USE_PAM B && (code =? 0)%Z
               then [PamEnd (PAM_SUCCESS B)] else []
  | Astray => False
  end.
Proof.
  intros HB Hlen Hne. unfold chgpasswd.
  pose proof (process_flags_cases B opts) as Hpf.
  destruct (process_flags B opts) as [F log|code log|]; [|by left|done].
  subst log.
  pose proof (check_perms_cases B [] Hne) as Hcp.
  destruct (check_perms B []) as [[] log|code log|]; [| |done].
  - destruct (main_status E F stdin HB Hlen) as (code & final & Hm & Hcode).
    split; [done|]. split; [done|].
    exists code, final. rewrite Hm. repeat split; try done.
    destruct Hcode as [->| ->]; simpl; [|by rewrite andb_false_r].
    by rewrite andb_true_r.
  - right. destruct Hcp as (-> & HP & pre & retval & -> & Hpre & Hr).
    repeat split; try done. by exists pre, retval.
Qed.

(** ** The calls of the loop *)

Lemma same_dom_lookup {D1 D2 : Type} (m1 : gmap (list ascii) D1)
    (m2 : gmap (list ascii) D2) (k : list ascii) :
  dom m1 = dom m2 -> (m1 !! k = None <-> m2 !! k = None).
Proof.
  intros Hd. by rewrite <- !not_elem_of_dom, Hd.
Qed.

Lemma process_line_calls E F r s s' :
  process_line E F r s = Done s' -> loop_inv E F s ->
  loop_inv E F s' /\
  calls s' = calls s ++ line_calls E F r /\
  salts s' = salts s + salts_drawn F r /\
  (sgr_file_present E = false -> sgr_db s' = sgr_db s).
Proof.
  intros H (He & HJ & Hdg & Hsh & Hds).
  pose proof (process_line_bounds _ _ _ _ _ H He) as (Hl & He' & Hle & Hx).
  assert (method_inv F s' -> loop_inv E F s') as Hinv.
  { intros HJ'.
    destruct Hx as [_ _ _ Hxg Hxs _ _ Hxsh _ _ _ _].
    split; [done|]. split; [done|].
    split; [congruence|]. split; [congruence|].
    intros Hp. rewrite Hxs. by apply Hds. }
  unfold line_calls, salts_drawn.
  destruct (split_line r) as [| |name newpwd] eqn:Hs.
  - rewrite process_line_too_long in H by done. inversion H; subst s'.
    simpl. rewrite app_nil_r, Nat.add_0_r. split; [by apply Hinv|done].
  - rewrite process_line_missing in H by done. inversion H; subst s'.
    simpl. rewrite app_nil_r, Nat.add_0_r. split; [by apply Hinv|done].
  - assert (encoder_calls F newpwd s
            = if bypass F then [] else [MakeSalt; Encrypt newpwd]) as Henc.
    { unfold encoder_calls. rewrite (method_inv_encrypts _ _ HJ).
      by destruct (bypass F). }
    assert (salts_after F s = salts s + (if bypass F then 0 else 1)) as Hsa.
    { rewrite (salts_after_bypass _ _ HJ). destruct (bypass F); lia. }
    pose proof (same_dom_lookup _ _ name Hdg) as Hkg.
    destruct (table (gr_db s) !! name) as [g|] eqn:Hg.
    + destruct (gr_file E !! name) as [g0|] eqn:Hg0;
        [|by pose proof (proj2 Hkg eq_refl)].
      destruct (is_shadow_grp s) eqn:Hshs; rewrite <- Hsh.
      * pose proof (same_dom_lookup _ _ name (Hds (eq_sym Hsh))) as Hks.
        destruct (table (sgr_db s) !! name) as [sg|] eqn:Hsg.
        -- destruct (sgr_file E !! name) as [sg0|] eqn:Hsg0;
             [|by pose proof (proj2 Hks eq_refl)].
           destruct (process_line_shadow E F r s name newpwd g sg)
             as (s1 & H1 & _ & _ & _ & _ & _ & Hc & Hsl & Hcm & _);
             try done.
           rewrite H in H1. inversion H1; subst s1.
           rewrite Hc, Hsl, Henc, Hsa.
           split; [by apply Hinv, (method_inv_after F s)|].
           split; [|done]. by rewrite <- ?app_assoc.
        -- destruct (sgr_file E !! name) as [sg0|] eqn:Hsg0;
             [by pose proof (proj1 Hks eq_refl)|].
           destruct (process_line_group E F r s name newpwd g)
             as (s1 & H1 & _ & _ & _ & _ & _ & Hc & Hsl & Hcm & _);
             try done; [by right|].
           rewrite H in H1. inversion H1; subst s1.
           rewrite Hc, Hsl, Henc, Hsa, Hshs.
           split; [by apply Hinv, (method_inv_after F s)|].
           split; [|done]. by rewrite <- ?app_assoc.
      * destruct (process_line_group E F r s name newpwd g)
          as (s1 & H1 & Hsg & _ & _ & _ & _ & Hc & Hsl & Hcm & _);
          try done; [by left|].
        rewrite H in H1. inversion H1; subst s1.
        rewrite Hc, Hsl, Henc, Hsa, Hshs.
        split; [by apply Hinv, (method_inv_after F s)|].
        split; [|done]. by rewrite <- ?app_assoc.
    + destruct (gr_file E !! name) as [g0|] eqn:Hg0;
        [by pose proof (proj1 Hkg eq_refl)|].
      destruct (process_line_unknown E F r s name newpwd Hs Hg Hl He')
        as (s1 & H1 & _ & Hsg & _ & _ & _ & Hc & Hsl & Hcm & _).
      rewrite H in H1. inversion H1; subst s1.
      rewrite Hc, Hsl, Henc, Hsa.
      split; [by apply Hinv, (method_inv_after F s)|].
      split; [|done]. by rewrite <- ?app_assoc.
Qed.

Lemma process_all_calls E F rs s s' :
  process_all E F rs s = Done s' -> loop_inv E F s ->
  loop_inv E F s' /\
  calls s' = calls s ++ concat (line_calls E F <$> rs) /\
  salts s' = salts s + sum_list (salts_drawn F <$> rs) /\
  (sgr_file_present E = false -> sgr_db s' = sgr_db s).
Proof.
  revert s. induction rs as [|r rs IH]; intros s H Hinv.
  - simpl in H. inversion H; subst s'. simpl.
    by rewrite app_nil_r, Nat.add_0_r.
  - simpl in H. unfold bind in H.
    destruct (process_line E F r s) as [s1| | |] eqn:H1; try done.
    destruct (process_line_calls _ _ _ _ _ H1 Hinv)
      as (Hinv1 & Hc1 & Hs1 & Hg1).
    destruct (IH _ H Hinv1) as (Hinv' & Hc' & Hs' & Hg').
    split; [done|]. rewrite Hc', Hc1, Hs', Hs1.
    rewrite fmap_cons, concat_cons.
    change (sum_list (salts_drawn F <$> r :: rs))
      with (salts_drawn F r + sum_list (salts_drawn F <$> rs)).
    split; [by rewrite <- app_assoc|]. split; [lia|].
    intros Hp. rewrite Hg', Hg1; done.
Qed.

Lemma opened_loop_inv E F : loop_inv E F (opened E F).
Proof.
  unfold loop_inv, opened. simpl. split; [lia|]. split; [by left|].
  split; [done|]. split; [done|]. by intros ->.
Qed.

Lemma salts_drawn_cleartexts F rs :
  sum_list (salts_drawn F <$> rs)
  = if bypass F then 0 else length (cleartexts rs).
Proof.
  unfold cleartexts.
  induction rs as [|r rs IH]; [by destruct (bypass F)|].
  change (sum_list (salts_drawn F <$> r :: rs))
    with (salts_drawn F r + sum_list (salts_drawn F <$> rs)).
  cbn [omap list_omap]. rewrite IH. unfold salts_drawn.
  destruct (split_line r), (bypass F); simpl; lia.
Qed.

(** X17.  The calls made inside the loop are fixed, line by line, by the
    input and by the two files as they were at the start: nothing for a
    line that does not parse; for one that does, the encoder (unless [-e]
    or method NONE), then [gr_locate], and only when the group exists
    [sgr_locate] (with gshadow in use) and one update, of gshadow when it
    has the entry and of group otherwise.  So the password of an unknown
    group is encrypted all the same, and one salt is drawn for every line
    that parses. *)
Theorem loop_calls_follow_the_input E F stdin s :
  read_lines E F (S (length stdin)) stdin (opened E F) = Done s ->
  calls s = opening (sgr_file_present E)
              ++ concat (line_calls E F <$> input_records E stdin) /\
  salts s = (if bypass F then 0
             else length (cleartexts (input_records E stdin))).
Proof.
  intros H. apply read_lines_process_all in H.
  destruct (process_all_calls _ _ _ _ _ H (opened_loop_inv E F))
    as (_ & Hc & Hs & _).
  split; [done|]. rewrite Hs. simpl. apply salts_drawn_cleartexts.
Qed.

(** ** A run without gshadow *)

Lemma main_Exit_inv E F stdin code final :
  main E F stdin = Exit code final ->
  (opens E = false /\ open_files E (initial E F) = Exit code final) \/
  (opens E = true /\
   exists s,
     read_lines E F (S (length stdin)) stdin (opened E F) = Done s /\
     ((errors s <> 0%Z /\
       @fail_exit state 1 (say error_detected s) = Exit code final) \/
      (errors s = 0%Z /\
       (do s' <- close_files E s; Exit 0 (note FlushCache s'))
       = (Exit code final : run state)))).
Proof.
  unfold main. destruct (opens E) eqn:Hop.
  - rewrite open_files_opens by done. cbv beta iota delta [bind].
    destruct (read_lines E F (S (length stdin)) stdin (opened E F))
      as [s|c0 s0| |] eqn:Hs; try done.
    2:{ by destruct (read_lines_no_exit _ _ _ _ _ _ _ Hs). }
    intros H. right. split; [done|]. exists s. split; [done|].
    destruct (Z.eqb_spec (errors s) 0) as [He|He]; simpl negb in H;
      cbv iota in H; [right|left]; done.
  - destruct (open_files_fails E F Hop) as (s' & Ho & _). rewrite Ho.
    simpl. intros H. left. split; [done|]. exact H.
Qed.

Lemma open_files_shadowless E F code s' :
  sgr_file_present E = false ->
  open_files E (initial E F) = Exit code s' ->
  existsb gshadow_call (calls s') = false /\
  sgr_db s' = Handle (sgr_file E) ∅ false false false.
Proof.
  unfold open_files, initial, fail_exit, gr_lock, gr_open, gr_unlock,
    db_lock, db_open, db_unlock.
  intros ->. simpl.
  destruct (gr_lock_free E), (gr_readable E); simpl; intros H;
    by simplify_eq.
Qed.

Lemma fail_exit_shadowless code s :
  sgr_locked s = false -> existsb gshadow_call (calls s) = false ->
  exists s', @fail_exit state code s = Exit code s' /\
    existsb gshadow_call (calls s') = false /\ sgr_db s' = sgr_db s.
Proof.
  unfold fail_exit, gr_unlock, db_unlock.
  destruct s as [[gs gt gl go gd] sg sh sL gL cm sa er li se ca].
  simpl. intros -> Hc.
  destruct gL, gl; simpl; (eexists; split; [reflexivity|]); simpl;
    rewrite ?existsb_app, ?Hc; done.
Qed.

Lemma close_files_shadowless E s :
  is_shadow_grp s = false -> sgr_locked s = false ->
  existsb gshadow_call (calls s) = false ->
  match close_files E s with
  | Done s' | Exit _ s' =>
      existsb gshadow_call (calls s') = false /\ sgr_db s' = sgr_db s
  | _ => False
  end.
Proof.
  unfold close_files, bind, fail_exit, gr_close, gr_unlock, db_close,
    db_unlock.
  destruct s as [[gs gt gl go gd] sg sh sL gL cm sa er li se ca].
  simpl. intros -> -> Hc.
  destruct gd, (gr_durable E), gL, gl; simpl;
    rewrite ?existsb_app, ?Hc; done.
Qed.

Lemma line_calls_shadowless E F rs :
  sgr_file_present E = false ->
  existsb gshadow_call (concat (line_calls E F <$> rs)) = false.
Proof.
  intros Hp. induction rs as [|r rs IH]; [done|].
  rewrite fmap_cons, concat_cons, existsb_app, IH, orb_false_r.
  unfold line_calls. rewrite Hp.
  destruct (split_line r) as [| |name newpwd]; try done.
  rewrite existsb_app. by destruct (bypass F), (gr_file E !! name).
Qed.

(** X18.  Where there is no gshadow file, nothing is ever asked of the
    gshadow handle: however the process ends, none of its calls is a lock,
    open, lookup, update, close or unlock of gshadow, and the handle is as
    it was before [open_files]. *)
Theorem without_gshadow_only_group_is_used E F stdin code final :
  sgr_file_present E = false ->
  main E F stdin = Exit code final ->
  existsb gshadow_call (calls final) = false /\
  sgr_db final = Handle (sgr_file E) ∅ false false false.
Proof.
  intros Hp H.
  apply main_Exit_inv in H as [(_ & H)|(_ & s & Hs & H)].
  { by apply open_files_shadowless in H. }
  pose proof (read_lines_process_all _ _ _ _ _ _ Hs) as Hpa.
  destruct (process_all_calls _ _ _ _ _ Hpa (opened_loop_inv E F))
    as (_ & Hc & _ & Hg).
  specialize (Hg Hp).
  destruct (loop_end_locks E F stdin s Hs)
    as (_ & _ & Hsh & _ & _ & HsL & _).
  rewrite Hp in Hsh, HsL.
  assert (existsb gshadow_call (calls s) = false) as Hcs.
  { rewrite Hc, existsb_app. fold (input_records E stdin).
    rewrite line_calls_shadowless by done.
    unfold opened, opening. simpl. by rewrite Hp. }
  assert (sgr_db s = Handle (sgr_file E) ∅ false false false) as Hdb.
  { rewrite Hg. unfold opened. simpl. by rewrite Hp. }
  destruct H as [(_ & H)|(_ & H)].
  - destruct (fail_exit_shadowless 1 (say error_detected s) HsL Hcs)
      as (s' & Hf & Hc' & Hdb').
    rewrite Hf in H. inversion H; subst. split; [done|].
    by rewrite Hdb'.
  - pose proof (close_files_shadowless E s Hsh HsL Hcs) as Hcl.
    destruct (close_files E s) as [s'|c s'| |]; try done; simpl in H;
      inversion H; subst; destruct Hcl as (Hc' & Hdb'); simpl.
    + rewrite existsb_app, Hc'. split; [done|]. by rewrite Hdb'.
    + split; [done|]. by rewrite Hdb'.
Qed.

(** ** Failures of [open_files] *)

(** X19.  When a lock or an open fails, [open_files] prints the one
    message for that step, releases exactly the locks it holds by then
    (the group lock first) and the process exits with status 1 before a
    line is read: no lock held when [gr_lock] fails, the group lock when
    [gr_open] or [sgr_lock] fails, both when [sgr_open] fails.  Nothing
    of the input is looked at and both files stay as they were. *)
Theorem failed_open_releases_held_locks E F stdin :
  opens E = false ->
  exists final,
    main E F stdin = Exit 1 final /\
    storage (gr_db final) = gr_file E /\
    storage (sgr_db final) = sgr_file E /\
    locked (gr_db final) = false /\ locked (sgr_db final) = false /\
    (stderr final, calls final) =
    if negb (gr_lock_free E) then
      ([cannot_lock group_db], [Db group_db Lock])
    else if negb (gr_readable E) then
      ([cannot_open group_db],
       [Db group_db Lock; Db group_db Open; Db group_db Unlock])
    else if negb (sgr_lock_free E) then
      ([cannot_lock gshadow_db],
       [Db group_db Lock; Db group_db Open; Db gshadow_db Lock;
        Db group_db Unlock])
    else
      ([cannot_open gshadow_db],
       [Db group_db Lock; Db group_db Open; Db gshadow_db Lock;
        Db gshadow_db Open; Db group_db Unlock; Db gshadow_db Unlock]).
Proof.
  unfold opens, main, open_files, initial, bind, fail_exit, gr_lock,
    gr_open, gr_unlock, sgr_lock, sgr_open, sgr_unlock, db_lock, db_open,
    db_unlock.
  destruct (gr_lock_free E), (gr_readable E), (sgr_file_present E),
    (sgr_lock_free E), (sgr_readable E); simpl; intros H; try done;
    (eexists; split; [reflexivity|done]).
Qed.

(** * The further properties on concrete runs *)

Lemma parser_is_exact_witness :
  fgets 16 (ln "g1:a:b" ++ txt "rest") = Some (ln "g1:a:b", txt "rest") /\
  split_line (ln "g1:a:b") = Fields (txt "g1") (txt "a:b") /\
  ln "g1:a:b" = txt "g1" ++ colon :: txt "a:b" ++ [newline] /\
  (colon ∉ txt "g1").
Proof.
  assert (fgets 16 (ln "g1:a:b" ++ txt "rest")
          = Some (ln "g1:a:b", txt "rest")) as Hg by reflexivity.
  assert (split_line (ln "g1:a:b") = Fields (txt "g1") (txt "a:b")) as Hs
    by reflexivity.
  split; [exact Hg|]. split; [exact Hs|].
  pose proof (parser_is_exact 16 _ _ _ Hg) as W. rewrite Hs in W.
  destruct W as (W1 & _ & W3 & _). split; [exact W1|exact W3].
Defined.

Lemma overlong_line_is_cut_witness :
  2 <= BUFSIZ small_buffer /\
  (newline ∉ txt "g1:password") /\
  BUFSIZ small_buffer - 1 <= length (txt "g1:password") /\
  (line (opened small_buffer plain_flags) < INT_MAX)%Z /\
  (errors (opened small_buffer plain_flags) < INT_MAX)%Z /\
  fgets (BUFSIZ small_buffer) (txt "g1:password" ++ newline :: [])
  = Some (take (BUFSIZ small_buffer - 1) (txt "g1:password"),
          drop (BUFSIZ small_buffer - 1) (txt "g1:password")
            ++ newline :: []).
Proof.
  assert (2 <= BUFSIZ small_buffer) as HB by (simpl; lia).
  assert (newline ∉ txt "g1:password") as Hnl by compute_done.
  assert (BUFSIZ small_buffer - 1 <= length (txt "g1:password")) as Hlen
    by (simpl; lia).
  assert (line (opened small_buffer plain_flags) < INT_MAX)%Z as Hl
    by reflexivity.
  assert (errors (opened small_buffer plain_flags) < INT_MAX)%Z as He
    by reflexivity.
  repeat (split; [done|]).
  exact (proj1 (overlong_line_is_cut small_buffer plain_flags
                  (txt "g1:password") [] _ 3 HB Hnl Hlen Hl He)).
Defined.

Lemma nul_makes_line_too_long_witness :
  (newline ∉ txt "g1") /\
  (line loop_entry < INT_MAX)%Z /\ (errors loop_entry < INT_MAX)%Z /\
  exists s',
    process_line shadowed plain_flags (txt "g1" ++ NUL :: ln ":pw")
      loop_entry = Done s' /\
    stderr s' = stderr loop_entry ++ [line_too_long (line loop_entry + 1)].
Proof.
  assert (newline ∉ txt "g1") as Hnl by compute_done.
  assert (line loop_entry < INT_MAX)%Z as Hl by reflexivity.
  assert (errors loop_entry < INT_MAX)%Z as He by reflexivity.
  repeat (split; [done|]).
  destruct (nul_makes_line_too_long shadowed plain_flags (txt "g1")
              (ln ":pw") loop_entry Hnl Hl He) as (s' & H & Hse & _).
  exists s'. split; [exact H|exact Hse].
Defined.

Lemma errors_counts_rejected_lines_witness :
  2 <= BUFSIZ shadowed /\
  (Z.of_nat (length mixed_input) <= INT_MAX)%Z /\
  opens shadowed = true /\
  rejected_count shadowed (input_records shadowed mixed_input) = 2 /\
  exists s,
    read_lines shadowed plain_flags (S (length mixed_input)) mixed_input
      (opened shadowed plain_flags) = Done s /\
    errors s
    = Z.of_nat (rejected_count shadowed (input_records shadowed mixed_input)).
Proof.
  assert (2 <= BUFSIZ shadowed) as HB by (simpl; lia).
  assert (Z.of_nat (length mixed_input) <= INT_MAX)%Z as Hlen
    by (vm_compute; discriminate).
  split; [exact HB|]. split; [exact Hlen|]. split; [reflexivity|].
  split; [vm_compute; reflexivity|].
  destruct (errors_counts_rejected_lines shadowed plain_flags mixed_input
              HB Hlen eq_refl) as (s & Hs & He & _).
  exists s. split; [exact Hs|exact He].
Defined.

Lemma run_changes_passwords_only_witness :
  exists final,
    main shadowed plain_flags twice_g1 = Exit 0 final /\
    gr_rest <$> storage (gr_db final) !! txt "g1"
    = gr_rest <$> gr_file shadowed !! txt "g1" /\
    sg_rest <$> storage (sgr_db final) !! txt "g1"
    = sg_rest <$> sgr_file shadowed !! txt "g1".
Proof.
  assert (exists final, main shadowed plain_flags twice_g1 = Exit 0 final)
    as [final Hm] by (vm_compute; eexists; reflexivity).
  exists final. split; [exact Hm|].
  destruct (run_changes_passwords_only shadowed plain_flags twice_g1 final
              Hm (txt "g1")) as (W1 & W2 & _).
  split; [exact W1|exact W2].
Defined.

Lemma every_exit_releases_locks_witness :
  2 <= BUFSIZ shadowed /\
  (Z.of_nat (length mixed_input) <= INT_MAX)%Z /\
  exists code final,
    main shadowed plain_flags mixed_input = Exit code final /\
    (code = 0%Z \/ code = 1%Z) /\
    locked (gr_db final) = false /\ locked (sgr_db final) = false.
Proof.
  assert (2 <= BUFSIZ shadowed) as HB by (simpl; lia).
  assert (Z.of_nat (length mixed_input) <= INT_MAX)%Z as Hlen
    by (vm_compute; discriminate).
  split; [exact HB|]. split; [exact Hlen|].
  exact (every_exit_releases_locks shadowed plain_flags mixed_input HB Hlen).
Defined.

Lemma exit_zero_means_clean_run_witness :
  exists final,
    main shadowed plain_flags twice_g1 = Exit 0 final /\
    existsb (rejects shadowed) (input_records shadowed twice_g1) = false /\
    stderr final = [].
Proof.
  assert (exists final, main shadowed plain_flags twice_g1 = Exit 0 final)
    as [final Hm] by (vm_compute; eexists; reflexivity).
  exists final. split; [exact Hm|].
  destruct (exit_zero_means_clean_run shadowed plain_flags twice_g1 final Hm)
    as (_ & W1 & _ & W2).
  split; [exact W1|exact W2].
Defined.

Lemma empty_input_changes_nothing_witness :
  opens group_unwritable = true /\
  exists final,
    main group_unwritable plain_flags [] = Exit 0 final /\
    storage (gr_db final) = gr_file group_unwritable /\
    storage (sgr_db final) = sgr_file group_unwritable.
Proof.
  split; [reflexivity|].
  destruct (empty_input_changes_nothing group_unwritable plain_flags eq_refl)
    as (final & Hm & W1 & W2 & _).
  exists final. split; [exact Hm|]. split; [exact W1|exact W2].
Defined.

Lemma failed_gshadow_write_skips_group_witness :
  opens gshadow_unwritable = true /\
  read_lines gshadow_unwritable plain_flags (S (length twice_g1)) twice_g1
    (opened gshadow_unwritable plain_flags)
  = Done (after_loop gshadow_unwritable plain_flags twice_g1) /\
  errors (after_loop gshadow_unwritable plain_flags twice_g1) = 0%Z /\
  sgr_file_present gshadow_unwritable = true /\
  dirty (sgr_db (after_loop gshadow_unwritable plain_flags twice_g1)) = true /\
  sgr_durable gshadow_unwritable = false /\
  exists final,
    main gshadow_unwritable plain_flags twice_g1 = Exit 1 final /\
    storage (gr_db final) = gr_file gshadow_unwritable /\
    storage (sgr_db final) = sgr_file gshadow_unwritable.
Proof.
  assert (read_lines gshadow_unwritable plain_flags (S (length twice_g1))
            twice_g1 (opened gshadow_unwritable plain_flags)
          = Done (after_loop gshadow_unwritable plain_flags twice_g1)) as Hs
    by (vm_compute; reflexivity).
  assert (errors (after_loop gshadow_unwritable plain_flags twice_g1) = 0%Z)
    as He by (vm_compute; reflexivity).
  assert (dirty (sgr_db (after_loop gshadow_unwritable plain_flags twice_g1))
          = true) as Hd by (vm_compute; reflexivity).
  split; [reflexivity|]. split; [exact Hs|]. split; [exact He|].
  split; [reflexivity|]. split; [exact Hd|]. split; [reflexivity|].
  destruct (failed_gshadow_write_skips_group gshadow_unwritable plain_flags
              twice_g1 _ eq_refl Hs He eq_refl Hd eq_refl)
    as (final & Hm & _ & _ & W1 & W2 & _).
  exists final. split; [exact Hm|]. split; [exact W1|exact W2].
Defined.

Lemma failed_group_write_keeps_gshadow_witness :
  opens group_unwritable = true /\
  read_lines group_unwritable plain_flags
    (S (length (ln "g1:pass1" ++ ln "staff:x")))
    (ln "g1:pass1" ++ ln "staff:x") (opened group_unwritable plain_flags)
  = Done (after_loop group_unwritable plain_flags
            (ln "g1:pass1" ++ ln "staff:x")) /\
  errors (after_loop group_unwritable plain_flags
            (ln "g1:pass1" ++ ln "staff:x")) = 0%Z /\
  sgr_file_present group_unwritable = true /\
  dirty (sgr_db (after_loop group_unwritable plain_flags
                   (ln "g1:pass1" ++ ln "staff:x"))) = true /\
  sgr_durable group_unwritable = true /\
  dirty (gr_db (after_loop group_unwritable plain_flags
                  (ln "g1:pass1" ++ ln "staff:x"))) = true /\
  gr_durable group_unwritable = false /\
  exists final,
    main group_unwritable plain_flags (ln "g1:pass1" ++ ln "staff:x")
    = Exit 1 final /\
    storage (gr_db final) = gr_file group_unwritable /\
    storage (sgr_db final)
    = table (sgr_db (after_loop group_unwritable plain_flags
                       (ln "g1:pass1" ++ ln "staff:x"))).
Proof.
  assert (read_lines group_unwritable plain_flags
            (S (length (ln "g1:pass1" ++ ln "staff:x")))
            (ln "g1:pass1" ++ ln "staff:x")
            (opened group_unwritable plain_flags)
          = Done (after_loop group_unwritable plain_flags
                    (ln "g1:pass1" ++ ln "staff:x"))) as Hs
    by (vm_compute; reflexivity).
  assert (errors (after_loop group_unwritable plain_flags
                    (ln "g1:pass1" ++ ln "staff:x")) = 0%Z)
    as He by (vm_compute; reflexivity).
  assert (dirty (sgr_db (after_loop group_unwritable plain_flags
                           (ln "g1:pass1" ++ ln "staff:x"))) = true)
    as Hd by (vm_compute; reflexivity).
  assert (dirty (gr_db (after_loop group_unwritable plain_flags
                          (ln "g1:pass1" ++ ln "staff:x"))) = true)
    as Hdg by (vm_compute; reflexivity).
  split; [reflexivity|]. split; [exact Hs|]. split; [exact He|].
  split; [reflexivity|]. split; [exact Hd|]. split; [reflexivity|].
  split; [exact Hdg|]. split; [reflexivity|].
  destruct (failed_group_write_keeps_gshadow group_unwritable plain_flags
              (ln "g1:pass1" ++ ln "staff:x") _ eq_refl Hs He eq_refl Hd
              eq_refl Hdg eq_refl)
    as (final & Hm & _ & _ & W1 & W2 & _).
  exists final. split; [exact Hm|]. split; [exact W1|exact W2].
Defined.

Lemma accepted_flags_are_consistent_witness :
  process_flags (demo_platform true 0) sha_opts = Go sha_flags [] /\
  (sflg sha_flags = true ->
   cflg sha_flags = true /\ USE_SHA_CRYPT (demo_platform true 0) = true) /\
  (forall m, crypt_method0 sha_flags = Some m ->
             supported_method (demo_platform true 0) m = true).
Proof.
  assert (process_flags (demo_platform true 0) sha_opts = Go sha_flags [])
    as Hp by (vm_compute; reflexivity).
  split; [exact Hp|].
  destruct (accepted_flags_are_consistent _ _ _ _ Hp)
    as (_ & W1 & _ & _ & _ & W2).
  split; [exact W1|exact W2].
Defined.

Lemma unrecognised_option_prints_usage_witness :
  ((chr "h", @nil ascii) ∈ help_opts) /\
  recognised (demo_platform true 0) (fst (chr "h", @nil ascii)) = false /\
  exists log,
    process_flags (demo_platform true 0) help_opts
    = Stop (E_USAGE (demo_platform true 0)) log.
Proof.
  assert ((chr "h", @nil ascii) ∈ help_opts) as Hin by (unfold help_opts; set_solver).
  assert (recognised (demo_platform true 0) (fst (chr "h", @nil ascii)) = false)
    as Hr by (vm_compute; reflexivity).
  split; [exact Hin|]. split; [exact Hr|].
  exact (unrecognised_option_prints_usage _ _ _ Hin Hr).
Defined.

Lemma options_are_collected_witness :
  process_flags (demo_platform true 0) sha_opts = Go sha_flags [] /\
  crypt_method0 sha_flags = last_arg "c" sha_opts /\
  sha_rounds sha_flags
  = fold_left (rounds_step (demo_platform true 0)) sha_opts 5000%Z.
Proof.
  assert (process_flags (demo_platform true 0) sha_opts = Go sha_flags [])
    as Hp by (vm_compute; reflexivity).
  split; [exact Hp|].
  destruct (options_are_collected _ _ _ _ Hp) as (_ & _ & _ & _ & W1 & W2).
  split; [exact W1|exact W2].
Defined.

Lemma check_perms_stops_at_first_failure_witness :
  USE_PAM (demo_platform true 7) = true /\
  PAM_USER_UNKNOWN (demo_platform true 7)
    <> PAM_SUCCESS (demo_platform true 7) /\
  check_perms (demo_platform true 7) []
  = Stop 1 [Getpwuid; PamStart (txt "root"); PamAuthenticate; PamAcctMgmt;
            PamEnd 7; Print pam_authentication_failed].
Proof.
  assert (PAM_USER_UNKNOWN (demo_platform true 7)
          <> PAM_SUCCESS (demo_platform true 7)) as Hne
    by (simpl; discriminate).
  split; [reflexivity|]. split; [exact Hne|].
  exact (check_perms_stops_at_first_failure (demo_platform true 7) []
           eq_refl Hne).
Defined.

Lemma program_outcomes_witness :
  2 <= BUFSIZ shadowed /\
  (Z.of_nat (length mixed_input) <= INT_MAX)%Z /\
  PAM_USER_UNKNOWN (demo_platform true 0)
    <> PAM_SUCCESS (demo_platform true 0) /\
  exists log F r code final,
    chgpasswd (demo_platform true 0) shadowed sha_opts mixed_input
    = Ran log F r [] /\
    r = Exit code final /\ (code = 0%Z \/ code = 1%Z).
Proof.
  assert (2 <= BUFSIZ shadowed) as HB by (simpl; lia).
  assert (Z.of_nat (length mixed_input) <= INT_MAX)%Z as Hlen
    by (vm_compute; discriminate).
  assert (PAM_USER_UNKNOWN (demo_platform true 0)
          <> PAM_SUCCESS (demo_platform true 0)) as Hne
    by (simpl; discriminate).
  split; [exact HB|]. split; [exact Hlen|]. split; [exact Hne|].
  pose proof (program_outcomes (demo_platform true 0) shadowed sha_opts
                mixed_input HB Hlen Hne) as W.
  destruct (chgpasswd (demo_platform true 0) shadowed sha_opts mixed_input)
    as [c l|l F r last|] eqn:Hc;
    [vm_compute in Hc; discriminate| |destruct W].
  destruct W as (Hpf & _ & code & final & Hr & Hm & Hcode & Hlast).
  assert (code = 1%Z) as Hone.
  { clear - Hpf Hm. vm_compute in Hpf. inversion Hpf; subst F.
    vm_compute in Hm. congruence. }
  subst code. exists l, F, r, 1%Z, final. rewrite Hlast. simpl.
  split; [reflexivity|]. split; [exact Hr|exact Hcode].
Defined.

Lemma loop_calls_follow_the_input_witness :
  read_lines shadowed plain_flags (S (length mixed_input)) mixed_input
    (opened shadowed plain_flags)
  = Done (after_loop shadowed plain_flags mixed_input) /\
  calls (after_loop shadowed plain_flags mixed_input)
  = opening (sgr_file_present shadowed)
      ++ concat (line_calls shadowed plain_flags
                   <$> input_records shadowed mixed_input) /\
  salts (after_loop shadowed plain_flags mixed_input) = 3.
Proof.
  assert (read_lines shadowed plain_flags (S (length mixed_input))
            mixed_input (opened shadowed plain_flags)
          = Done (after_loop shadowed plain_flags mixed_input)) as Hs
    by (vm_compute; reflexivity).
  split; [exact Hs|].
  destruct (loop_calls_follow_the_input shadowed plain_flags mixed_input _ Hs)
    as (W1 & W2).
  split; [exact W1|]. rewrite W2. vm_compute. reflexivity.
Defined.

Lemma without_gshadow_only_group_is_used_witness :
  sgr_file_present shadowless = false /\
  exists code final,
    main shadowless plain_flags mixed_input = Exit code final /\
    existsb gshadow_call (calls final) = false.
Proof.
  split; [reflexivity|].
  assert (exists code final,
            main shadowless plain_flags mixed_input = Exit code final)
    as (code & final & Hm) by (vm_compute; do 2 eexists; reflexivity).
  exists code, final. split; [exact Hm|].
  exact (proj1 (without_gshadow_only_group_is_used shadowless plain_flags
                  mixed_input code final eq_refl Hm)).
Defined.

Lemma failed_open_releases_held_locks_witness :
  opens gshadow_lock_held = false /\
  exists final,
    main gshadow_lock_held plain_flags mixed_input = Exit 1 final /\
    locked (gr_db final) = false /\
    stderr final = [cannot_lock gshadow_db].
Proof.
  split; [reflexivity|].
  destruct (failed_open_releases_held_locks gshadow_lock_held plain_flags
              mixed_input eq_refl) as (final & Hm & _ & _ & W1 & _ & W2).
  exists final. split; [exact Hm|]. split; [exact W1|].
  simpl in W2. congruence.
Defined.

(** * The parser on the lines of the input *)





(** * The lifecycle, call by call *)

Lemma opens_inv E :
  opens E = true ->
  gr_lock_free E = true /\ gr_readable E = true /\
  (sgr_file_present E = true ->
   sgr_lock_free E = true /\ sgr_readable E = true).
Proof.
  unfold opens.
  destruct (gr_lock_free E), (gr_readable E), (sgr_file_present E),
    (sgr_lock_free E), (sgr_readable E); simpl; intros H; try done;
    repeat split; done.
Qed.

Lemma existsb_filter {A} (f : A -> bool) (l : list A) :
  existsb f l = true -> length (List.filter f l) <> 0.
Proof.
  induction l as [|x l IH]; simpl; [done|].
  destruct (f x); simpl; [done|]. exact IH.
Qed.

Lemma existsb_filter_none {A} (f : A -> bool) (l : list A) :
  existsb f l = false -> length (List.filter f l) = 0.
Proof.
  induction l as [|x l IH]; simpl; [done|].
  destruct (f x); simpl; [done|]. exact IH.
Qed.

(** The three ways through [close_files] when it is entered with the
    locks held as [open_files] leaves them. *)
Lemma close_files_trace E s :
  gr_locked s = true -> locked (gr_db s) = true ->
  sgr_locked s = is_shadow_grp s -> locked (sgr_db s) = is_shadow_grp s ->
  match close_files E s with
  | Done s' =>
      calls s' = calls s ++ closing (is_shadow_grp s) /\
      locked (gr_db s') = false /\ locked (sgr_db s') = false
  | Exit code s' =>
      code = 1%Z /\
      locked (gr_db s') = false /\ locked (sgr_db s') = false /\
      ((is_shadow_grp s = true /\ sgr_durable E = false /\
        calls s' = calls s ++ [Db gshadow_db Close; Db group_db Unlock;
                               Db gshadow_db Unlock]) \/
       (gr_durable E = false /\
        calls s' = calls s
                     ++ (if is_shadow_grp s
                         then [Db gshadow_db Close; Db gshadow_db Unlock]
                         else [])
                     ++ [Db group_db Close; Db group_db Unlock]))
  | _ => False
  end.
Proof.
  unfold close_files, closing, bind, fail_exit, sgr_close, sgr_unlock,
    gr_close, gr_unlock, db_close, db_unlock.
  destruct s as [[gs gt gl go gd] [ss st sl so sd] sh sL gL cm sa er li se ca].
  simpl. intros -> -> -> ->.
  destruct sh, sd, (sgr_durable E), gd, (gr_durable E); simpl;
    rewrite <- ?app_assoc; simpl;
    first [ done
          | split; [done|]; split; [done|]; split; [done|];
            first [ left; done | right; done ] ].
Qed.

(** The four ways in which [open_files] fails. *)
Lemma open_files_trace E F :
  opens E = false ->
  exists final,
    open_files E (initial E F) = Exit 1 final /\
    locked (gr_db final) = false /\ locked (sgr_db final) = false /\
    if negb (gr_lock_free E) then
      1%Z = 1%Z /\ calls final = [Db group_db Lock] /\
      storage (gr_db final) = gr_file E /\
      storage (sgr_db final) = sgr_file E
    else if negb (gr_readable E) then
      1%Z = 1%Z /\
      calls final = [Db group_db Lock; Db group_db Open;
                     Db group_db Unlock] /\
      storage (gr_db final) = gr_file E /\
      storage (sgr_db final) = sgr_file E
    else if sgr_file_present E && negb (sgr_lock_free E) then
      1%Z = 1%Z /\
      calls final = [Db group_db Lock; Db group_db Open;
                     Db gshadow_db Lock; Db group_db Unlock] /\
      storage (gr_db final) = gr_file E /\
      storage (sgr_db final) = sgr_file E
    else if sgr_file_present E && negb (sgr_readable E) then
      1%Z = 1%Z /\
      calls final = [Db group_db Lock; Db group_db Open;
                     Db gshadow_db Lock; Db gshadow_db Open;
                     Db group_db Unlock; Db gshadow_db Unlock] /\
      storage (gr_db final) = gr_file E /\
      storage (sgr_db final) = sgr_file E
    else False.
Proof.
  intros Hop. unfold opens in Hop.
  destruct (gr_lock_free E) eqn:H1, (gr_readable E) eqn:H2,
    (sgr_file_present E) eqn:H3, (sgr_lock_free E) eqn:H4,
    (sgr_readable E) eqn:H5; simpl in Hop; try discriminate Hop; clear Hop;
    unfold open_files, initial, gr_lock, db_lock; simpl; rewrite ?H1; simpl;
    unfold gr_open, db_open; simpl; rewrite ?H2, ?H3; simpl;
    unfold sgr_lock, db_lock; simpl; rewrite ?H4; simpl;
    unfold sgr_open, db_open; simpl; rewrite ?H5; simpl;
    unfold fail_exit, gr_unlock, sgr_unlock, db_unlock; simpl;
    (eexists; split; [reflexivity|done]).
Qed.

(** C8.  The calls of a run, in order, whatever its outcome.  The run
    locks the group file, opens it, then (when gshadow is present) locks
    gshadow and opens it.  When one of these steps fails the run stops
    there with status 1: it has made the calls up to the failed one,
    unlocks what it holds and leaves both files as they were; in
    particular a lock that cannot be taken ends the run before the loop
    makes any call.  Otherwise the calls of the loop follow, line by line,
    and then: the unlocks alone, with status 1, when a line was rejected;
    else the close of gshadow (when present) before the close of the
    group file, each followed by the unlock of its file when it succeeds,
    with status 0 when both succeed, the files then holding the tables as
    the loop left them.  A close can only fail for want of a durable
    write; the run then unlocks what is still locked and exits with
    status 1.  However the run ends, neither file is left locked. *)
Theorem lifecycle_is_ordered E F stdin :
  2 <= BUFSIZ E -> (Z.of_nat (length stdin) <= INT_MAX)%Z ->
  exists code final,
    main E F stdin = Exit code final /\
    locked (gr_db final) = false /\ locked (sgr_db final) = false /\
    if negb (gr_lock_free E) then
      code = 1%Z /\ calls final = [Db group_db Lock] /\
      storage (gr_db final) = gr_file E /\
      storage (sgr_db final) = sgr_file E
    else if negb (gr_readable E) then
      code = 1%Z /\
      calls final = [Db group_db Lock; Db group_db Open;
                     Db group_db Unlock] /\
      storage (gr_db final) = gr_file E /\
      storage (sgr_db final) = sgr_file E
    else if sgr_file_present E && negb (sgr_lock_free E) then
      code = 1%Z /\
      calls final = [Db group_db Lock; Db group_db Open;
                     Db gshadow_db Lock; Db group_db Unlock] /\
      storage (gr_db final) = gr_file E /\
      storage (sgr_db final) = sgr_file E
    else if sgr_file_present E && negb (sgr_readable E) then
      code = 1%Z /\
      calls final = [Db group_db Lock; Db group_db Open;
                     Db gshadow_db Lock; Db gshadow_db Open;
                     Db group_db Unlock; Db gshadow_db Unlock] /\
      storage (gr_db final) = gr_file E /\
      storage (sgr_db final) = sgr_file E
    else
      exists after,
        calls final
        = opening (sgr_file_present E)
            ++ concat (line_calls E F <$> input_records E stdin)
            ++ after /\
        if existsb (rejects E) (input_records E stdin) then
          code = 1%Z /\ after = unlocking (sgr_file_present E)
        else
          (code = 0%Z /\
           after = closing (sgr_file_present E) ++ [FlushCache] /\
           storage (gr_db final) = table (gr_db (after_loop E F stdin)) /\
           (sgr_file_present E = true ->
            storage (sgr_db final)
            = table (sgr_db (after_loop E F stdin)))) \/
          (code = 1%Z /\ sgr_file_present E = true /\
           sgr_durable E = false /\
           after = [Db gshadow_db Close; Db group_db Unlock;
                    Db gshadow_db Unlock]) \/
          (code = 1%Z /\ gr_durable E = false /\
           after = (if sgr_file_present E
                    then [Db gshadow_db Close; Db gshadow_db Unlock]
                    else [])
                   ++ [Db group_db Close; Db group_db Unlock]).
Proof.
  intros HB Hlen. destruct (opens E) eqn:Hop.
  - destruct (opens_inv E Hop) as (Hgl & Hgr & Hsg).
    assert (sgr_file_present E && negb (sgr_lock_free E) = false) as Hb3.
    { destruct (sgr_file_present E); [|done].
      by destruct (Hsg eq_refl) as [-> _]. }
    assert (sgr_file_present E && negb (sgr_readable E) = false) as Hb4.
    { destruct (sgr_file_present E); [|done].
      by destruct (Hsg eq_refl) as [_ ->]. }
    rewrite Hgl, Hgr, Hb3, Hb4. cbn [negb].
    destruct (main_opens E F stdin HB Hlen Hop) as (s & Hs & Hp & _).
    destruct (process_all_calls _ _ _ _ _ Hp (opened_loop_inv E F))
      as (_ & Hc & _).
    assert (calls s = opening (sgr_file_present E)
                        ++ concat (line_calls E F <$> input_records E stdin))
      as Hcs by (by rewrite Hc).
    pose proof (process_all_errors _ _ _ _ _ Hp) as He.
    simpl in He. specialize (He ltac:(lia) eq_refl).
    unfold rejected_count in He.
    destruct (loop_end_locks E F stdin s Hs)
      as (_ & _ & Hsh & HgL & Hgl' & HsL & Hsl & _).
    destruct (existsb (rejects E) (input_records E stdin)) eqn:Hrej.
    + apply existsb_filter in Hrej.
      destruct (main_aborts E F stdin s Hop Hs ltac:(lia))
        as (final & Hf & Hcf & _ & _ & Hl1 & Hl2 & _).
      exists 1%Z, final. split; [done|]. split; [done|]. split; [done|].
      exists (unlocking (sgr_file_present E)).
      split; [|done]. by rewrite Hcf, Hcs, <- app_assoc.
    + apply existsb_filter_none in Hrej.
      rewrite (main_closes E F stdin s Hop Hs ltac:(lia)).
      pose proof (close_files_trace E s HgL Hgl') as Ht.
      rewrite HsL, Hsl, Hsh in Ht. specialize (Ht eq_refl eq_refl).
      destruct (close_files E s) as [s'|c s'| |] eqn:Hcl; try done; simpl.
      * destruct Ht as (Hc' & Hl1 & Hl2).
        exists 0%Z, (note FlushCache s').
        split; [done|]. split; [done|]. split; [done|].
        exists (closing (sgr_file_present E) ++ [FlushCache]).
        split; [simpl; by rewrite Hc', Hcs, <- !app_assoc|].
        left. split; [done|]. split; [done|].
        assert (after_loop E F stdin = s) as ->
          by (unfold after_loop; by rewrite Hs).
        destruct (process_all_keeps_rest _ _ _ _ _ Hp) as (Hkg & Hks & _);
          [simpl; lia|].
        destruct (close_files_Done E s s' Hcl) as (Hw1 & Hw2 & _).
        { by apply Hkg. }
        { intros Hshs. apply Hks. unfold opened, consistent. simpl.
          rewrite Hsh in Hshs. by rewrite Hshs. }
        simpl. split; [done|]. intros Hpres. rewrite Hw2, Hsh, Hpres. done.
      * destruct Ht as (-> & Hl1 & Hl2 & Ht).
        exists 1%Z, s'. split; [done|]. split; [done|]. split; [done|].
        destruct Ht as [(Hp1 & Hd & Hc')|(Hd & Hc')].
        -- exists [Db gshadow_db Close; Db group_db Unlock;
                   Db gshadow_db Unlock].
           split; [by rewrite Hc', Hcs, <- app_assoc|].
           right. left. done.
        -- exists ((if sgr_file_present E
                    then [Db gshadow_db Close; Db gshadow_db Unlock]
                    else [])
                   ++ [Db group_db Close; Db group_db Unlock]).
           split; [by rewrite Hc', Hcs, <- !app_assoc|].
           right. right. done.
  - destruct (open_files_trace E F Hop) as (final & Ho & Hl1 & Hl2 & Ht).
    exists 1%Z, final. unfold main. rewrite Ho.
    split; [done|]. split; [done|]. split; [done|].
    destruct (negb (gr_lock_free E)); [exact Ht|].
    destruct (negb (gr_readable E)); [exact Ht|].
    destruct (sgr_file_present E && negb (sgr_lock_free E)); [exact Ht|].
    destruct (sgr_file_present E && negb (sgr_readable E)); [exact Ht|].
    destruct Ht.
Qed.

(** * The two properties on concrete runs *)


Lemma lifecycle_is_ordered_witness :
  2 <= BUFSIZ shadowed /\
  (Z.of_nat (length twice_g1) <= INT_MAX)%Z /\
  exists final,
    main shadowed plain_flags twice_g1 = Exit 0 final /\
    locked (gr_db final) = false /\ locked (sgr_db final) = false /\
    calls final
    = [Db group_db Lock; Db group_db Open; Db gshadow_db Lock;
       Db gshadow_db Open]
        ++ concat (line_calls shadowed plain_flags
                     <$> input_records shadowed twice_g1)
        ++ [Db gshadow_db Close; Db gshadow_db Unlock; Db group_db Close;
            Db group_db Unlock; FlushCache].
Proof.
  assert (2 <= BUFSIZ shadowed) as HB by (simpl; lia).
  assert (Z.of_nat (length twice_g1) <= INT_MAX)%Z as Hlen
    by (vm_compute; discriminate).
  split; [exact HB|]. split; [exact Hlen|].
  destruct (lifecycle_is_ordered shadowed plain_flags twice_g1 HB Hlen)
    as (code & final & Hm & Hl1 & Hl2 & W).
  assert (negb (gr_lock_free shadowed) = false) as H1 by reflexivity.
  assert (negb (gr_readable shadowed) = false) as H2 by reflexivity.
  assert (sgr_file_present shadowed && negb (sgr_lock_free shadowed) = false)
    as H3 by reflexivity.
  assert (sgr_file_present shadowed && negb (sgr_readable shadowed) = false)
    as H4 by reflexivity.
  assert (existsb (rejects shadowed) (input_records shadowed twice_g1)
          = false) as Hrej by (vm_compute; reflexivity).
  rewrite H1, H2, H3, H4 in W. destruct W as (after & Hc & W).
  rewrite Hrej in W.
  destruct W as [(-> & -> & _)|[(_ & _ & Hd & _)|(_ & Hd & _)]];
    [|discriminate Hd|discriminate Hd].
  exists final. split; [exact Hm|]. split; [exact Hl1|].
  split; [exact Hl2|]. exact Hc.
Defined.
